(** * manatcp: client connection multiplexer and server session loop

    A shallow embedding of the client ([Conn]) and of the two revisions
    of the server ([ListenerConn]) of github.com/mediocregopher/manatcp.

    Goroutines are modelled as labelled transition systems: a state records
    the statement each goroutine is blocked at, and one step runs a goroutine
    from that statement to its next blocking statement.  The sequential code
    between two blocking statements is written in a state-and-panic monad so
    that it reads like the Go source.  Everything the package receives from
    its collaborators (the [Client] and [ServerClient] callbacks, the buffered
    writer, the stream) is a record of functions over a state of their own:
    the theorems hold for every implementation of the callbacks. *)

From Stdlib Require Import List ZArith Lia Bool Ascii String.
Import ListNotations.
Local Open Scope Z_scope.

(** ** Go primitives *)

(** Go's [error] interface value: [None] is [nil]. *)
Definition error := option string.

(** What the package needs to know of a channel besides its pending
    rendezvous: whether [close] has been applied to it. *)
Inductive chan := Open | Closed.

Definition chan_eqb (a b : chan) : bool :=
  match a, b with
  | Open, Open | Closed, Closed => true
  | _, _ => false
  end.

(** [time.Duration] counts nanoseconds. *)
Definition Nanosecond : Z := 1.
Definition Microsecond : Z := 1000 * Nanosecond.
Definition Millisecond : Z := 1000 * Microsecond.
Definition Second : Z := 1000 * Millisecond.

(** Result of running Go statements: a value, or a run-time panic. *)
Inductive outcome (A : Type) :=
| Ret (a : A)
| Panic (msg : string).
Arguments Ret {A} a.
Arguments Panic {A} msg.

Definition close_of_closed_channel : string := "close of closed channel".

(** [close(c)]: closing a closed channel is a run-time panic. *)
Definition close (c : chan) : outcome chan :=
  match c with
  | Open => Ret Closed
  | Closed => Panic close_of_closed_channel
  end.

(** ** Shared types *)

Section ReadWrap.
Variable T : Type.

(** [interface{}] holding a [T]; [None] is the [nil] interface value. *)
Definition iface := option T.

(** [type readWrap struct { item interface{}; err error; die bool }] *)
Record readWrap := mkReadWrap {
  item : iface;
  err : error;
  die : bool
}.
End ReadWrap.
Arguments mkReadWrap {T} item err die.
Arguments item {T} r.
Arguments err {T} r.
Arguments die {T} r.

Definition is_nil {A : Type} (o : option A) : bool :=
  match o with
  | None => true
  | Some _ => false
  end.

(** The buffered writer and the stream under it, as the package uses them:
    [buf.Writer.Flush()] and [conn.Close()], on a state [U] they share with
    the collaborator's callbacks. *)
Record Stream (U : Type) := mkStream {
  Flush : U -> error * U;
  conn_Close : U -> U
}.
Arguments mkStream {U} Flush conn_Close.
Arguments Flush {U} s u.
Arguments conn_Close {U} s u.

(** ** Server side: [ListenerConn] *)

Module Server.

(** What the arbitration goroutine does, in the order it does it. *)
Inductive action (T : Type) :=
| GoRead                        (* go lc.read(readCh) *)
| CallHandleCmd (cmd : iface T) (* lc.serverClient.HandleCmd(rw.item) *)
| CallWrite (it : iface T)      (* lc.serverClient.Write(lc.buf.Writer, item) *)
| CallFlush                     (* lc.buf.Writer.Flush() *)
| GoGroundPushCh                (* go lc.groundPushCh(doneClosing) *)
| CallClosing                   (* lc.serverClient.Closing() *)
| CloseConn                     (* lc.conn.Close() *)
| CloseDoneClosing              (* close(doneClosing) *)
| ClosePushCh                   (* close(lc.PushCh) *)
| CloseCloseCh.                 (* close(lc.CloseCh) *)
Arguments GoRead {T}.
Arguments CallHandleCmd {T} cmd.
Arguments CallWrite {T} it.
Arguments CallFlush {T}.
Arguments GoGroundPushCh {T}.
Arguments CallClosing {T}.
Arguments CloseConn {T}.
Arguments CloseDoneClosing {T}.
Arguments ClosePushCh {T}.
Arguments CloseCloseCh {T}.

(** The six statements of the teardown sequence. *)
Definition is_teardown {T} (a : action T) : bool :=
  match a with
  | GoGroundPushCh | CallClosing | CloseConn
  | CloseDoneClosing | ClosePushCh | CloseCloseCh => true
  | _ => false
  end.

Definition teardown_actions {T} : list (action T) :=
  [GoGroundPushCh; CallClosing; CloseConn; CloseDoneClosing; ClosePushCh; CloseCloseCh].

Section Core.
Variable T : Type.
(** State owned by the collaborators: the [ServerClient] value, the
    buffered writer [lc.buf.Writer] and the stream under it. *)
Variable U : Type.

(** [type ListenerConn struct].  [connClosed] stands for [conn],
    [world] for [buf] and the value behind [serverClient];
    [serverClientNil] tells whether the field was set to [nil];
    [grounding] whether the [groundPushCh] goroutine is receiving;
    [trace] is the history of the arbitration goroutine. *)
Record ListenerConn := mkLC {
  connClosed : bool;
  world : U;
  serverClientNil : bool;
  CloseCh : chan;
  PushCh : chan;
  grounding : bool;
  trace : list (action T)
}.

(** Sequential Go code over a [ListenerConn]. *)
Definition M (A : Type) := ListenerConn -> outcome A * ListenerConn.

Definition ret {A} (a : A) : M A := fun lc => (Ret a, lc).

Definition bind {A B} (m : M A) (k : A -> M B) : M B :=
  fun lc =>
    match m lc with
    | (Ret a, lc') => k a lc'
    | (Panic msg, lc') => (Panic msg, lc')
    end.

Definition log (a : action T) : M unit :=
  fun lc => (Ret tt,
             mkLC (connClosed lc) (world lc) (serverClientNil lc) (CloseCh lc)
                  (PushCh lc) (grounding lc) (trace lc ++ [a])).

(** Run a collaborator's callback on the state it owns. *)
Definition call {A} (f : U -> A * U) : M A :=
  fun lc =>
    let '(a, u) := f (world lc) in
    (Ret a,
     mkLC (connClosed lc) u (serverClientNil lc) (CloseCh lc)
          (PushCh lc) (grounding lc) (trace lc)).

Definition set_connClosed : M unit :=
  fun lc => (Ret tt,
             mkLC true (world lc) (serverClientNil lc) (CloseCh lc)
                  (PushCh lc) (grounding lc) (trace lc)).

Definition set_grounding (b : bool) : M unit :=
  fun lc => (Ret tt,
             mkLC (connClosed lc) (world lc) (serverClientNil lc) (CloseCh lc)
                  (PushCh lc) b (trace lc)).

Definition set_serverClientNil : M unit :=
  fun lc => (Ret tt,
             mkLC (connClosed lc) (world lc) true (CloseCh lc)
                  (PushCh lc) (grounding lc) (trace lc)).

(** [close(lc.PushCh)] *)
Definition close_PushCh : M unit :=
  fun lc =>
    match close (PushCh lc) with
    | Ret c => (Ret tt,
                mkLC (connClosed lc) (world lc) (serverClientNil lc) (CloseCh lc)
                     c (grounding lc) (trace lc))
    | Panic msg => (Panic msg, lc)
    end.

(** [close(lc.CloseCh)] *)
Definition close_CloseCh : M unit :=
  fun lc =>
    match close (CloseCh lc) with
    | Ret c => (Ret tt,
                mkLC (connClosed lc) (world lc) (serverClientNil lc) c
                     (PushCh lc) (grounding lc) (trace lc))
    | Panic msg => (Panic msg, lc)
    end.
End Core.

Arguments mkLC {T U}.
Arguments connClosed {T U} l.
Arguments world {T U} l.
Arguments serverClientNil {T U} l.
Arguments CloseCh {T U} l.
Arguments PushCh {T U} l.
Arguments grounding {T U} l.
Arguments trace {T U} l.
Arguments ret {T U A} a.
Arguments bind {T U A B} m k.
Arguments log {T U} a.
Arguments call {T U A} f.
Arguments set_connClosed {T U}.
Arguments set_grounding {T U} b.
Arguments set_serverClientNil {T U}.
Arguments close_PushCh {T U}.
Arguments close_CloseCh {T U}.

Declare Scope go_scope.
Delimit Scope go_scope with go.
Notation "x <- m ;; k" := (bind m (fun x => k))
  (at level 61, m at next level, right associativity) : go_scope.
Notation "' p <- m ;; k" := (bind m (fun x => let p := x in k))
  (at level 61, p pattern, m at next level, right associativity) : go_scope.
Notation "m ;; k" := (bind m (fun _ => k))
  (at level 61, right associativity) : go_scope.
Local Open Scope go_scope.

(** [type ServerClient interface], for a [HandleCmd] returning an [R].
    [Read] is absent: it runs in the goroutine of [lc.read], and what it
    returns reaches the arbitration loop as the [readWrap] received from
    [readCh]. *)
Record ServerClient (T U R : Type) := mkServerClient {
  Write : iface T -> U -> bool * U;
  HandleCmd : iface T -> U -> R * U;
  Closing : U -> U
}.
Arguments mkServerClient {T U R} Write HandleCmd Closing.
Arguments Write {T U R} s it u.
Arguments HandleCmd {T U R} s cmd u.
Arguments Closing {T U R} s u.

(** Where the goroutine running [ListenerConn.spin] stands. *)
Inductive pc :=
| Spawned                      (* [go lc.spin()] done, nothing run yet *)
| Selecting (needsRead : bool) (* blocked in the [select] of spinloop *)
| Closing_                     (* left spinloop, no statement after it run yet *)
| Closed_                      (* [spin] has returned *)
| Crashed (msg : string)       (* the program died of a panic *)
| Tearing (done : nat).        (* [done] of the statements after spinloop have run *)

(** The [select] case that fires, a run of the goroutine between two
    places where other goroutines get in, or another goroutine's
    operation on the channels of the session.  The goroutines of
    [lc.read] appear by what they send on [readCh]; their own statements
    are not steps of the session. *)
Inductive event (T : Type) :=
| Begin                        (* the spin goroutine starts running *)
| SelectRead (rw : readWrap T) (* case rw := <-readCh *)
| SelectPush (it : iface T)    (* case item := <-lc.PushCh *)
| SelectClose                  (* case <-lc.CloseCh *)
| Teardown                     (* all the statements after spinloop, nothing in between *)
| ExtClose                     (* some goroutine calls lc.Close() *)
| TeardownStmt                 (* the next one of the statements after spinloop *)
| ExtSend (it : iface T).      (* some goroutine sends on lc.PushCh, the select of
                                  spinloop not being the receiver *)
Arguments Begin {T}.
Arguments SelectRead {T} rw.
Arguments SelectPush {T} it.
Arguments SelectClose {T}.
Arguments Teardown {T}.
Arguments ExtClose {T}.
Arguments TeardownStmt {T}.
Arguments ExtSend {T} it.

Definition send_on_closed_channel : string := "send on closed channel".

Section Session.
Context {T U R : Type}.
Variable sc : ServerClient T U R.
Variable io : Stream U.

(** The [ListenerConn] literal of [Listener.spin]. *)
Definition fresh (u : U) : ListenerConn T U :=
  mkLC false u false Open Open false [].

(** [ListenerConn.write] *)
Definition write (it : iface T) : M T U bool :=
  log (CallWrite it) ;;
  die <- call (Write sc it) ;;
  if die : bool then ret die else
  log CallFlush ;;
  e <- call (Flush io) ;;
  if negb (is_nil e) then ret true else
  ret false.

(** [lc.serverClient.HandleCmd(cmd)] *)
Definition handle (c : iface T) : M T U R :=
  log (CallHandleCmd c) ;; call (HandleCmd sc c).

(** [ListenerConn.groundPushCh], started with [go]: from then on, and
    until [done] is closed, somebody receives from [lc.PushCh]. *)
Definition go_groundPushCh : M T U unit :=
  log GoGroundPushCh ;; set_grounding true.

(** [close(doneClosing)] makes [groundPushCh] return. *)
Definition close_doneClosing : M T U unit :=
  log CloseDoneClosing ;; set_grounding false.

(** The statements of [spin] after spinloop, one by one; [nilClient]
    tells whether the revision ends with [lc.serverClient = nil]. *)
Definition teardown_stmts (nilClient : bool) : list (M T U unit) :=
  [ (* doneClosing := make(chan struct{}); go lc.groundPushCh(doneClosing) *)
    go_groundPushCh;
    (* lc.serverClient.Closing() *)
    log CallClosing ;; call (fun u => (tt, Closing sc u));
    (* lc.conn.Close() *)
    log CloseConn ;; call (fun u => (tt, conn_Close io u)) ;; set_connClosed;
    (* close(doneClosing) *)
    close_doneClosing;
    (* close(lc.PushCh) *)
    log ClosePushCh ;; close_PushCh;
    (* close(lc.CloseCh) *)
    log CloseCloseCh ;; close_CloseCh ]
  ++ (if nilClient then [ (* lc.serverClient = nil *) set_serverClientNil ] else []).

(** Statements run one after the other. *)
Fixpoint sequence (ms : list (M T U unit)) : M T U unit :=
  match ms with
  | [] => ret tt
  | m :: ms' => m ;; sequence ms'
  end.

(** The statements of [spin] after spinloop, run in one go. *)
Definition teardown (nilClient : bool) : M T U unit :=
  sequence (teardown_stmts nilClient).

(** [ListenerConn.Close] *)
Definition Close : M T U unit := close_CloseCh.

(** Top of spinloop: [if needsRead { go lc.read(readCh); needsRead = false }] *)
Definition loop_head (needsRead : bool) : M T U bool :=
  if needsRead then log GoRead ;; ret false else ret needsRead.

(** The body of [case rw := <-readCh], which differs between the two
    revisions: it returns [true] for [break spinloop]. *)
Variable on_read : readWrap T -> M T U bool.
Variable nilClient : bool.

(** The body of the [select] case that fired; the result pairs
    "break spinloop" with the new [needsRead]. *)
Definition select_case (needsRead : bool) (e : event T) : M T U (bool * bool) :=
  match e with
  | SelectRead rw =>
      (* needsRead = true *)
      brk <- on_read rw ;; ret (brk, true)
  | SelectPush it =>
      die <- write it ;;
      if die : bool then ret (true, needsRead) else ret (false, needsRead)
  | _ (* SelectClose *) => ret (true, needsRead)
  end.

(** A [select] case and the run of the goroutine up to the next
    [select] or out of the loop. *)
Definition turn (needsRead : bool) (e : event T) : M T U pc :=
  '(brk, needsRead') <- select_case needsRead e ;;
  if brk : bool then ret Closing_ else
  needsRead'' <- loop_head needsRead' ;;
  ret (Selecting needsRead'').

(** [case <-lc.CloseCh] can fire only once the channel is closed
    (nothing is ever sent on it); a value can be received from
    [lc.PushCh] only while it is open. *)
Definition enabled (lc : ListenerConn T U) (e : event T) : bool :=
  match e with
  | SelectClose => chan_eqb (CloseCh lc) Closed
  | SelectPush _ => chan_eqb (PushCh lc) Open
  | _ => true
  end.

Definition finish {A} (next : A -> pc) (r : outcome A * ListenerConn T U)
  : pc * ListenerConn T U :=
  match r with
  | (Ret a, lc) => (next a, lc)
  | (Panic msg, lc) => (Crashed msg, lc)
  end.

(** The statement after spinloop that comes after [done] of them, and
    where the goroutine stands once it has run. *)
Definition teardown_next (done : nat) (lc : ListenerConn T U)
  : option (pc * ListenerConn T U) :=
  match nth_error (teardown_stmts nilClient) done with
  | Some m =>
      Some (finish (fun _ => if (S done <? List.length (teardown_stmts nilClient))%nat
                             then Tearing (S done) else Closed_)
                   (m lc))
  | None => None
  end.

(** A send on [lc.PushCh] by another goroutine while the select of
    spinloop is not the one to receive it: on the closed channel it panics;
    while [groundPushCh] runs, that goroutine receives the item and drops
    it; otherwise the sender waits. *)
Definition send (p : pc) (lc : ListenerConn T U) : option (pc * ListenerConn T U) :=
  match PushCh lc with
  | Closed => Some (Crashed send_on_closed_channel, lc)
  | Open => if grounding lc then Some (p, lc) else None
  end.

(** One step of the session: [None] when the event cannot happen in
    that state.  The statements after spinloop run either in one go
    ([Teardown]) or one at a time ([TeardownStmt]), with the calls of
    other goroutines in between. *)
Definition step (s : pc * ListenerConn T U) (e : event T) : option (pc * ListenerConn T U) :=
  let '(p, lc) := s in
  match p, e with
  | Crashed _, _ => None
  | p, ExtClose => Some (finish (fun _ => p) (Close lc))
  | p, ExtSend _ => send p lc
  | Spawned, Begin =>
      (* readCh := make(chan *readWrap); needsRead := true *)
      Some (finish Selecting (loop_head true lc))
  | Selecting needsRead, (SelectRead _ | SelectPush _ | SelectClose) =>
      if enabled lc e then Some (finish (fun p' => p') (turn needsRead e lc))
      else None
  | Closing_, Teardown => Some (finish (fun _ => Closed_) (teardown nilClient lc))
  | Closing_, TeardownStmt => teardown_next 0 lc
  | Tearing done, TeardownStmt => teardown_next done lc
  | _, _ => None
  end.

Fixpoint run (s : pc * ListenerConn T U) (es : list (event T)) : option (pc * ListenerConn T U) :=
  match es with
  | [] => Some s
  | e :: es' =>
      match step s e with
      | Some s' => run s' es'
      | None => None
      end
  end.
End Session.

(** [frame lc lc' tl]: running from [lc] to [lc'] appended [tl] to the
    trace and left the channels, the stream flag and the goroutines alone. *)
Definition frame {T U} (lc lc' : ListenerConn T U) (tl : list (action T)) : Prop :=
  trace lc' = trace lc ++ tl /\
  CloseCh lc' = CloseCh lc /\ PushCh lc' = PushCh lc /\
  connClosed lc' = connClosed lc /\ grounding lc' = grounding lc /\
  serverClientNil lc' = serverClientNil lc.

Definition no_teardown {T} (tr : list (action T)) : Prop :=
  Forall (fun a => is_teardown a = false) tr.

(** A body of the read case that returns, and only logs calls. *)
Definition quiet_body {T U} (on_read : readWrap T -> M T U bool) : Prop :=
  forall rw lc, exists r lc' tl,
    on_read rw lc = (Ret r, lc') /\ frame lc lc' tl /\ no_teardown tl.

(** How many of the [n] statements after spinloop have run, by the place
    of the goroutine; a program that died may have died anywhere. *)
Definition stage (n : nat) (p : pc) (k : nat) : Prop :=
  match p with
  | Spawned | Selecting _ | Closing_ => k = 0%nat
  | Tearing done => k = done /\ (1 <= done < n)%nat
  | Closed_ => k = n
  | Crashed _ => (k <= n)%nat
  end.

(** The session once the first [k] statements after spinloop have run:
    they are the last thing in the trace, in the order of the source, and
    none of them occurs before; [groundPushCh] runs from the first to the
    fourth; the stream is closed from the third on, [PushCh] from the
    fifth on, [CloseCh] after the sixth (if not by [Close] before), and
    [serverClient] is [nil] after the seventh. *)
Definition torn {T U} (k : nat) (lc : ListenerConn T U) : Prop :=
  (exists pre, trace lc = pre ++ firstn k teardown_actions /\ no_teardown pre) /\
  grounding lc = ((1 <=? k) && (k <? 4))%nat%bool /\
  connClosed lc = (3 <=? k)%nat /\
  PushCh lc = (if (5 <=? k)%nat then Closed else Open) /\
  ((6 <=? k)%nat = true -> CloseCh lc = Closed) /\
  serverClientNil lc = (7 <=? k)%nat.

(** The number of statements after spinloop: seven in the revision that
    ends with [lc.serverClient = nil], six in the other. *)
Definition stmts (nilClient : bool) : nat := if nilClient then 7%nat else 6%nat.

(** What holds of a session at every moment. *)
Definition teardown_state {T U} (nilClient : bool) (s : pc * ListenerConn T U) : Prop :=
  exists k, stage (stmts nilClient) (fst s) k /\ torn k (snd s).

(** *** The server, revision with [HandleCmd(interface{}) (interface{}, bool, bool)] *)
Module A.
Section Spin.
Context {T U : Type}.
Variable sc : ServerClient T U (iface T * bool * bool).
Variable io : Stream U.

(** [case rw := <-readCh] of [ListenerConn.spin] *)
Definition on_read (rw : readWrap T) : M T U bool :=
  if die rw then ret true else
  (* var dieCmd, dieWrite bool *)
  '(res, sendback, dieCmd) <- handle sc (item rw) ;;
  dieWrite <- (if sendback : bool then write sc io res else ret false) ;;
  if (dieCmd || dieWrite)%bool then ret true else
  ret false.

Definition spin_step := step sc io on_read true.
(** [ListenerConn.spin] under a schedule of events *)
Definition spin := run sc io on_read true.
End Spin.
End A.

(** *** The server, revision with [HandleCmd(interface{}) (interface{}, bool)] *)
Module B.
Section Spin.
Context {T U : Type}.
Variable sc : ServerClient T U (iface T * bool).
Variable io : Stream U.

(** [case rw := <-readCh] of [ListenerConn.spin] *)
Definition on_read (rw : readWrap T) : M T U bool :=
  if die rw then ret true else
  '(res, die) <- handle sc (item rw) ;;
  if die : bool then
    (if negb (is_nil res) then write sc io res ;; ret tt else ret tt) ;;
    ret true
  else
  die <- write sc io res ;;
  if die : bool then ret true else
  ret false.

Definition spin_step := step sc io on_read false.
(** [ListenerConn.spin] under a schedule of events *)
Definition spin := run sc io on_read false.
End Spin.
End B.

End Server.

(** ** Client side: [Conn] *)

Module Client.

(** [type Client interface].  [Read] is absent: it runs inside the read
    loop, blocked on the stream, and what it returns reaches the model as a
    [ReadReturns] event. *)
Record Client (T U : Type) := mkClient {
  IsPush : iface T -> bool;
  Write : iface T -> U -> (error * bool) * U
}.
Arguments mkClient {T U} IsPush Write.
Arguments IsPush {T U} c it.
Arguments Write {T U} c it u.

(** Where the goroutine running [Conn.spin] stands. *)
Inductive spin_pc (T : Type) :=
| AtRead                                   (* in conn.client.Read *)
| AtSelect (rw : readWrap T) (deadline : Z) (* in the select on readCh and time.After *)
| AtPush (it : iface T)                    (* in conn.PushCh <- item *)
| Leaving                                  (* out of the loop, before conn.conn.Close() *)
| Exited                                   (* spin has returned *)
| Died (msg : string).                     (* spin panicked *)
Arguments AtRead {T}.
Arguments AtSelect {T} rw deadline.
Arguments AtPush {T} it.
Arguments Leaving {T}.
Arguments Exited {T}.
Arguments Died {T} msg.

(** Where the single caller of [Cmd] stands: not in a call, or blocked in
    the receive from [conn.readCh] of a [Cmd] that began at [since]. *)
Inductive cmd_pc :=
| Idle
| AtRecv (since : Z).

(** What [cmd] does: return three values, or reach its receive. *)
Inductive cmd_result (T : Type) :=
| Returned (it : iface T) (e : error) (closed : bool)
| Receiving.
Arguments Returned {T} it e closed.
Arguments Receiving {T}.

(** History of a session.  [n] numbers the results of [Read] from 0. *)
Inductive obs (T : Type) :=
| Decoded (n : nat) (rw : readWrap T) (t : Z)   (* Read returned rw at t *)
| Offered (n : nat) (rw : readWrap T) (t : Z)   (* the select began at t *)
| HandedOff (n : nat) (rw : readWrap T) (t since : Z)
    (* at t the Cmd begun at [since] received rw from readCh *)
| Discarded (n : nat) (rw : readWrap T) (t : Z) (* time.After fired at t *)
| Pushed (n : nat) (it : iface T) (t : Z)       (* conn.PushCh <- item began *)
| PushTaken (it : iface T) (t : Z)              (* the application received it *)
| CmdReturns (it : iface T) (e : error) (closed : bool) (t : Z)
| CmdBgReturns (e : error) (closed : bool) (t : Z).
Arguments Decoded {T} n rw t.
Arguments Offered {T} n rw t.
Arguments HandedOff {T} n rw t since.
Arguments Discarded {T} n rw t.
Arguments Pushed {T} n it t.
Arguments PushTaken {T} it t.
Arguments CmdReturns {T} it e closed t.
Arguments CmdBgReturns {T} e closed t.

(** What can happen to a session. *)
Inductive event (T : Type) :=
| Tick (d : Z)                  (* d nanoseconds pass *)
| ReadReturns (rw : readWrap T) (* conn.client.Read returns *)
| Handoff                       (* send and receive on readCh meet *)
| Timeout                       (* the channel of time.After delivers *)
| PushReceived                  (* the application receives from PushCh *)
| SpinExit                      (* spin runs its statements after the loop *)
| CallCmd (cmd : iface T)       (* the application calls conn.Cmd *)
| CallCmdBg (cmd : iface T)     (* the application calls conn.CmdBg *)
| CallClose.                    (* the application calls conn.Close *)
Arguments Tick {T} d.
Arguments ReadReturns {T} rw.
Arguments Handoff {T}.
Arguments Timeout {T}.
Arguments PushReceived {T}.
Arguments SpinExit {T}.
Arguments CallCmd {T} cmd.
Arguments CallCmdBg {T} cmd.
Arguments CallClose {T}.

Section Conn.
Variables T U : Type.

(** [type Conn struct] with the two goroutines that use it.  [world]
    stands for [buf.Writer] and the stream under it, [connClosed] for
    [conn]; [readCh] carries no state of its own, being unbuffered and
    never closed. *)
Record Conn := mkConn {
  now : Z;
  loop : spin_pc T;
  caller : cmd_pc;
  world : U;
  connClosed : bool;
  PushCh : chan;
  nread : nat;
  history : list (obs T)
}.
End Conn.
Arguments mkConn {T U}.
Arguments now {T U} c.
Arguments loop {T U} c.
Arguments caller {T U} c.
Arguments world {T U} c.
Arguments connClosed {T U} c.
Arguments PushCh {T U} c.
Arguments nread {T U} c.
Arguments history {T U} c.

Section Session.
Context {T U : Type}.
Variable client : Client T U.
Variable io : Stream U.

(** [Dial]: the [Conn] literal, at time [t0], with [spin] started. *)
Definition Dial (t0 : Z) (u : U) : Conn T U :=
  mkConn t0 AtRead Idle u false Open 0 [].

(** [Conn.cmd] up to its receive from [conn.readCh]. *)
Definition cmd (c : iface T) (bg : bool) (u : U) : cmd_result T * U :=
  let '((err, die), u) := Write client c u in
  if negb (is_nil err) then (Returned None err die, u) else
  if bg then (Returned None None false, u) else
  let '(err, u) := Flush io u in
  if negb (is_nil err) then (Returned None err true, u) else
  (Receiving, u).

(** [Conn.Cmd] up to its receive. *)
Definition Cmd (c : iface T) (u : U) : cmd_result T * U := cmd c false u.

(** [Conn.CmdBg]: [_, err, die := conn.cmd(cmd, true); return err, die].
    With [bg] set, [cmd] never reaches its receive. *)
Definition CmdBg (c : iface T) (u : U) : option (error * bool) * U :=
  match cmd c true u with
  | (Returned _ err die, u) => (Some (err, die), u)
  | (Receiving, u) => (None, u)
  end.

(** The wait of the select in [spin]: [time.After(2 * time.Second)]. *)
Definition handoff_wait : Z := 2 * Second.

(** The test of [spin] on what [Read] returned:
    [err != nil || !conn.client.IsPush(item)]. *)
Definition to_readCh (rw : readWrap T) : bool :=
  (negb (is_nil (err rw)) || negb (IsPush client (item rw)))%bool.

(** [spin] from the return of [Read] to its next blocking statement. *)
Definition spin_after_Read (t : Z) (rw : readWrap T) : spin_pc T :=
  if to_readCh rw
  then AtSelect rw (t + handoff_wait)
  else AtPush (item rw).

(** [spin] from the end of its select: [if die { break }]. *)
Definition spin_after_select (rw : readWrap T) : spin_pc T :=
  if die rw then Leaving else AtRead.

(** [spin] after the loop: [conn.conn.Close(); close(conn.PushCh)]. *)
Definition spin_exit (u : U) (ch : chan) : spin_pc T * U * chan :=
  let u := conn_Close io u in
  match close ch with
  | Ret ch' => (Exited, u, ch')
  | Panic msg => (Died msg, u, ch)
  end.

(** One step of the session: [None] when the event cannot happen in
    that state.  The clock only moves forward.  How long after it is due
    the timer of [time.After] delivers, and how long two goroutines ready
    to meet on [readCh] take to do so, is up to the schedule: [Tick] is
    possible in every state, [Timeout] once the two seconds have passed. *)
Definition step (s : Conn T U) (e : event T) : option (Conn T U) :=
  match e with
  | Tick d =>
      if 0 <=? d then
        Some (mkConn (now s + d) (loop s) (caller s) (world s)
                     (connClosed s) (PushCh s) (nread s) (history s))
      else None
  | ReadReturns rw =>
      match loop s with
      | AtRead =>
          let p := spin_after_Read (now s) rw in
          let o := match p with
                   | AtPush it => Pushed (nread s) it (now s)
                   | _ => Offered (nread s) rw (now s)
                   end in
          Some (mkConn (now s) p (caller s) (world s) (connClosed s) (PushCh s)
                       (S (nread s))
                       (history s ++ [Decoded (nread s) rw (now s); o]))
      | _ => None
      end
  | Handoff =>
      match loop s, caller s with
      | AtSelect rw _, AtRecv since =>
          (* case rw := <-conn.readCh: return rw.item, rw.err, rw.die *)
          Some (mkConn (now s) (spin_after_select rw) Idle (world s)
                       (connClosed s) (PushCh s) (nread s)
                       (history s ++ [HandedOff (pred (nread s)) rw (now s) since;
                                      CmdReturns (item rw) (err rw) (die rw) (now s)]))
      | _, _ => None
      end
  | Timeout =>
      match loop s with
      | AtSelect rw deadline =>
          if deadline <=? now s then
            Some (mkConn (now s) (spin_after_select rw) (caller s) (world s)
                         (connClosed s) (PushCh s) (nread s)
                         (history s ++ [Discarded (pred (nread s)) rw (now s)]))
          else None
      | _ => None
      end
  | PushReceived =>
      match loop s with
      | AtPush it =>
          Some (mkConn (now s) AtRead (caller s) (world s) (connClosed s)
                       (PushCh s) (nread s)
                       (history s ++ [PushTaken it (now s)]))
      | _ => None
      end
  | CallCmd c =>
      match caller s with
      | Idle =>
          match Cmd c (world s) with
          | (Returned it e cl, u) =>
              Some (mkConn (now s) (loop s) Idle u (connClosed s) (PushCh s)
                           (nread s) (history s ++ [CmdReturns it e cl (now s)]))
          | (Receiving, u) =>
              Some (mkConn (now s) (loop s) (AtRecv (now s)) u (connClosed s)
                           (PushCh s) (nread s) (history s))
          end
      | AtRecv _ => None
      end
  | CallCmdBg c =>
      match caller s with
      | Idle =>
          match CmdBg c (world s) with
          | (Some (e, cl), u) =>
              Some (mkConn (now s) (loop s) Idle u (connClosed s) (PushCh s)
                           (nread s) (history s ++ [CmdBgReturns e cl (now s)]))
          | (None, u) => None
          end
      | AtRecv _ => None
      end
  | SpinExit =>
      match loop s with
      | Leaving =>
          let '(p, u, ch) := spin_exit (world s) (PushCh s) in
          Some (mkConn (now s) p (caller s) u true ch (nread s) (history s))
      | _ => None
      end
  | CallClose =>
      (* func (conn *Conn) Close() error { return conn.conn.Close() } *)
      Some (mkConn (now s) (loop s) (caller s) (conn_Close io (world s)) true
                   (PushCh s) (nread s) (history s))
  end.

Fixpoint run (s : Conn T U) (es : list (event T)) : option (Conn T U) :=
  match es with
  | [] => Some s
  | e :: es' =>
      match step s e with
      | Some s' => run s' es'
      | None => None
      end
  end.
End Session.

(** Projections of a history. *)
Section History.
Context {T : Type}.

Definition decodes (h : list (obs T)) : list (nat * readWrap T) :=
  flat_map (fun o => match o with Decoded n rw _ => [(n, rw)] | _ => [] end) h.

Definition offers (h : list (obs T)) : list (nat * readWrap T) :=
  flat_map (fun o => match o with Offered n rw _ => [(n, rw)] | _ => [] end) h.

Definition pushes (h : list (obs T)) : list (nat * iface T) :=
  flat_map (fun o => match o with Pushed n it _ => [(n, it)] | _ => [] end) h.

(** What [Cmd] calls have returned, in order. *)
Definition cmd_returns (h : list (obs T)) : list (iface T * error * bool) :=
  flat_map (fun o => match o with CmdReturns it e cl _ => [(it, e, cl)] | _ => [] end) h.


(** What [Read] returned in the course of a schedule, in order. *)
Definition reads (es : list (event T)) : list (readWrap T) :=
  flat_map (fun e => match e with ReadReturns rw => [rw] | _ => [] end) es.

(** Results of [Read] numbered from [k] in the order returned. *)
Definition numbered (k : nat) (rs : list (readWrap T)) : list (nat * readWrap T) :=
  combine (seq k (List.length rs)) rs.
End History.

(** ** Invariants of a client session *)
Section Invariants.
Context {T U : Type}.
Variable client : Client T U.

(** Every result of [Read] is numbered in order and went down one path:
    the offers on [readCh] are the results that pass the test of [spin],
    the sends on [PushCh] the items of those that do not. *)
Definition routed (s : Conn T U) : Prop :=
  let h := history s in
  map fst (decodes h) = seq 0 (nread s) /\
  offers h = filter (fun p => to_readCh client (snd p)) (decodes h) /\
  pushes h = map (fun p => (fst p, item (snd p)))
                 (filter (fun p => negb (to_readCh client (snd p))) (decodes h)).




(** The read loop is over: [spin] has left its [for]. *)
Definition loop_over (s : Conn T U) : Prop :=
  loop s = Leaving \/ loop s = Exited \/ exists msg, loop s = Died msg.
End Invariants.

(** Steps other than the return of [Read] add nothing to the three
    projections. *)
Definition silent {T} (o : obs T) : Prop :=
  match o with
  | Decoded _ _ _ | Offered _ _ _ | Pushed _ _ _ => False
  | _ => True
  end.

(** A step that adds to the history nothing the select is concerned with,
    and leaves clock, numbering and the place of [spin] alone. *)
Definition untimed {T} (o : obs T) : Prop :=
  match o with
  | Offered _ _ _ | HandedOff _ _ _ _ | Discarded _ _ _ => False
  | _ => True
  end.

End Client.

(** ** The collaborators of the example program

    [ExClient] and [ExServerClient] speak lines of bytes over a
    [bufio.Writer] on a TCP stream.  Their type assertions [item.([]byte)]
    panic on a [nil] item in Go, and [l[0]] in [IsPush] panics on an empty
    one; the callbacks below are total and stand for the Go methods on the
    items on which those return.  The statements about them are about such
    items only. *)

Module Example.

Definition LF : string := String (Ascii.ascii_of_nat 10) EmptyString.

Definition is_empty (s : string) : bool :=
  match s with
  | EmptyString => true
  | String _ _ => false
  end.

(** A [bufio.Writer] over a [net.Conn]: the bytes buffered, the bytes
    written to the stream, whether the stream was closed, and the sticky
    error of the writer. *)
Record Wire := mkWire {
  buffered : string;
  sent : string;
  closed : bool;
  werr : error
}.

Definition wire0 : Wire := mkWire "" "" false None.

Definition use_of_closed : string := "use of closed network connection".

(** The size of the buffer that [bufio.NewWriter] allocates. *)
Definition buf_size : Z := 4096.

(** [len(p)] *)
Definition len (p : string) : Z := Z.of_nat (String.length p).

(** [b.Available()]: the room left in the buffer. *)
Definition Available (w : Wire) : Z := buf_size - len (buffered w).

(** [p[:n]] and [p[n:]], for [n] no more than [len(p)]. *)
Fixpoint split_at (n : nat) (p : string) : string * string :=
  match n, p with
  | S n', String c p' => let '(a, b) := split_at n' p' in (String c a, b)
  | _, _ => (EmptyString, p)
  end.

(** [copy(b.buf[b.n:], p); b.n += n] for a [p] that fits. *)
Definition buf_copy (p : string) (w : Wire) : Wire :=
  mkWire (buffered w ++ p) (sent w) (closed w) (werr w).

(** [b.wr.Write(p)] as [bufio.Writer] calls it on the [net.Conn]: the
    bytes go to the stream, or, once it is closed, none does and the error
    sticks to the writer. *)
Definition conn_Write (p : string) (w : Wire) : Wire :=
  if closed w then mkWire (buffered w) (sent w) (closed w) (Some use_of_closed)
  else mkWire (buffered w) (sent w ++ p) (closed w) (werr w).

(** [bufio.Writer.Flush]: nothing to do on an empty buffer; otherwise
    the buffer goes to the stream, which refuses it once closed. *)
Definition buf_Flush (w : Wire) : error * Wire :=
  if negb (is_nil (werr w)) then (werr w, w) else
  if is_empty (buffered w) then (None, w) else
  if closed w then
    (Some use_of_closed, mkWire (buffered w) (sent w) (closed w) (Some use_of_closed))
  else (None, mkWire "" (sent w ++ buffered w) (closed w) (werr w)).

(** [bufio.Writer.Write]:
    [for len(p) > b.Available() && b.err == nil {
       if b.Buffered() == 0 { n, b.err = b.wr.Write(p) }
       else { n = copy(b.buf[b.n:], p); b.n += n; b.Flush() }
       p = p[n:] }
     if b.err != nil { return nn, b.err }
     n := copy(b.buf[b.n:], p); b.n += n; return nn, nil]
    [turns] bounds the turns of the loop: it fills and flushes the buffer
    at most once, and then writes what is left straight to the stream at
    most once, so two are enough. *)
Fixpoint buf_Write_loop (turns : nat) (p : string) (w : Wire) : error * Wire :=
  if negb (is_nil (werr w)) then (werr w, w) else
  if len p <=? Available w then (None, buf_copy p w) else
  match turns with
  | O => (None, w)
  | S turns' =>
      if is_empty (buffered w) then
        (* large write, empty buffer *)
        buf_Write_loop turns' EmptyString (conn_Write p w)
      else
        let '(p1, p2) := split_at (Z.to_nat (Available w)) p in
        buf_Write_loop turns' p2 (snd (buf_Flush (buf_copy p1 w)))
  end.

Definition buf_Write (p : string) (w : Wire) : error * Wire :=
  buf_Write_loop 2 p w.

(** [net.Conn.Close] *)
Definition net_Close (w : Wire) : Wire :=
  mkWire (buffered w) (sent w) true (werr w).

Definition tcp : Stream Wire := mkStream buf_Flush net_Close.

(** [item.([]byte)] on an item that holds bytes. *)
Definition bytes_of (it : iface string) : string :=
  match it with
  | Some b => b
  | None => ""
  end.

(** [func (_ ExClient) IsPush]: [l[0] != '~'], on an item that is not
    empty. *)
Definition ExClient_IsPush (li : iface string) : bool :=
  match bytes_of li with
  | String c _ => negb (Ascii.eqb c "~"%char)
  | EmptyString => true
  end.

(** [func (_ ExClient) Write] *)
Definition ExClient_Write (it : iface string) (w : Wire) : (error * bool) * Wire :=
  let '(e, w) := buf_Write (bytes_of it) w in
  if negb (is_nil e) then ((e, true), w) else
  let '(e, w) := buf_Write LF w in
  if negb (is_nil e) then ((e, true), w) else
  ((None, false), w).

Definition ExClient : Client.Client string Wire :=
  Client.mkClient ExClient_IsPush ExClient_Write.

(** [func (_ ExServerClient) Write] *)
Definition ExServerClient_Write (it : iface string) (w : Wire) : bool * Wire :=
  let '(e, w) := buf_Write (bytes_of it) w in
  if negb (is_nil e) then (true, w) else
  let '(e, w) := buf_Write LF w in
  if negb (is_nil e) then (true, w) else
  (false, w).

(** [func (_ ExServerClient) HandleCmd]: the command behind a tilde,
    to be sent, without closing. *)
Definition ExServerClient_HandleCmd (c : iface string) (w : Wire)
  : (iface string * bool * bool) * Wire :=
  let cmdB := bytes_of c in
  let res := ("~" ++ cmdB)%string in
  ((Some res, true, false), w).

(** [func (_ ExServerClient) Closing] only logs. *)
Definition ExServerClient_Closing (w : Wire) : Wire := w.

Definition ExServerClient : Server.ServerClient string Wire (iface string * bool * bool) :=
  Server.mkServerClient ExServerClient_Write ExServerClient_HandleCmd ExServerClient_Closing.

(** A [Client] whose [Write] follows the interface's comment to the
    letter: an error from marshalling (here, of a [nil] item) comes with
    [false], an error from writing with [true]. *)
Definition cannot_marshal : string := "cannot marshal nil".

Definition Marshalling_Write (it : iface string) (w : Wire) : (error * bool) * Wire :=
  match it with
  | None => ((Some cannot_marshal, false), w)
  | Some _ => ExClient_Write it w
  end.

Definition MarshallingClient : Client.Client string Wire :=
  Client.mkClient ExClient_IsPush Marshalling_Write.

(** A [ServerClient] of the two-result revision that answers the
    command [PING] with [PONG], closes on [QUIT] after a last [BYE], and
    has no response to anything else. *)
Definition Quiet_HandleCmd (c : iface string) (w : Wire) : (iface string * bool) * Wire :=
  if String.eqb (bytes_of c) "PING" then ((Some "PONG"%string, false), w) else
  if String.eqb (bytes_of c) "QUIT" then ((Some "BYE"%string, true), w) else
  ((None, false), w).

(** Its [Write] sends a line, and nothing for a [nil] item. *)
Definition Quiet_Write (it : iface string) (w : Wire) : bool * Wire :=
  match it with
  | None => (false, w)
  | Some _ => ExServerClient_Write it w
  end.

Definition QuietServerClient : Server.ServerClient string Wire (iface string * bool) :=
  Server.mkServerClient Quiet_Write Quiet_HandleCmd ExServerClient_Closing.

(** The error of [Read] at the end of the stream. *)
Definition EOF : readWrap string := mkReadWrap None (Some "EOF"%string) true.

End Example.

(** ** The reading side of the example collaborators

    A reader is the string of bytes that arrive on the stream before the
    peer closes it. *)

Module Lines.
Import Example.

Definition LFc : ascii := Ascii.ascii_of_nat 10.

Definition io_EOF : string := "EOF".

(** [bufio.Reader.ReadBytes(delim)]: the bytes up to and with the first
    [delim], and what is left to read; at the end of the stream, the bytes
    that were left and [io.EOF]. *)
Fixpoint ReadBytes (delim : ascii) (input : string) : string * error * string :=
  match input with
  | EmptyString => (EmptyString, Some io_EOF, EmptyString)
  | String c rest =>
      if Ascii.eqb c delim then (String c EmptyString, None, rest)
      else
        let '(l, e, r) := ReadBytes delim rest in
        (String c l, e, r)
  end.

(** [bytes.TrimRight(s, cutset)] for a cutset of the one byte [c]: [s]
    without its trailing [c]s. *)
Fixpoint TrimRight (s : string) (c : ascii) : string :=
  match s with
  | EmptyString => EmptyString
  | String a s' =>
      match TrimRight s' c with
      | EmptyString => if Ascii.eqb a c then EmptyString else String a EmptyString
      | String b t => String a (String b t)
      end
  end.

(** [func (_ ExClient) Read] *)
Definition ExClient_Read (input : string) : (iface string * error * bool) * string :=
  let '(l, err, rest) := ReadBytes LFc input in
  if negb (is_nil err) then ((None, err, true), rest) else
  let tl := TrimRight l LFc in
  ((Some tl, None, false), rest).

(** [func (_ ExServerClient) Read] *)
Definition ExServerClient_Read (input : string) : (iface string * bool) * string :=
  let '(l, err, rest) := ReadBytes LFc input in
  if negb (is_nil err) then ((None, true), rest) else
  let tl := TrimRight l LFc in
  ((Some tl, false), rest).

(** [func (_ RawTcp) Read]: the line as [ReadBytes] returned it. *)
Definition RawTcp_Read (input : string) : (iface string * error * bool) * string :=
  let '(l, err, rest) := ReadBytes LFc input in
  if negb (is_nil err) then ((None, err, true), rest) else
  ((Some l, None, false), rest).

(** The [readWrap] that [Conn.spin] makes of the results of [Read]. *)
Definition client_read (input : string) : readWrap string * string :=
  let '((it, e, d), rest) := ExClient_Read input in
  (mkReadWrap it e d, rest).

(** [ListenerConn.read]: [item, die := lc.serverClient.Read(lc.buf.Reader)]
    and the [&readWrap{item, nil, die}] it sends on [readCh]. *)
Definition read (input : string) : readWrap string * string :=
  let '((it, d), rest) := ExServerClient_Read input in
  (mkReadWrap it None d, rest).

(** Whether the byte [c] occurs in [s]. *)
Fixpoint occurs (c : ascii) (s : string) : bool :=
  match s with
  | EmptyString => false
  | String a s' => (Ascii.eqb a c || occurs c s')%bool
  end.

Definition index_out_of_range : string := "index out of range".
Definition nil_not_bytes : string := "interface conversion: interface is nil, not []uint8".

(** [func (_ ExClient) IsPush] and [func (_ RawTcp) IsPush] with the
    panics of Go: [l := li.([]byte)] on a [nil] item, [l[0]] on an empty
    one. *)
Definition IsPush_go (li : iface string) : outcome bool :=
  match li with
  | None => Panic nil_not_bytes
  | Some EmptyString => Panic index_out_of_range
  | Some (String c _) => Ret (negb (Ascii.eqb c "~"%char))
  end.

(** The line that [ExServerClient] puts on the stream for an event of the
    arbitration loop: the answer to a command, or a pushed item. *)
Definition line_of (e : Server.event string) : string :=
  match e with
  | Server.SelectRead rw =>
      if die rw then "" else ("~" ++ bytes_of (item rw) ++ LF)%string
  | Server.SelectPush it => (bytes_of it ++ LF)%string
  | _ => ""
  end.

Fixpoint lines_of (es : list (Server.event string)) : string :=
  match es with
  | [] => ""
  | e :: es' => (line_of e ++ lines_of es')%string
  end.

(** A stream in working order, with nothing left in the buffer. *)
Definition flushed (w : Wire) : Prop :=
  buffered w = EmptyString /\ closed w = false /\ werr w = None.

(** The bytes the writer has been given so far: those on the stream,
    then those still in the buffer. *)
Definition written (w : Wire) : string := (sent w ++ buffered w)%string.

(** An event of the arbitration loop whose item, where a callback of the
    example asserts it to be bytes, holds bytes. *)
Definition holds_bytes (e : Server.event string) : bool :=
  match e with
  | Server.SelectRead rw => (die rw || negb (is_nil (item rw)))%bool
  | Server.SelectPush it => negb (is_nil it)
  | _ => true
  end.

(** The stream of the example server while its session is in working
    order: nothing is left in the buffer, no write has failed, and until
    the teardown the stream is open. *)
Definition wire_ok (s : Server.pc * Server.ListenerConn string Wire) : Prop :=
  buffered (Server.world (snd s)) = EmptyString /\ werr (Server.world (snd s)) = None /\
  match fst s with
  | Server.Spawned | Server.Selecting _ | Server.Closing_ =>
      closed (Server.world (snd s)) = false
  | _ => True
  end.

End Lines.

(** ** The accept loop: [Listener] *)

Module Listener.
Import Server.

(** What [l.listen.Accept()] returns; with an error, whether some
    goroutine is receiving from [l.ErrCh] at that moment. *)
Inductive accepted (U : Type) :=
| AcceptErr (e : string) (receiving : bool)
| AcceptConn (conn : U).
Arguments AcceptErr {U} e receiving.
Arguments AcceptConn {U} conn.

(** What one turn of the accept loop does. *)
Inductive did (T U : Type) :=
| ErrSent (e : string)                 (* case l.ErrCh <- err *)
| ErrDropped (e : string)              (* default *)
| Spun (lc : ListenerConn T U)         (* go lc.spin() *)
| Refused (lc : ListenerConn T U).     (* conn.Close() *)
Arguments ErrSent {T U} e.
Arguments ErrDropped {T U} e.
Arguments Spun {T U} lc.
Arguments Refused {T U} lc.

Section Accept.
Context {T U S : Type}.
Variable io : Stream U.

(** [Server.Connected] on the state [S] of the [Server] value: whether to
    close the connection at once.  The [ServerClient] it returns is the
    one the session is run with. *)
Variable Connected : S -> bool * S.

(** [Listener.err]: a send on [ErrCh] in a select with a default. *)
Definition err (e : string) (receiving : bool) : did T U :=
  if receiving then ErrSent e else ErrDropped e.

(** [conn.Close()] on the stream of a session that is not run. *)
Definition refuse (lc : ListenerConn T U) : ListenerConn T U :=
  mkLC true (conn_Close io (world lc)) (serverClientNil lc) (CloseCh lc)
       (PushCh lc) (grounding lc) (trace lc).

(** [Listener.spin] of the revision whose [Connected] returns a flag,
    over what [Accept] returns. *)
Fixpoint spin (st : S) (accepts : list (accepted U)) : list (did T U) :=
  match accepts with
  | [] => []
  | AcceptErr e receiving :: rest =>
      (* l.err(err); continue *)
      err e receiving :: spin st rest
  | AcceptConn conn :: rest =>
      let lc := @fresh T U conn in
      let '(die, st') := Connected st in
      (if negb die then Spun lc else Refused (refuse lc)) :: spin st' rest
  end.

(** [Listener.spin] of the revision whose [Connected] returns the
    [ServerClient] alone: every connection is run. *)
Fixpoint spinB (accepts : list (accepted U)) : list (did T U) :=
  match accepts with
  | [] => []
  | AcceptErr e receiving :: rest => err e receiving :: spinB rest
  | AcceptConn conn :: rest => Spun (@fresh T U conn) :: spinB rest
  end.
End Accept.

Section Projections.
Context {T U : Type}.

Definition errors (accepts : list (accepted U)) : list (string * bool) :=
  flat_map (fun a => match a with AcceptErr e r => [(e, r)] | _ => [] end) accepts.

Definition conns (accepts : list (accepted U)) : list U :=
  flat_map (fun a => match a with AcceptConn c => [c] | _ => [] end) accepts.

Definition sent_errors (ds : list (did T U)) : list string :=
  flat_map (fun d => match d with ErrSent e => [e] | _ => [] end) ds.

Definition sessions (ds : list (did T U)) : list (bool * ListenerConn T U) :=
  flat_map (fun d => match d with
                     | Spun lc => [(true, lc)]
                     | Refused lc => [(false, lc)]
                     | _ => []
                     end) ds.
End Projections.

End Listener.

(** ** Readings of a server trace and of a schedule *)

Module ServerTrace.
Import Server.

Section Readings.
Context {T : Type}.

(** The commands given to [HandleCmd], in order. *)
Definition handled (tr : list (action T)) : list (iface T) :=
  flat_map (fun a => match a with CallHandleCmd c => [c] | _ => [] end) tr.

(** The goroutines of [lc.read] started. *)
Definition go_reads (tr : list (action T)) : nat :=
  List.length (filter (fun a => match a with GoRead => true | _ => false end) tr).

(** The items of the results received from [readCh] without [die]. *)
Definition commands (es : list (event T)) : list (iface T) :=
  flat_map (fun e => match e with
                     | SelectRead rw => if die rw then [] else [item rw]
                     | _ => []
                     end) es.

(** The results received from [readCh]. *)
Definition reads_received (es : list (event T)) : nat :=
  List.length (filter (fun e => match e with SelectRead _ => true | _ => false end) es).

Definition is_ExtClose (e : event T) : bool :=
  match e with ExtClose => true | _ => false end.

Definition is_SelectClose (e : event T) : bool :=
  match e with SelectClose => true | _ => false end.

Definition is_ExtSend (e : event T) : bool :=
  match e with ExtSend _ => true | _ => false end.
End Readings.

Section Invariants.
Context {T U : Type}.

(** A body of the read case that returns, calls [HandleCmd] on the item
    of a result without [die] and on nothing else, and starts no read. *)
Definition dispatching (on_read : readWrap T -> M T U bool) : Prop :=
  forall rw lc, exists r lc' tl,
    on_read rw lc = (Ret r, lc') /\ frame lc lc' tl /\ no_teardown tl /\
    handled tl = (if die rw then [] else [item rw]) /\ go_reads tl = 0%nat.

(** With [k] results received from [readCh]: in its select the loop has
    one read under way; out of the loop, one or none. *)
Definition one_read (k : nat) (s : pc * ListenerConn T U) : Prop :=
  match fst s with
  | Spawned => go_reads (trace (snd s)) = 0%nat /\ k = 0%nat
  | Selecting needsRead =>
      needsRead = false /\ go_reads (trace (snd s)) = S k
  | _ => (k <= go_reads (trace (snd s)) <= S k)%nat
  end.

(** A session on which [Close] was never called: [CloseCh] is closed
    by the sixth statement after spinloop and by nothing else, and the
    program can have died only of a send on [PushCh] after the fifth has
    closed it - which takes a send: [sends] tells whether any goroutine
    has tried one. *)
Definition calm (sends : bool) (s : pc * ListenerConn T U) : Prop :=
  match fst s with
  | Spawned | Selecting _ | Closing_ => CloseCh (snd s) = Open
  | Tearing done => CloseCh (snd s) = (if (6 <=? done)%nat then Closed else Open)
  | Closed_ => CloseCh (snd s) = Closed
  | Crashed msg =>
      sends = true /\ msg = send_on_closed_channel /\ PushCh (snd s) = Closed
  end.
End Invariants.

(** *** The goroutine of [ListenerConn.read] once [Read] has returned *)

Inductive read_pc (T : Type) :=
| AtSend (rw : readWrap T)  (* in the send on readCh *)
| Returned.                 (* read has returned *)
Arguments AtSend {T} rw.
Arguments Returned {T}.

Inductive read_event :=
| Taken       (* the select of spinloop receives from readCh *)
| SawClose.   (* case <-lc.CloseCh *)

(** One step of [read] beside a session: the first revision sends in a
    select with [case <-lc.CloseCh], the second sends and nothing else.
    Only the select of spinloop receives from [readCh]. *)
Definition read_step {T U} (selects_on_CloseCh : bool)
    (s : pc * ListenerConn T U) (r : read_pc T) (e : read_event) : option (read_pc T) :=
  match r, e with
  | AtSend rw, Taken =>
      match fst s with
      | Selecting _ => Some Returned
      | _ => None
      end
  | AtSend rw, SawClose =>
      if (selects_on_CloseCh && chan_eqb (CloseCh (snd s)) Closed)%bool
      then Some Returned else None
  | Returned, _ => None
  end.

End ServerTrace.

(** ** Readings of a client history *)

Module ClientTrace.
Import Client.

Section Readings.
Context {T U : Type}.
Variable client : Client T U.

(** The results of [Read] whose select has ended, by a handoff or by the
    timer, in order. *)
Definition resolved (h : list (obs T)) : list nat :=
  flat_map (fun o => match o with
                     | HandedOff n _ _ _ | Discarded n _ _ => [n]
                     | _ => []
                     end) h.

(** The result of [Read] that [spin] holds in its select. *)
Definition pending (s : Conn T U) : list nat :=
  match loop s with
  | AtSelect _ _ => [pred (nread s)]
  | _ => []
  end.

(** Every select but the one [spin] is in has ended, in order. *)
Definition resolving (s : Conn T U) : Prop :=
  map fst (offers (history s)) = resolved (history s) ++ pending s.

(** What [Cmd] returned is an error of its own write or flush, or a
    result that [spin] offered on [readCh]. *)
Definition answer_ok (h : list (obs T)) (it : iface T) (e : error) (cl : bool) : Prop :=
  (it = None /\ e <> None) \/
  (exists n rw t, In (Offered n rw t) h /\ it = item rw /\ e = err rw /\ cl = die rw).

(** The course of [spin]: it reads on until a result with [die] has gone
    to [readCh], and closes [PushCh] as it returns. *)
Definition course (s : Conn T U) : Prop :=
  let h := history s in
  (PushCh s = Closed <-> loop s = Exited) /\
  (forall msg, loop s <> Died msg) /\
  (loop s = Exited -> connClosed s = true) /\
  (forall n rw t, In (Offered n rw t) h -> to_readCh client rw = true) /\
  (loop s = AtRead \/ (exists it, loop s = AtPush it) ->
   forall n rw t, In (Offered n rw t) h -> die rw = false) /\
  (forall rw dl, loop s = AtSelect rw dl ->
     (0 < nread s)%nat /\
     (exists t, In (Offered (pred (nread s)) rw t) h) /\
     forall n rw' t, In (Offered n rw' t) h -> die rw' = true ->
                     rw' = rw /\ S n = nread s) /\
  (loop s = Leaving \/ loop s = Exited ->
     (exists rw t, In (Offered (pred (nread s)) rw t) h /\ die rw = true) /\
     forall n rw' t, In (Offered n rw' t) h -> die rw' = true -> S n = nread s) /\
  (forall it e cl t, In (CmdReturns it e cl t) h -> answer_ok h it e cl).
End Readings.

End ClientTrace.

(** * Properties of the server session *)

Module ServerFacts.
Import Server.
Local Open Scope go_scope.

#[local] Arguments write : simpl never.
#[local] Arguments handle : simpl never.
#[local] Arguments teardown : simpl never.

Section Facts.
Context {T U R : Type}.
Variable sc : ServerClient T U R.
Variable io : Stream U.

Lemma frame_refl (lc : ListenerConn T U) : frame lc lc [].
Proof. unfold frame. rewrite app_nil_r. tauto. Qed.

Lemma frame_trans (a b c : ListenerConn T U) t1 t2 :
  frame a b t1 -> frame b c t2 -> frame a c (t1 ++ t2).
Proof.
  unfold frame. intros (H1 & H2 & H3 & H4 & H5 & H6) (G1 & G2 & G3 & G4 & G5 & G6).
  rewrite G1, H1, app_assoc. repeat split; congruence.
Qed.

(** [write] returns, and does nothing but call [Write] and maybe [Flush]. *)
Lemma write_returns (it : iface T) (lc : ListenerConn T U) :
  exists r lc' tl,
    write sc io it lc = (Ret r, lc') /\
    frame lc lc' (CallWrite it :: tl) /\ no_teardown tl.
Proof.
  unfold write, bind, log, call, ret, frame, no_teardown. cbn.
  destruct (Write sc it (world lc)) as [d u]. cbn.
  destruct d; cbn.
  - exists true. eexists. exists []. cbn. repeat split. constructor.
  - destruct (Flush io u) as [e u']. cbn.
    destruct e; cbn; eexists; eexists; exists [CallFlush]; cbn;
      (repeat split; [ rewrite <- app_assoc; reflexivity | repeat constructor ]).
Qed.

Lemma handle_returns (c : iface T) (lc : ListenerConn T U) :
  exists r lc',
    handle sc c lc = (Ret r, lc') /\ frame lc lc' [CallHandleCmd c].
Proof.
  unfold handle, bind, log, call, ret, frame. cbn.
  destruct (HandleCmd sc c (world lc)) as [r u]. cbn.
  eexists; eexists; repeat split.
Qed.

Lemma no_teardown_app (a b : list (action T)) :
  no_teardown a -> no_teardown b -> no_teardown (a ++ b).
Proof. unfold no_teardown. intros. apply Forall_app. tauto. Qed.

Section Loop.
Variable on_read : readWrap T -> M T U bool.
Variable nilClient : bool.
Hypothesis on_read_quiet : quiet_body on_read.

Lemma loop_head_frame (b : bool) (lc : ListenerConn T U) :
  exists b' lc' tl,
    loop_head b lc = (Ret b', lc') /\ frame lc lc' tl /\ no_teardown tl.
Proof.
  destruct b; cbn.
  - exists false. eexists. exists [GoRead]. unfold frame; cbn.
    repeat split. repeat constructor.
  - exists false, lc, []. repeat split; try apply frame_refl. constructor.
Qed.

Lemma turn_frame (b : bool) (e : event T) (lc : ListenerConn T U) :
  exists p lc' tl,
    turn sc io on_read b e lc = (Ret p, lc') /\ frame lc lc' tl /\ no_teardown tl /\
    (p = Closing_ \/ exists b', p = Selecting b').
Proof.
  assert (K : forall brk nr lc1 tl1,
             select_case sc io on_read b e lc = (Ret (brk, nr), lc1) ->
             frame lc lc1 tl1 -> no_teardown tl1 ->
             exists p lc' tl,
               turn sc io on_read b e lc = (Ret p, lc') /\ frame lc lc' tl /\
               no_teardown tl /\ (p = Closing_ \/ exists b', p = Selecting b')).
  { intros brk nr lc1 tl1 E F N. unfold turn, bind. rewrite E.
    destruct brk.
    - exists Closing_, lc1, tl1. cbn. auto.
    - cbn. destruct (loop_head_frame nr lc1) as (b' & lc2 & tl2 & E2 & F2 & N2).
      rewrite E2. exists (Selecting b'), lc2, (tl1 ++ tl2).
      split; [ reflexivity | ].
      split; [ eapply frame_trans; eassumption | ].
      split; [ apply no_teardown_app; assumption | ].
      right. exists b'. reflexivity. }
  destruct e.
  - eapply K with (tl1 := []); [ reflexivity | apply frame_refl | constructor ].
  - destruct (on_read_quiet rw lc) as (r & lc1 & tl1 & E & F & N).
    eapply K; [ | exact F | exact N ].
    cbn. unfold bind. rewrite E. reflexivity.
  - destruct (write_returns it lc) as (r & lc1 & tl1 & E & F & N).
    eapply K; [ | exact F | constructor; [ reflexivity | exact N ] ].
    cbn. unfold bind. rewrite E. destruct r; reflexivity.
  - eapply K with (tl1 := []); [ reflexivity | apply frame_refl | constructor ].
  - eapply K with (tl1 := []); [ reflexivity | apply frame_refl | constructor ].
  - eapply K with (tl1 := []); [ reflexivity | apply frame_refl | constructor ].
  - eapply K with (tl1 := []); [ reflexivity | apply frame_refl | constructor ].
  - eapply K with (tl1 := []); [ reflexivity | apply frame_refl | constructor ].
Qed.

Lemma Close_cases (lc : ListenerConn T U) :
  (CloseCh lc = Closed /\ Close lc = (Panic close_of_closed_channel, lc)) \/
  (CloseCh lc = Open /\ exists lc',
      Close lc = (Ret tt, lc') /\ trace lc' = trace lc /\ PushCh lc' = PushCh lc /\
      connClosed lc' = connClosed lc /\ grounding lc' = grounding lc /\
      CloseCh lc' = Closed).
Proof.
  unfold Close, close_CloseCh. destruct (CloseCh lc) eqn:E; cbn.
  - right. split; [ reflexivity | ]. eexists. repeat split.
  - left. auto.
Qed.

Ltac torn_tac pre Hn :=
  unfold torn; cbn;
  split; [ exists pre; rewrite <- ?app_assoc; split; [ reflexivity | exact Hn ]
         | repeat split; try (let X := fresh in intros X; discriminate X);
           try reflexivity ].

Lemma length_teardown_stmts :
  List.length (teardown_stmts sc io nilClient) = stmts nilClient.
Proof. destruct nilClient; reflexivity. Qed.

Lemma stage_crashed (p : pc) (k : nat) (msg : string) :
  stage (stmts nilClient) p k -> stage (stmts nilClient) (Crashed msg) k.
Proof.
  unfold stmts. destruct p; cbn; destruct nilClient; lia.
Qed.

(** Before the statements after spinloop, steps that only log calls
    change nothing [torn] speaks of. *)
Lemma torn_frame (lc lc' : ListenerConn T U) (tl : list (action T)) :
  frame lc lc' tl -> no_teardown tl -> torn 0 lc -> torn 0 lc'.
Proof.
  intros (F1 & F2 & F3 & F4 & F5 & F6) N ((pre & Ht & Hn) & Hg & Hc & Hp & Hcc & Hs).
  cbn in Ht, Hg, Hc, Hp, Hs. rewrite app_nil_r in Ht.
  unfold torn. cbn. rewrite F3, F4, F5, F6.
  split; [ | repeat split; try assumption; discriminate ].
  exists (pre ++ tl). rewrite app_nil_r.
  split; [ rewrite F1, Ht; reflexivity | apply no_teardown_app; assumption ].
Qed.

(** [Close] closes [CloseCh] and touches nothing else. *)
Lemma Close_torn (k : nat) (lc lc' : ListenerConn T U) (o : outcome unit) :
  Close lc = (o, lc') -> torn k lc -> torn k lc'.
Proof.
  destruct lc as [cc w scn cch pch g tr]. unfold Close, close_CloseCh.
  destruct cch; cbn; intros E; injection E as <- <-; unfold torn; cbn; tauto.
Qed.

Lemma Close_teardown_state (p : pc) (lc : ListenerConn T U) :
  teardown_state nilClient (p, lc) ->
  teardown_state nilClient (finish (fun _ : unit => p) (Close lc)).
Proof.
  intros (k & St & I). cbn [fst snd] in *. cbn [fst snd] in St.
  destruct (Close lc) as [o lc'] eqn:E.
  pose proof (Close_torn k lc lc' o E I) as I'.
  exists k. destruct o; cbn [finish fst snd].
  - auto.
  - split; [ eapply stage_crashed; exact St | exact I' ].
Qed.

(** The statement after the first [k] takes the session from [torn k]
    to [torn (S k)]; only the last close can panic, and does when
    [Close] has closed [CloseCh] before. *)
Lemma teardown_next_torn (k : nat) (lc : ListenerConn T U)
      (s' : pc * ListenerConn T U) :
  torn k lc ->
  teardown_next sc io nilClient k lc = Some s' ->
  (k < stmts nilClient)%nat /\ torn (S k) (snd s') /\
  (k <> 5%nat -> CloseCh (snd s') = CloseCh lc) /\
  ((fst s' = (if (S k <? stmts nilClient)%nat then Tearing (S k) else Closed_) /\
    (k = 5%nat -> CloseCh lc = Open /\ CloseCh (snd s') = Closed)) \/
   (fst s' = Crashed close_of_closed_channel /\ k = 5%nat /\ CloseCh lc = Closed)).
Proof.
  destruct lc as [cc w scn cch pch g tr].
  intros ((pre & Ht & Hn) & Hg & Hc & Hp & Hcc & Hs) E.
  cbn [trace grounding connClosed PushCh CloseCh serverClientNil] in *.
  unfold stmts.
  destruct k as [ | [ | [ | [ | [ | [ | [ | k ] ] ] ] ] ] ];
    cbn in Hg, Hc, Hp, Hs; subst g cc pch scn tr;
    unfold teardown_next in E.
  - destruct nilClient; lazy -[app] in E; injection E as <-;
      (split; [ lia | ]); (split; [ torn_tac pre Hn | ]);
      (split; [ reflexivity | left; split; [ reflexivity | discriminate ] ]).
  - destruct nilClient; lazy -[app] in E; injection E as <-;
      (split; [ lia | ]); (split; [ torn_tac pre Hn | ]);
      (split; [ reflexivity | left; split; [ reflexivity | discriminate ] ]).
  - destruct nilClient; lazy -[app] in E; injection E as <-;
      (split; [ lia | ]); (split; [ torn_tac pre Hn | ]);
      (split; [ reflexivity | left; split; [ reflexivity | discriminate ] ]).
  - destruct nilClient; lazy -[app] in E; injection E as <-;
      (split; [ lia | ]); (split; [ torn_tac pre Hn | ]);
      (split; [ reflexivity | left; split; [ reflexivity | discriminate ] ]).
  - destruct nilClient; lazy -[app] in E; injection E as <-;
      (split; [ lia | ]); (split; [ torn_tac pre Hn | ]);
      (split; [ reflexivity | left; split; [ reflexivity | discriminate ] ]).
  - destruct nilClient, cch; lazy -[app] in E; injection E as <-;
      (split; [ lia | ]); (split; [ torn_tac pre Hn | ]);
      (split; [ intros X; destruct (X eq_refl) | ]);
      first [ left; split; [ reflexivity | intros _; split; reflexivity ]
            | right; repeat split; reflexivity ].
  - destruct nilClient; lazy -[app] in E; [ | discriminate E ].
    injection E as <-.
    split; [ lia | ]. split; [ | split; [ reflexivity | left; split; [ reflexivity | discriminate ] ] ].
    unfold torn; cbn. split; [ exists pre; split; [ reflexivity | exact Hn ] | ].
    repeat split. intros _. apply Hcc. reflexivity.
  - exfalso. destruct nilClient, k; lazy in E; discriminate E.
Qed.

(** The statements after spinloop in one go. *)
Lemma teardown_cases (lc : ListenerConn T U) :
  torn 0 lc ->
  exists o lc',
    teardown sc io nilClient lc = (o, lc') /\
    match o with
    | Ret _ => CloseCh lc = Open /\ torn (stmts nilClient) lc'
    | Panic msg => CloseCh lc = Closed /\ msg = close_of_closed_channel /\ torn 6 lc'
    end.
Proof.
  destruct lc as [cc w scn cch pch g tr].
  intros ((pre & Ht & Hn) & Hg & Hc & Hp & Hcc & Hs).
  cbn in Ht, Hg, Hc, Hp, Hs. rewrite app_nil_r in Ht. subst g cc pch scn tr.
  unfold stmts.
  destruct (teardown sc io nilClient (mkLC false w false cch Open false pre))
    as [o lc'] eqn:E.
  exists o, lc'. split; [ reflexivity | ].
  destruct cch, nilClient; lazy -[app] in E; injection E as <- <-;
    (split; [ reflexivity | ]); try (split; [ reflexivity | ]);
    torn_tac pre Hn.
Qed.

Lemma step_teardown_state (s s' : pc * ListenerConn T U) (e : event T) :
  teardown_state nilClient s ->
  step sc io on_read nilClient s e = Some s' ->
  teardown_state nilClient s'.
Proof.
  destruct s as [p lc]. intros I E.
  assert (XC : teardown_state nilClient (finish (fun _ : unit => p) (Close lc)))
    by (apply Close_teardown_state; exact I).
  assert (XS : forall q, send q lc = Some s' -> q = p -> teardown_state nilClient s').
  { intros q X ->. unfold send in X. destruct I as (k & St & I). cbn [fst snd] in St.
    exists k. destruct (PushCh lc).
    - destruct (grounding lc); [ | discriminate X ]. injection X as <-. auto.
    - injection X as <-. split; [ eapply stage_crashed; exact St | exact I ]. }
  assert (XN : forall k, stage (stmts nilClient) p k -> torn k lc ->
                         teardown_next sc io nilClient k lc = Some s' ->
                         teardown_state nilClient s').
  { intros k St I0 X.
    destruct (teardown_next_torn k lc s' I0 X) as (Hk & I1 & _ & [(Hp & _) | (Hp & _)]).
    - exists (S k). split; [ | exact I1 ]. rewrite Hp.
      destruct (S k <? stmts nilClient)%nat eqn:Hlt.
      + apply Nat.ltb_lt in Hlt. cbn. lia.
      + apply Nat.ltb_ge in Hlt. cbn. lia.
    - exists (S k). split; [ | exact I1 ]. rewrite Hp. cbn. lia. }
  destruct I as (k & St & I0). cbn [fst snd] in St, I0. cbn [fst snd] in St.
  destruct p.
  - (* Spawned *)
    cbn in St. subst k. unfold step in E.
    destruct e; cbv beta iota in E; try discriminate E.
    + injection E as <-.
      destruct (loop_head_frame true lc) as (b' & lc2 & tl2 & E2 & F2 & N2).
      cbn in E2. injection E2 as <- <-.
      exists 0%nat. split; [ reflexivity | ].
      cbn [snd]. eapply torn_frame; eassumption.
    + injection E as <-. exact XC.
    + eapply XS; [ exact E | reflexivity ].
  - (* Selecting *)
    cbn in St. subst k.
    assert (XT : forall e0,
               teardown_state nilClient
                 (finish (fun p' => p') (turn sc io on_read needsRead e0 lc))).
    { intros e0. destruct (turn_frame needsRead e0 lc)
        as (p & lc2 & tl2 & E2 & F2 & N2 & Hp).
      rewrite E2. exists 0%nat. cbn [finish fst snd].
      split; [ destruct Hp as [-> | [b' ->]]; reflexivity | ].
      eapply torn_frame; eassumption. }
    unfold step in E.
    destruct e; cbv beta iota in E; try discriminate.
    + destruct (enabled lc (SelectRead rw)); [ | discriminate ].
      injection E as <-. exact (XT (SelectRead rw)).
    + destruct (enabled lc (SelectPush it)); [ | discriminate ].
      injection E as <-. exact (XT (SelectPush it)).
    + destruct (enabled lc SelectClose); [ | discriminate ].
      injection E as <-. exact (XT SelectClose).
    + injection E as <-. exact XC.
    + eapply XS; [ exact E | reflexivity ].
  - (* Closing_ *)
    cbn in St. subst k.
    unfold step in E.
    destruct e; cbv beta iota in E;
      [ discriminate E | discriminate E | discriminate E | discriminate E | | | | ].
    + destruct (teardown_cases lc I0) as (o & lc2 & E2 & Ho).
      rewrite E2 in E. injection E as <-.
      destruct o; cbn [finish].
      * exists (stmts nilClient). split; [ reflexivity | tauto ].
      * exists 6%nat. split; [ unfold stmts; cbn; destruct nilClient; lia | tauto ].
    + injection E as <-. exact XC.
    + eapply (XN 0%nat); [ reflexivity | exact I0 | exact E ].
    + eapply XS; [ exact E | reflexivity ].
  - (* Closed_ *)
    unfold step in E.
    destruct e; cbv beta iota in E; try discriminate.
    + injection E as <-. exact XC.
    + eapply XS; [ exact E | reflexivity ].
  - (* Crashed *)
    destruct e; cbn in E; discriminate.
  - (* Tearing *)
    unfold step in E.
    destruct e; cbv beta iota in E; try discriminate.
    + injection E as <-. exact XC.
    + cbn in St. destruct St as (-> & Hd).
      eapply (XN done); [ cbn; auto | exact I0 | exact E ].
    + eapply XS; [ exact E | reflexivity ].
Qed.

Lemma run_teardown_state (es : list (event T)) :
  forall s s' : pc * ListenerConn T U,
    teardown_state nilClient s ->
    run sc io on_read nilClient s es = Some s' ->
    teardown_state nilClient s'.
Proof.
  induction es as [ | e es IH ]; intros s s' I E; cbn in E.
  - injection E as <-. exact I.
  - destruct (step sc io on_read nilClient s e) as [s1 | ] eqn:E1; [ | discriminate ].
    eapply IH; [ | exact E ]. eapply step_teardown_state; eassumption.
Qed.

Lemma fresh_teardown_state (u : U) : teardown_state nilClient (Spawned, @fresh T U u).
Proof.
  exists 0%nat. split; [ reflexivity | ].
  unfold torn; cbn. repeat split; try discriminate.
  exists []. split; [ reflexivity | constructor ].
Qed.

End Loop.
End Facts.

Section Revisions.
Context {T U : Type}.
Variable io : Stream U.

Lemma A_on_read_quiet (scA : ServerClient T U (iface T * bool * bool)) :
  quiet_body (A.on_read scA io).
Proof.
  intros rw lc. unfold A.on_read. destruct (die rw).
  - exists true, lc, []. repeat split; try apply frame_refl. constructor.
  - unfold bind.
    destruct (handle_returns scA (item rw) lc) as (r & lc1 & E1 & F1). rewrite E1.
    destruct r as [[res sendback] dieCmd]. cbn. destruct sendback.
    + destruct (write_returns scA io res lc1) as (r2 & lc2 & tl & E2 & F2 & N2).
      rewrite E2. exists (dieCmd || r2)%bool, lc2, ([CallHandleCmd (item rw)] ++ CallWrite res :: tl).
      split; [ destruct (dieCmd || r2)%bool; reflexivity | ].
      split; [ eapply frame_trans; eassumption | ].
      repeat constructor. exact N2.
    + exists (dieCmd || false)%bool, lc1, [CallHandleCmd (item rw)].
      split; [ cbn; destruct (dieCmd || false)%bool; reflexivity | ].
      split; [ exact F1 | repeat constructor ].
Qed.

Lemma B_on_read_quiet (scB : ServerClient T U (iface T * bool)) :
  quiet_body (B.on_read scB io).
Proof.
  intros rw lc. unfold B.on_read. destruct (die rw).
  - exists true, lc, []. repeat split; try apply frame_refl. constructor.
  - unfold bind.
    destruct (handle_returns scB (item rw) lc) as (r & lc1 & E1 & F1). rewrite E1.
    destruct r as [res dieCmd]. cbn.
    destruct (write_returns scB io res lc1) as (r2 & lc2 & tl & E2 & F2 & N2).
    destruct dieCmd.
    + destruct res as [x | ]; cbn.
      * unfold bind. rewrite E2. cbn. exists true, lc2, ([CallHandleCmd (item rw)] ++ CallWrite (Some x) :: tl).
        split; [ reflexivity | ].
        split; [ eapply frame_trans; eassumption | ].
        repeat constructor. exact N2.
      * exists true, lc1, [CallHandleCmd (item rw)].
        split; [ reflexivity | ]. split; [ exact F1 | repeat constructor ].
    + rewrite E2. exists r2, lc2, ([CallHandleCmd (item rw)] ++ CallWrite res :: tl).
      split; [ destruct r2; reflexivity | ].
      split; [ eapply frame_trans; eassumption | ].
      repeat constructor. exact N2.
Qed.

End Revisions.

(** C8.  The statements of [spin] after spinloop run once and in the order
    of the source: the goroutine of [groundPushCh] is started, [Closing]
    is called, the stream is closed, [doneClosing] is closed (which stops
    [groundPushCh]), and then [PushCh] and [CloseCh] are closed.

    For every schedule of a fresh session, in either revision of the
    server, with the calls of other goroutines falling anywhere between
    the statements: at every moment the statements run so far are the
    first [k] of the six, they are the last thing in the trace and none
    of them occurs earlier; [k] is 0 until the first has run and at least
    6 once [spin] has returned; [groundPushCh] runs exactly from the first
    statement to the fourth, the stream is closed exactly from the third
    on, [PushCh] exactly from the fifth on, and [CloseCh] is closed once
    the sixth has run.

    What the statements do, one by one, from any state: the first starts
    [groundPushCh]; the second applies [Closing] to the handler's state,
    with [groundPushCh] and the stream as they are; the third closes the
    stream; the fourth stops [groundPushCh]; the fifth closes [PushCh];
    the sixth closes [CloseCh], or panics when [Close] has closed it
    already; the revision with a seventh sets [serverClient] to [nil].
    Run in one go on open channels they leave the stream closed on the
    state [Closing] returned.  While [groundPushCh] runs, a send on
    [PushCh] by another goroutine is taken and dropped. *)
Theorem C8_teardown_once_in_order :
  forall (T U : Type) (io : Stream U)
         (scA : ServerClient T U (iface T * bool * bool))
         (scB : ServerClient T U (iface T * bool)),
    (forall (u : U) (es : list (event T)) (s : pc * ListenerConn T U),
        A.spin scA io (Spawned, fresh u) es = Some s \/
        B.spin scB io (Spawned, fresh u) es = Some s ->
        exists k pre,
          trace (snd s) =
            pre ++ firstn k [GoGroundPushCh; CallClosing; CloseConn;
                             CloseDoneClosing; ClosePushCh; CloseCloseCh] /\
          no_teardown pre /\
          match fst s with
          | Spawned | Selecting _ | Closing_ => k = 0%nat
          | Tearing done => k = done /\ (1 <= done <= 6)%nat
          | Closed_ => (6 <= k)%nat
          | Crashed _ => True
          end /\
          grounding (snd s) = ((1 <=? k) && (k <? 4))%nat%bool /\
          connClosed (snd s) = (3 <=? k)%nat /\
          PushCh (snd s) = (if (5 <=? k)%nat then Closed else Open) /\
          ((6 <= k)%nat -> CloseCh (snd s) = Closed)) /\
    (forall (R : Type) (sc : ServerClient T U R) (on_read : readWrap T -> M T U bool)
            (nilClient : bool) (lc : ListenerConn T U),
        step sc io on_read nilClient (Closing_, lc) TeardownStmt
        = Some (Tearing 1,
                mkLC (connClosed lc) (world lc) (serverClientNil lc) (CloseCh lc)
                     (PushCh lc) true (trace lc ++ [GoGroundPushCh])) /\
        step sc io on_read nilClient (Tearing 1, lc) TeardownStmt
        = Some (Tearing 2,
                mkLC (connClosed lc) (Closing sc (world lc)) (serverClientNil lc)
                     (CloseCh lc) (PushCh lc) (grounding lc)
                     (trace lc ++ [CallClosing])) /\
        step sc io on_read nilClient (Tearing 2, lc) TeardownStmt
        = Some (Tearing 3,
                mkLC true (conn_Close io (world lc)) (serverClientNil lc)
                     (CloseCh lc) (PushCh lc) (grounding lc)
                     (trace lc ++ [CloseConn])) /\
        step sc io on_read nilClient (Tearing 3, lc) TeardownStmt
        = Some (Tearing 4,
                mkLC (connClosed lc) (world lc) (serverClientNil lc) (CloseCh lc)
                     (PushCh lc) false (trace lc ++ [CloseDoneClosing])) /\
        (PushCh lc = Open ->
         step sc io on_read nilClient (Tearing 4, lc) TeardownStmt
         = Some (Tearing 5,
                 mkLC (connClosed lc) (world lc) (serverClientNil lc) (CloseCh lc)
                      Closed (grounding lc) (trace lc ++ [ClosePushCh]))) /\
        (CloseCh lc = Open ->
         step sc io on_read nilClient (Tearing 5, lc) TeardownStmt
         = Some (if nilClient then Tearing 6 else Closed_,
                 mkLC (connClosed lc) (world lc) (serverClientNil lc) Closed
                      (PushCh lc) (grounding lc) (trace lc ++ [CloseCloseCh]))) /\
        (CloseCh lc = Closed ->
         step sc io on_read nilClient (Tearing 5, lc) TeardownStmt
         = Some (Crashed close_of_closed_channel,
                 mkLC (connClosed lc) (world lc) (serverClientNil lc) Closed
                      (PushCh lc) (grounding lc) (trace lc ++ [CloseCloseCh]))) /\
        step sc io on_read nilClient (Tearing 6, lc) TeardownStmt
        = (if nilClient
           then Some (Closed_,
                      mkLC (connClosed lc) (world lc) true (CloseCh lc)
                           (PushCh lc) (grounding lc) (trace lc))
           else None) /\
        (PushCh lc = Open -> CloseCh lc = Open ->
         step sc io on_read nilClient (Closing_, lc) Teardown
         = Some (Closed_,
                 mkLC true (conn_Close io (Closing sc (world lc)))
                      (nilClient || serverClientNil lc) Closed Closed false
                      (trace lc ++ [GoGroundPushCh; CallClosing; CloseConn;
                                    CloseDoneClosing; ClosePushCh; CloseCloseCh]))) /\
        (forall (it : iface T) (done : nat),
            grounding lc = true -> PushCh lc = Open ->
            step sc io on_read nilClient (Tearing done, lc) (ExtSend it)
            = Some (Tearing done, lc))).
Proof.
  intros T U io scA scB. split.
  - intros u es s H.
    assert (I : exists k, (stage 7 (fst s) k \/ stage 6 (fst s) k) /\ torn k (snd s)).
    { destruct H as [H | H].
      - destruct (run_teardown_state scA io _ true (A_on_read_quiet io scA) es _ s
                    (fresh_teardown_state true u) H) as (k & St & I).
        exists k. auto.
      - destruct (run_teardown_state scB io _ false (B_on_read_quiet io scB) es _ s
                    (fresh_teardown_state false u) H) as (k & St & I).
        exists k. auto. }
    destruct I as (k & St & (pre & Ht & Hn) & Hg & Hc & Hp & Hcc & Hs).
    exists k, pre.
    split; [ exact Ht | ]. split; [ exact Hn | ].
    split; [ destruct St as [St | St]; destruct (fst s); cbn in St |- *; try lia; exact I | ].
    split; [ exact Hg | ]. split; [ exact Hc | ]. split; [ exact Hp | ].
    intros Hk. apply Hcc. apply Nat.leb_le. exact Hk.
  - intros R sc on_read nilClient [cc w scn cch pch g tr].
    cbn [connClosed world serverClientNil CloseCh PushCh grounding trace].
    split; [ destruct nilClient; reflexivity | ].
    split; [ destruct nilClient; reflexivity | ].
    split; [ destruct nilClient; reflexivity | ].
    split; [ destruct nilClient; reflexivity | ].
    split; [ intros ->; destruct nilClient; reflexivity | ].
    split; [ intros ->; destruct nilClient; reflexivity | ].
    split; [ intros ->; destruct nilClient; reflexivity | ].
    split; [ destruct nilClient; reflexivity | ].
    split.
    + intros -> ->. unfold step.
      destruct (teardown sc io nilClient (mkLC cc w scn Open Open g tr)) as [o lc'] eqn:E.
      destruct nilClient, scn; lazy -[app] in E; injection E as <- <-;
        cbn [finish orb]; rewrite <- ?app_assoc; reflexivity.
    + intros it done -> ->. destruct done; reflexivity.
Qed.

(** The session of the example after a command and the end of the
    stream, its statements after spinloop run one by one: a producer sends
    on [PushCh] while [groundPushCh] runs, and another goroutine calls
    [Close] before the last close, which then panics. *)
Lemma C8_teardown_once_in_order_witness :
  exists s,
    A.spin Example.ExServerClient Example.tcp (Spawned, fresh Example.wire0)
      [Begin; SelectRead (mkReadWrap (Some "OHAI"%string) None false);
       SelectRead (mkReadWrap None None true);
       TeardownStmt; TeardownStmt; ExtSend (Some "LATE"%string); TeardownStmt;
       ExtClose; TeardownStmt; TeardownStmt; TeardownStmt] = Some s /\
    fst s = Crashed close_of_closed_channel /\
    exists k pre,
      trace (snd s) =
        pre ++ firstn k [GoGroundPushCh; CallClosing; CloseConn;
                         CloseDoneClosing; ClosePushCh; CloseCloseCh] /\
      no_teardown pre /\
      grounding (snd s) = ((1 <=? k) && (k <? 4))%nat%bool /\
      connClosed (snd s) = (3 <=? k)%nat /\
      PushCh (snd s) = (if (5 <=? k)%nat then Closed else Open).
Proof.
  destruct (A.spin Example.ExServerClient Example.tcp (Spawned, fresh Example.wire0)
              [Begin; SelectRead (mkReadWrap (Some "OHAI"%string) None false);
               SelectRead (mkReadWrap None None true);
               TeardownStmt; TeardownStmt; ExtSend (Some "LATE"%string); TeardownStmt;
               ExtClose; TeardownStmt; TeardownStmt; TeardownStmt])
    as [s | ] eqn:E; [ | vm_compute in E; discriminate E ].
  exists s. split; [ reflexivity | ].
  split; [ vm_compute in E; injection E as <-; reflexivity | ].
  destruct (proj1 (C8_teardown_once_in_order string Example.Wire Example.tcp
                     Example.ExServerClient Example.QuietServerClient)
              Example.wire0 _ s (or_introl E))
    as (k & pre & H1 & H2 & _ & H3 & H4 & H5 & _).
  exists k, pre. auto.
Defined.

(** C1 (the code does not do it).  [Close] is [close(lc.CloseCh)] and the
    teardown of [spin] closes the same channel again, so the close trigger
    is not idempotent: two calls of [Close] in a row panic, a call of
    [Close] followed by the teardown panics inside the teardown, and a
    teardown followed by [Close] panics inside [Close] - from every state
    of the session and in both revisions.  On the fresh session of the
    example: [Close] twice; [Close], the select on [CloseCh], the teardown;
    and the end of the stream, the teardown, [Close]. *)
Theorem C1_Close_is_not_idempotent :
  (forall (T U : Type) (lc : ListenerConn T U),
      fst ((Close ;; Close) lc) = Panic close_of_closed_channel) /\
  (forall (T U R : Type) (sc : ServerClient T U R) (io : Stream U) (nilClient : bool)
          (lc : ListenerConn T U),
      fst ((Close ;; teardown sc io nilClient) lc) = Panic close_of_closed_channel /\
      fst ((teardown sc io nilClient ;; Close) lc) = Panic close_of_closed_channel) /\
  option_map fst
    (A.spin Example.ExServerClient Example.tcp (Spawned, fresh Example.wire0)
       [Begin; ExtClose; ExtClose]) = Some (Crashed close_of_closed_channel) /\
  option_map fst
    (A.spin Example.ExServerClient Example.tcp (Spawned, fresh Example.wire0)
       [Begin; ExtClose; SelectClose; Teardown]) = Some (Crashed close_of_closed_channel) /\
  option_map fst
    (B.spin Example.QuietServerClient Example.tcp (Spawned, fresh Example.wire0)
       [Begin; ExtClose; SelectClose; Teardown]) = Some (Crashed close_of_closed_channel) /\
  option_map fst
    (A.spin Example.ExServerClient Example.tcp (Spawned, fresh Example.wire0)
       [Begin; SelectRead (mkReadWrap None None true); Teardown; ExtClose])
    = Some (Crashed close_of_closed_channel).
Proof.
  split; [ | split; [ | repeat split; vm_compute; reflexivity ] ].
  - intros T U lc. destruct lc as [cc w scn cch pch g tr].
    destruct cch; reflexivity.
  - intros T U R sc io nilClient lc. destruct lc as [cc w scn cch pch g tr].
    destruct cch, pch, nilClient; split; reflexivity.
Qed.

(** C7.  In the read case of the arbitration loop, when [HandleCmd] has a
    response to send (revision A: its second result is [true]; revision B:
    the close flag is [false], or the response is not [nil]), [write] is
    called with that response right after [HandleCmd], and if [write]
    reports failure or the handler's close flag is set the loop is left for
    the teardown ([Closing_]) in the state [write] produced: a failed write
    closes even when the close flag is [false], and a final response is
    written before the session starts closing. *)
Theorem C7_failed_write_closes_final_response_first :
  forall (T U : Type) (io : Stream U),
    (forall (sc : ServerClient T U (iface T * bool * bool))
            (lc lc1 : ListenerConn T U) (rw : readWrap T) (needsRead : bool)
            (res : iface T) (dieCmd : bool),
        die rw = false ->
        handle sc (item rw) lc = (Ret (res, true, dieCmd), lc1) ->
        exists r lc2 tl,
          write sc io res lc1 = (Ret r, lc2) /\
          trace lc2 = trace lc ++ CallHandleCmd (item rw) :: CallWrite res :: tl /\
          (r = true \/ dieCmd = true ->
           A.spin_step sc io (Selecting needsRead, lc) (SelectRead rw)
           = Some (Closing_, lc2))) /\
    (forall (sc : ServerClient T U (iface T * bool))
            (lc lc1 : ListenerConn T U) (rw : readWrap T) (needsRead : bool)
            (res : iface T) (dieCmd : bool),
        die rw = false ->
        handle sc (item rw) lc = (Ret (res, dieCmd), lc1) ->
        (dieCmd = true -> is_nil res = false) ->
        exists r lc2 tl,
          write sc io res lc1 = (Ret r, lc2) /\
          trace lc2 = trace lc ++ CallHandleCmd (item rw) :: CallWrite res :: tl /\
          (r = true \/ dieCmd = true ->
           B.spin_step sc io (Selecting needsRead, lc) (SelectRead rw)
           = Some (Closing_, lc2))).
Proof.
  intros T U io. split.
  - intros sc lc lc1 rw nr res dieCmd Hd Hh.
    destruct (write_returns sc io res lc1) as (r & lc2 & tl & E2 & F2 & N2).
    destruct (handle_returns sc (item rw) lc) as (r0 & lc0 & E0 & F0).
    rewrite Hh in E0. injection E0 as <- <-.
    exists r, lc2, tl. split; [ exact E2 | ]. split.
    + destruct F2 as (F2 & _). destruct F0 as (F0 & _).
      rewrite F2, F0, <- app_assoc. reflexivity.
    + intros Hr. unfold A.spin_step, step. cbn.
      unfold turn, select_case, A.on_read, bind. rewrite Hd, Hh. cbn.
      rewrite E2.
      assert (X : (dieCmd || r)%bool = true) by (destruct Hr; subst; apply orb_true_iff; auto).
      rewrite X. reflexivity.
  - intros sc lc lc1 rw nr res dieCmd Hd Hh Hn.
    destruct (write_returns sc io res lc1) as (r & lc2 & tl & E2 & F2 & N2).
    destruct (handle_returns sc (item rw) lc) as (r0 & lc0 & E0 & F0).
    rewrite Hh in E0. injection E0 as <- <-.
    exists r, lc2, tl. split; [ exact E2 | ]. split.
    + destruct F2 as (F2 & _). destruct F0 as (F0 & _).
      rewrite F2, F0, <- app_assoc. reflexivity.
    + intros Hr. unfold B.spin_step, step. cbn.
      unfold turn, select_case, B.on_read, bind. rewrite Hd, Hh. cbn.
      destruct dieCmd.
      * rewrite (Hn eq_refl). cbn. unfold bind. rewrite E2. reflexivity.
      * rewrite E2. destruct Hr as [-> | ?]; [ reflexivity | discriminate ].
Qed.

(** Revision A on a stream that is already closed: the handler of the
    example wants the connection kept, the flush of its response fails.
    Revision B on a sound stream: the handler answers [QUIT] with a last
    [BYE] and asks to close. *)
Lemma C7_failed_write_closes_final_response_first_witness :
  (let sc := Example.ExServerClient in
   let lc := fresh (Example.mkWire "" "" true None) in
   let rw := mkReadWrap (Some "OHAI"%string) None false in
   let lc1 := snd (handle sc (item rw) lc) in
   die rw = false /\
   handle sc (item rw) lc = (Ret (Some "~OHAI"%string, true, false), lc1) /\
   exists r lc2 tl,
     write sc Example.tcp (Some "~OHAI"%string) lc1 = (Ret r, lc2) /\
     trace lc2 = trace lc ++ CallHandleCmd (item rw) :: CallWrite (Some "~OHAI"%string) :: tl /\
     (r = true \/ false = true ->
      A.spin_step sc Example.tcp (Selecting false, lc) (SelectRead rw)
      = Some (Closing_, lc2))) /\
  (let sc := Example.QuietServerClient in
   let lc := fresh Example.wire0 in
   let rw := mkReadWrap (Some "QUIT"%string) None false in
   let lc1 := snd (handle sc (item rw) lc) in
   die rw = false /\
   handle sc (item rw) lc = (Ret (Some "BYE"%string, true), lc1) /\
   (true = true -> is_nil (Some "BYE"%string) = false) /\
   exists r lc2 tl,
     write sc Example.tcp (Some "BYE"%string) lc1 = (Ret r, lc2) /\
     trace lc2 = trace lc ++ CallHandleCmd (item rw) :: CallWrite (Some "BYE"%string) :: tl /\
     (r = true \/ true = true ->
      B.spin_step sc Example.tcp (Selecting false, lc) (SelectRead rw)
      = Some (Closing_, lc2))).
Proof.
  split.
  - split; [ reflexivity | ]. split; [ reflexivity | ].
    exact (proj1 (C7_failed_write_closes_final_response_first string Example.Wire Example.tcp)
             Example.ExServerClient (fresh (Example.mkWire "" "" true None)) _
             (mkReadWrap (Some "OHAI"%string) None false) false
             (Some "~OHAI"%string) false eq_refl eq_refl).
  - split; [ reflexivity | ]. split; [ reflexivity | ].
    split; [ reflexivity | ].
    exact (proj2 (C7_failed_write_closes_final_response_first string Example.Wire Example.tcp)
             Example.QuietServerClient (fresh Example.wire0) _
             (mkReadWrap (Some "QUIT"%string) None false) false
             (Some "BYE"%string) true eq_refl eq_refl (fun _ => eq_refl)).
Defined.

(** C9, as the claim states it, fails: in revision B a handler that
    returns a [nil] response with the close flag [false] has [write] called
    with [nil].  The handler below has no response to the command [NOOP]. *)
Lemma C9_nil_response_is_written :
  fst (handle Example.QuietServerClient (Some "NOOP"%string) (fresh Example.wire0))
  = Ret (None, false) /\
  option_map (fun s => (fst s, trace (snd s)))
    (B.spin_step Example.QuietServerClient Example.tcp
       (Selecting false, fresh Example.wire0)
       (SelectRead (mkReadWrap (Some "NOOP"%string) None false)))
  = Some (Selecting false,
          [CallHandleCmd (Some "NOOP"%string); CallWrite None; CallFlush; GoRead]).
Proof. split; vm_compute; reflexivity. Qed.

(** C9, amended.  In revision B a [nil] response keeps [write] from being
    called only when the close flag is set: the step then logs the call of
    [HandleCmd] and nothing else, and leaves the loop.  With the close flag
    [false] the response goes to [write] whatever it is, [nil] included. *)
Theorem C9_nil_response_skips_write_only_when_closing :
  forall (T U : Type) (io : Stream U) (sc : ServerClient T U (iface T * bool))
         (lc lc1 : ListenerConn T U) (rw : readWrap T) (needsRead dieCmd : bool),
    die rw = false ->
    handle sc (item rw) lc = (Ret (None, dieCmd), lc1) ->
    (dieCmd = true ->
       B.spin_step sc io (Selecting needsRead, lc) (SelectRead rw) = Some (Closing_, lc1) /\
       trace lc1 = trace lc ++ [CallHandleCmd (item rw)]) /\
    (dieCmd = false ->
       exists p lc2 tl,
         B.spin_step sc io (Selecting needsRead, lc) (SelectRead rw) = Some (p, lc2) /\
         trace lc2 = trace lc ++ CallHandleCmd (item rw) :: CallWrite None :: tl).
Proof.
  intros T U io sc lc lc1 rw nr dieCmd Hd Hh.
  destruct (handle_returns sc (item rw) lc) as (r0 & lc0 & E0 & F0).
  rewrite Hh in E0. injection E0 as <- <-.
  destruct F0 as (F0 & _).
  split; intros ->.
  - split; [ | exact F0 ].
    unfold B.spin_step, step. cbn.
    unfold turn, select_case, B.on_read, bind. rewrite Hd, Hh. cbn. reflexivity.
  - destruct (write_returns sc io None lc1) as (r & lc2 & tl & E2 & F2 & N2).
    destruct (loop_head_frame true lc2) as (b' & lc3 & tl3 & E3 & F3 & N3).
    destruct F2 as (F2 & _). destruct F3 as (F3 & _).
    unfold B.spin_step, step. cbn.
    unfold turn, select_case, B.on_read, bind. rewrite Hd, Hh. cbn. rewrite E2.
    destruct r.
    + exists Closing_, lc2, tl. split; [ reflexivity | ].
      rewrite F2, F0, <- app_assoc. reflexivity.
    + cbn in E3. cbn. unfold bind. 
      exists (Selecting false). eexists. exists (tl ++ [GoRead]).
      split; [ reflexivity | ]. cbn.
      rewrite F2, F0. repeat rewrite <- app_assoc. reflexivity.
Qed.

(** The handler without a response to [NOOP]. *)
Lemma C9_nil_response_skips_write_only_when_closing_witness :
  let sc := Example.QuietServerClient in
  let lc := fresh Example.wire0 in
  let rw := mkReadWrap (Some "NOOP"%string) None false in
  let lc1 := snd (handle sc (item rw) lc) in
  die rw = false /\
  handle sc (item rw) lc = (Ret (None, false), lc1) /\
  (false = false ->
     exists p lc2 tl,
       B.spin_step sc Example.tcp (Selecting false, lc) (SelectRead rw) = Some (p, lc2) /\
       trace lc2 = trace lc ++ CallHandleCmd (item rw) :: CallWrite None :: tl).
Proof.
  split; [ reflexivity | ]. split; [ reflexivity | ].
  exact (proj2 (C9_nil_response_skips_write_only_when_closing string Example.Wire
                  Example.tcp Example.QuietServerClient (fresh Example.wire0) _
                  (mkReadWrap (Some "NOOP"%string) None false) false false
                  eq_refl eq_refl)).
Defined.

End ServerFacts.

(** * Properties of the client session *)

Module ClientFacts.
Import Client.

(** C2 (the code does not do it).  With [bg] set, [cmd] returns right
    after a successful [Write], before the [Flush] that [Cmd] goes on to:
    what [CmdBg] returns and the state it leaves the writer in are those
    of [Write] alone, [(nil, false)] whenever [Write] gave no error.  On the client of the
    example: after [CmdBg] of [OHAI] the line sits in the buffer and
    nothing is on the stream, where [Cmd] has put it on the stream; and on
    a closed stream [CmdBg] reports [(nil, false)] where [Cmd] returns the
    error of the flush with [closed = true]. *)
Theorem C2_CmdBg_skips_the_flush :
  (forall (T U : Type) (client : Client T U) (io : Stream U) (c : iface T) (u : U),
      CmdBg client io c u
      = (Some (match fst (fst (Write client c u)) with
               | Some e => (Some e, snd (fst (Write client c u)))
               | None => (None, false)
               end),
         snd (Write client c u))) /\
  CmdBg Example.ExClient Example.tcp (Some "OHAI"%string) Example.wire0
  = (Some (None, false),
     Example.mkWire ("OHAI" ++ Example.LF) "" false None) /\
  Cmd Example.ExClient Example.tcp (Some "OHAI"%string) Example.wire0
  = (Receiving,
     Example.mkWire "" ("OHAI" ++ Example.LF) false None) /\
  fst (CmdBg Example.ExClient Example.tcp (Some "OHAI"%string)
         (Example.net_Close Example.wire0))
  = Some (None, false) /\
  fst (Cmd Example.ExClient Example.tcp (Some "OHAI"%string)
         (Example.net_Close Example.wire0))
  = Returned None (Some Example.use_of_closed) true.
Proof.
  split; [ | repeat split; vm_compute; reflexivity ].
  intros T U client io c u. unfold CmdBg, cmd.
  destruct (Write client c u) as [[e d] u1]. cbn.
  destruct e; reflexivity.
Qed.

(** C3, as the claim states it, fails: a [Write] that returns an error
    with [false] for its flag, as the comment of the interface asks of an
    error from marshalling, makes [Cmd] return [closed = false]. *)
Lemma C3_write_error_not_closed :
  fst (Write Example.MarshallingClient None Example.wire0)
  = (Some Example.cannot_marshal, false) /\
  fst (Cmd Example.MarshallingClient Example.tcp None Example.wire0)
  = Returned None (Some Example.cannot_marshal) false.
Proof. split; vm_compute; reflexivity. Qed.

(** C3, amended.  When [Write] returns an error, [Cmd] returns at once
    with a [nil] item, that error, and for [closed] the flag that [Write]
    returned with it; the writer is not flushed, and the caller is never
    left waiting. *)
Theorem C3_write_error_returned_with_its_flag :
  forall (T U : Type) (client : Client T U) (io : Stream U) (c : iface T)
         (e : string) (d : bool) (u1 : U) (s : Conn T U),
    Write client c (world s) = ((Some e, d), u1) ->
    caller s = Idle ->
    Cmd client io c (world s) = (Returned None (Some e) d, u1) /\
    step client io s (CallCmd c)
    = Some (mkConn (now s) (loop s) Idle u1 (connClosed s) (PushCh s) (nread s)
              (history s ++ [CmdReturns None (Some e) d (now s)])).
Proof.
  intros T U client io c e d u1 s HW HC.
  assert (E : Cmd client io c (world s) = (Returned None (Some e) d, u1)).
  { unfold Cmd, cmd. rewrite HW. reflexivity. }
  split; [ exact E | ].
  unfold step. rewrite HC, E. reflexivity.
Qed.

Lemma C3_write_error_returned_with_its_flag_witness :
  let s := Dial 0 Example.wire0 in
  Write Example.MarshallingClient None (world s)
  = ((Some Example.cannot_marshal, false), Example.wire0) /\
  caller s = Idle /\
  Cmd Example.MarshallingClient Example.tcp None (world s)
  = (Returned None (Some Example.cannot_marshal) false, Example.wire0) /\
  step Example.MarshallingClient Example.tcp s (CallCmd None)
  = Some (mkConn (now s) (loop s) Idle Example.wire0 (connClosed s) (PushCh s) (nread s)
            (history s ++ [CmdReturns None (Some Example.cannot_marshal) false (now s)])).
Proof.
  split; [ reflexivity | ]. split; [ reflexivity | ].
  exact (C3_write_error_returned_with_its_flag string Example.Wire
           Example.MarshallingClient Example.tcp None Example.cannot_marshal false
           Example.wire0 (Dial 0 Example.wire0) eq_refl eq_refl).
Defined.

(** C10.  A result of [Read] without error whose item [IsPush] accepts
    goes to [PushCh] with its [die] flag unread: from its [Read], [spin]
    moves to the send on [PushCh] and, once the application has received
    the item, back to [Read]; stream, channel and writer are as before. *)
Theorem C10_die_ignored_on_push :
  forall (T U : Type) (client : Client T U) (io : Stream U)
         (s : Conn T U) (it : iface T),
    loop s = AtRead ->
    IsPush client it = true ->
    exists s1 s2,
      step client io s (ReadReturns (mkReadWrap it None true)) = Some s1 /\
      loop s1 = AtPush it /\
      step client io s1 PushReceived = Some s2 /\
      loop s2 = AtRead /\
      connClosed s2 = connClosed s /\ PushCh s2 = PushCh s /\
      world s2 = world s /\ caller s2 = caller s /\
      history s2 = history s ++ [Decoded (nread s) (mkReadWrap it None true) (now s);
                                 Pushed (nread s) it (now s);
                                 PushTaken it (now s)].
Proof.
  intros T U client io s it HL HP.
  unfold step. rewrite HL. unfold spin_after_Read, to_readCh. cbn.
  rewrite HP. cbn.
  eexists. eexists. split; [ reflexivity | ]. cbn.
  split; [ reflexivity | ]. split; [ reflexivity | ]. cbn.
  rewrite <- app_assoc. repeat split.
Qed.

(** A push [HI] that [Read] returns with [die] set, on the client of the
    example. *)
Lemma C10_die_ignored_on_push_witness :
  let s := Dial 0 Example.wire0 in
  loop s = AtRead /\
  IsPush Example.ExClient (Some "HI"%string) = true /\
  exists s1 s2,
    step Example.ExClient Example.tcp s
      (ReadReturns (mkReadWrap (Some "HI"%string) None true)) = Some s1 /\
    loop s1 = AtPush (Some "HI"%string) /\
    step Example.ExClient Example.tcp s1 PushReceived = Some s2 /\
    loop s2 = AtRead /\
    connClosed s2 = connClosed s /\ PushCh s2 = PushCh s /\
    world s2 = world s /\ caller s2 = caller s /\
    history s2 = history s ++ [Decoded (nread s) (mkReadWrap (Some "HI"%string) None true) (now s);
                               Pushed (nread s) (Some "HI"%string) (now s);
                               PushTaken (Some "HI"%string) (now s)].
Proof.
  split; [ reflexivity | ]. split; [ reflexivity | ].
  exact (C10_die_ignored_on_push string Example.Wire Example.ExClient Example.tcp
           (Dial 0 Example.wire0) (Some "HI"%string) eq_refl eq_refl).
Defined.

Section Routing.
Context {T U : Type}.
Variable client : Client T U.
Variable io : Stream U.

Lemma filter_snoc {A} (f : A -> bool) (l : list A) (x : A) :
  filter f (l ++ [x]) = filter f l ++ (if f x then [x] else []).
Proof. rewrite filter_app. reflexivity. Qed.


Lemma flat_map_silent {B} (f : obs T -> list B) (d : list (obs T)) :
  Forall silent d -> (forall o, silent o -> f o = []) -> flat_map f d = [].
Proof.
  intros F Hf. induction F as [ | o d Ho F IH ]; cbn; [ reflexivity | ].
  rewrite (Hf o Ho), IH. reflexivity.
Qed.

Lemma projections_silent (h d : list (obs T)) :
  Forall silent d ->
  decodes (h ++ d) = decodes h /\ offers (h ++ d) = offers h /\
  pushes (h ++ d) = pushes h.
Proof.
  intros F. unfold decodes, offers, pushes. rewrite !flat_map_app.
  rewrite !(flat_map_silent _ d F), !app_nil_r;
    try (intros [] Ho; cbn in *; tauto).
  repeat split.
Qed.

Lemma routed_silent (s s' : Conn T U) (d : list (obs T)) :
  Forall silent d ->
  history s' = history s ++ d -> nread s' = nread s ->
  routed client s -> routed client s'.
Proof.
  intros F Hh Hn. unfold routed. cbn zeta. rewrite Hh, Hn.
  destruct (projections_silent (history s) d F) as (-> & -> & ->). tauto.
Qed.

Lemma step_routed (s s' : Conn T U) (e : event T) :
  routed client s -> step client io s e = Some s' -> routed client s'.
Proof.
  intros R E. destruct e; cbn in E.
  - destruct (0 <=? d); [ | discriminate ].
    injection E as <-. exact R.
  - destruct (loop s); try discriminate. injection E as <-.
    destruct R as (R1 & R2 & R3). unfold routed. cbn [history nread].
    unfold decodes, offers, pushes in *. rewrite !flat_map_app.
    unfold spin_after_Read.
    destruct (to_readCh client rw) eqn:Hr; cbn [flat_map app];
      rewrite ?app_nil_r, !filter_snoc; cbn [snd negb]; rewrite Hr; cbn [negb];
      rewrite ?app_nil_r, ?map_app, seq_S, R1, R2, R3; repeat split.
  - destruct (loop s); try discriminate. destruct (caller s); try discriminate.
    injection E as <-. eapply routed_silent; [ | reflexivity | reflexivity | exact R ].
    repeat constructor.
  - destruct (loop s); try discriminate.
    destruct (deadline <=? now s); [ | discriminate ].
    injection E as <-. eapply routed_silent; [ | reflexivity | reflexivity | exact R ].
    repeat constructor.
  - destruct (loop s); try discriminate.
    injection E as <-. eapply routed_silent; [ | reflexivity | reflexivity | exact R ].
    repeat constructor.
  - destruct (loop s); try discriminate.
    destruct (spin_exit io (world s) (PushCh s)) as [[p u] ch].
    injection E as <-. exact R.
  - destruct (caller s); try discriminate.
    destruct (Cmd client io cmd0 (world s)) as [[it e cl | ] u]; injection E as <-.
    + eapply routed_silent; [ | reflexivity | reflexivity | exact R ].
      repeat constructor.
    + exact R.
  - destruct (caller s); try discriminate.
    destruct (CmdBg client io cmd0 (world s)) as [[[e cl] | ] u]; [ | discriminate ].
    injection E as <-. eapply routed_silent; [ | reflexivity | reflexivity | exact R ].
    repeat constructor.
  - injection E as <-. exact R.
Qed.

Lemma run_routed (es : list (event T)) :
  forall s s' : Conn T U,
    routed client s -> run client io s es = Some s' -> routed client s'.
Proof.
  induction es as [ | e es IH ]; intros s s' R E; cbn in E.
  - injection E as <-. exact R.
  - destruct (step client io s e) as [s1 | ] eqn:E1; [ | discriminate ].
    eapply IH; [ eapply step_routed; eassumption | exact E ].
Qed.

Lemma numbered_app (k : nat) (a b : list (readWrap T)) :
  numbered k (a ++ b) = numbered k a ++ numbered (k + List.length a) b.
Proof.
  revert k. induction a as [ | x a IH ]; intros k.
  - cbn. rewrite Nat.add_0_r. reflexivity.
  - change (numbered k ((x :: a) ++ b)) with ((k, x) :: numbered (S k) (a ++ b)).
    rewrite IH. cbn [List.length]. rewrite Nat.add_succ_r. reflexivity.
Qed.

(** A step adds to the results decoded what its event says [Read]
    returned, under the next number, and nothing else. *)
Lemma step_decodes (s s' : Conn T U) (e : event T) :
  step client io s e = Some s' ->
  decodes (history s') = decodes (history s) ++ numbered (nread s) (reads [e]) /\
  nread s' = (nread s + List.length (reads [e]))%nat.
Proof.
  intros E. destruct e; cbn in E; cbn [reads flat_map app numbered List.length seq combine];
    rewrite ?app_nil_r, ?Nat.add_0_r.
  - destruct (0 <=? d); [ | discriminate ]. injection E as <-. split; reflexivity.
  - destruct (loop s); try discriminate. injection E as <-.
    cbn [history nread]. unfold decodes. rewrite flat_map_app.
    split; [ | apply eq_sym, Nat.add_1_r ].
    f_equal. unfold spin_after_Read. destruct (to_readCh client rw); reflexivity.
  - destruct (loop s); try discriminate. destruct (caller s); try discriminate.
    injection E as <-. cbn [history nread]. unfold decodes. rewrite flat_map_app.
    cbn. rewrite app_nil_r. split; reflexivity.
  - destruct (loop s); try discriminate.
    destruct (deadline <=? now s); [ | discriminate ].
    injection E as <-. cbn [history nread]. unfold decodes. rewrite flat_map_app.
    cbn. rewrite app_nil_r. split; reflexivity.
  - destruct (loop s); try discriminate.
    injection E as <-. cbn [history nread]. unfold decodes. rewrite flat_map_app.
    cbn. rewrite app_nil_r. split; reflexivity.
  - destruct (loop s); try discriminate.
    destruct (spin_exit io (world s) (PushCh s)) as [[p u] ch].
    injection E as <-. split; reflexivity.
  - destruct (caller s); try discriminate.
    destruct (Cmd client io cmd0 (world s)) as [[it e cl | ] u]; injection E as <-;
      cbn [history nread]; [ | split; reflexivity ].
    unfold decodes. rewrite flat_map_app. cbn. rewrite app_nil_r. split; reflexivity.
  - destruct (caller s); try discriminate.
    destruct (CmdBg client io cmd0 (world s)) as [[[e cl] | ] u]; [ | discriminate ].
    injection E as <-. cbn [history nread]. unfold decodes. rewrite flat_map_app.
    cbn. rewrite app_nil_r. split; reflexivity.
  - injection E as <-. split; reflexivity.
Qed.

Lemma run_decodes (es : list (event T)) :
  forall s s' : Conn T U,
    run client io s es = Some s' ->
    decodes (history s') = decodes (history s) ++ numbered (nread s) (reads es) /\
    nread s' = (nread s + List.length (reads es))%nat.
Proof.
  induction es as [ | e es IH ]; intros s s' E; cbn in E.
  - injection E as <-. cbn. rewrite app_nil_r, Nat.add_0_r. split; reflexivity.
  - destruct (step client io s e) as [s1 | ] eqn:E1; [ | discriminate ].
    destruct (step_decodes s s1 e E1) as (D1 & N1).
    destruct (IH s1 s' E) as (D2 & N2).
    assert (C : reads (e :: es) = reads [e] ++ reads es)
      by (cbn; rewrite app_nil_r; reflexivity).
    rewrite C.
    rewrite numbered_app, length_app, D2, D1, N2, N1, <- app_assoc, Nat.add_assoc.
    split; reflexivity.
Qed.

(** From [Dial]: the results decoded are those of the schedule, numbered
    from 0. *)
Lemma run_decodes_Dial (t0 : Z) (u : U) (es : list (event T)) (s : Conn T U) :
  run client io (Dial t0 u) es = Some s ->
  decodes (history s) = numbered 0 (reads es) /\
  nread s = List.length (reads es).
Proof. intros E. exact (run_decodes es _ s E). Qed.



End Routing.



Section Blocked.
Context {T U : Type}.
Variable client : Client T U.
Variable io : Stream U.

Lemma cmd_returns_app (h d : list (obs T)) :
  cmd_returns (h ++ d) = cmd_returns h ++ cmd_returns d.
Proof. unfold cmd_returns. apply flat_map_app. Qed.

(** Once [spin] has left its loop, a caller in the receive of [cmd] stays
    there: nothing sends on [readCh] any more, and nothing closes it. *)
Lemma step_blocked (s s' : Conn T U) (e : event T) (since : Z) :
  loop_over s -> caller s = AtRecv since ->
  step client io s e = Some s' ->
  loop_over s' /\ caller s' = AtRecv since /\
  cmd_returns (history s') = cmd_returns (history s).
Proof.
  unfold loop_over. intros L C E.
  destruct e; cbn in E; rewrite ?C in E; try discriminate.
  - destruct (0 <=? d); [ | discriminate ].
    injection E as <-. cbn. auto.
  - destruct L as [L | [L | [m L]]]; rewrite L in E; discriminate.
  - destruct L as [L | [L | [m L]]]; rewrite L in E; discriminate.
  - destruct L as [L | [L | [m L]]]; rewrite L in E; discriminate.
  - destruct L as [L | [L | [m L]]]; rewrite L in E; discriminate.
  - destruct L as [L | [L | [m L]]]; rewrite L in E; try discriminate.
    unfold spin_exit in E. destruct (close (PushCh s)); injection E as <-; cbn;
      (split; [ | auto ]); [ right; left; reflexivity | right; right; eauto ].
  - injection E as <-. cbn. auto.
Qed.

Lemma run_blocked (es : list (event T)) :
  forall (s s' : Conn T U) (since : Z),
    loop_over s -> caller s = AtRecv since ->
    run client io s es = Some s' ->
    loop_over s' /\ caller s' = AtRecv since /\
    cmd_returns (history s') = cmd_returns (history s).
Proof.
  induction es as [ | e es IH ]; intros s s' since L C E; cbn in E.
  - injection E as <-. auto.
  - destruct (step client io s e) as [s1 | ] eqn:E1; [ | discriminate ].
    destruct (step_blocked s s1 e since L C E1) as (L1 & C1 & H1).
    destruct (IH s1 s' since L1 C1 E) as (L2 & C2 & H2).
    repeat split; congruence.
Qed.

End Blocked.

(** C4, as the claim states it, fails.  On the client of the example:
    [Read] returns the error of a closed stream with [die] set, nobody
    takes it within the two seconds, and [spin] leaves its loop; a [Cmd]
    called then, before [spin] has closed the stream, writes and flushes
    and waits on [readCh]; [spin] closes the stream and [PushCh] and
    returns.  From there on, whatever happens, that [Cmd] has not returned
    and is still in its receive. *)
Lemma C4_Cmd_waits_forever_on_closed_session :
  exists s,
    run Example.ExClient Example.tcp (Dial 0 Example.wire0)
      [ReadReturns Example.EOF; Tick (2 * Second); Timeout;
       CallCmd (Some "OHAI"%string); SpinExit] = Some s /\
    loop s = Exited /\ connClosed s = true /\ PushCh s = Closed /\
    caller s = AtRecv (2 * Second) /\ cmd_returns (history s) = [] /\
    forall es s',
      run Example.ExClient Example.tcp s es = Some s' ->
      caller s' = AtRecv (2 * Second) /\ cmd_returns (history s') = [].
Proof.
  eexists. split; [ vm_compute; reflexivity | ].
  do 5 (split; [ reflexivity | ]).
  intros es s' H.
  eapply run_blocked in H; [ | right; left; reflexivity | reflexivity ].
  destruct H as (_ & C & E). split; [ exact C | exact E ].
Qed.

(** C4, amended.  A [Cmd] called once [spin] has left its loop returns
    only by a failure of its own write or flush, with that error: the
    error of [Write] with the flag [Write] gave, or the error of [Flush]
    with [closed = true].  The session makes up no error of its own: when
    write and flush succeed the call waits in its receive from [readCh],
    and no later event makes it return. *)
Theorem C4_Cmd_after_loop_exit :
  forall (T U : Type) (client : Client T U) (io : Stream U)
         (s : Conn T U) (c : iface T),
    loop_over s -> caller s = Idle ->
    exists s1,
      step client io s (CallCmd c) = Some s1 /\ loop s1 = loop s /\
      ((exists e d u1,
           Write client c (world s) = ((Some e, d), u1) /\
           caller s1 = Idle /\
           history s1 = history s ++ [CmdReturns None (Some e) d (now s)]) \/
       (exists d u1 e u2,
           Write client c (world s) = ((None, d), u1) /\
           Flush io u1 = (Some e, u2) /\
           caller s1 = Idle /\
           history s1 = history s ++ [CmdReturns None (Some e) true (now s)]) \/
       (exists d u1 u2,
           Write client c (world s) = ((None, d), u1) /\
           Flush io u1 = (None, u2) /\
           caller s1 = AtRecv (now s) /\ history s1 = history s /\
           forall es s2,
             run client io s1 es = Some s2 ->
             caller s2 = AtRecv (now s) /\
             cmd_returns (history s2) = cmd_returns (history s))).
Proof.
  intros T U client io s c L C.
  unfold step. rewrite C. unfold Cmd, cmd.
  destruct (Write client c (world s)) as [[e d] u1] eqn:EW.
  destruct e as [e | ]; cbn.
  - eexists. split; [ reflexivity | ]. split; [ reflexivity | ].
    left. exists e, d, u1. auto.
  - destruct (Flush io u1) as [e u2] eqn:EF.
    destruct e as [e | ]; cbn.
    + eexists. split; [ reflexivity | ]. split; [ reflexivity | ].
      right; left. exists d, u1, e, u2.
      split; [ reflexivity | ]. split; [ exact EF | ]. split; reflexivity.
    + eexists. split; [ reflexivity | ]. split; [ reflexivity | ].
      right; right. exists d, u1, u2.
      split; [ reflexivity | ]. split; [ exact EF | ].
      split; [ reflexivity | ]. split; [ reflexivity | ].
      intros es s2 H.
      eapply run_blocked in H; [ | exact L | reflexivity ].
      destruct H as (_ & C2 & E2). split; [ exact C2 | exact E2 ].
Qed.

(** The session of the example after the end of the stream, with [spin]
    returned: the [Cmd] comes back with the error of its flush. *)
Lemma C4_Cmd_after_loop_exit_witness :
  exists s,
    run Example.ExClient Example.tcp (Dial 0 Example.wire0)
      [ReadReturns Example.EOF; Tick (2 * Second); Timeout; SpinExit] = Some s /\
    loop_over s /\ caller s = Idle /\
    exists s1,
      step Example.ExClient Example.tcp s (CallCmd (Some "OHAI"%string)) = Some s1 /\
      loop s1 = loop s /\
      cmd_returns (history s1) = [(None, Some Example.use_of_closed, true)].
Proof.
  eexists. split; [ vm_compute; reflexivity | ].
  split; [ right; left; reflexivity | ]. split; [ reflexivity | ].
  destruct (C4_Cmd_after_loop_exit string Example.Wire Example.ExClient Example.tcp
              (mkConn (2 * Second) Exited Idle
                 (Example.mkWire "" "" true None) true Closed 1
                 [Decoded 0 Example.EOF 0; Offered 0 Example.EOF 0;
                  Discarded 0 Example.EOF (2 * Second)])
              (Some "OHAI"%string)
              (or_intror (or_introl eq_refl)) eq_refl)
    as (s1 & E1 & L1 & _).
  exists s1. split; [ exact E1 | ]. split; [ exact L1 | ].
  vm_compute in E1. injection E1 as <-. reflexivity.
Defined.

Section Timing.
Context {T U : Type}.
Variable client : Client T U.
Variable io : Stream U.


(** Membership in a history extended by a step. *)
Ltac in_new H :=
  apply in_app_iff in H; destruct H as [H | H];
  [ | cbn in H;
      repeat (destruct H as [H | H]; [ try discriminate H | ]);
      try contradiction H ].






End Timing.




End ClientFacts.

(** * Further properties: the example collaborators *)

Module LinesFacts.
Import Example Lines.
Local Open Scope string_scope.

#[local] Arguments len : simpl never.
#[local] Arguments Available : simpl never.

Lemma append_assoc (a b c : string) : (a ++ b) ++ c = a ++ (b ++ c).
Proof. induction a as [ | x a IH ]; cbn; [ reflexivity | rewrite IH; reflexivity ]. Qed.

Lemma append_nil_r (a : string) : a ++ "" = a.
Proof. induction a as [ | x a IH ]; cbn; [ reflexivity | rewrite IH; reflexivity ]. Qed.

Lemma is_empty_line (a : string) : is_empty (a ++ LF) = false.
Proof. destruct a; reflexivity. Qed.

Lemma len_append (a b : string) : len (a ++ b) = len a + len b.
Proof.
  unfold len. induction a as [ | x a IH ]; [ reflexivity | ].
  cbn [String.append String.length]. lia.
Qed.

Lemma len_nonneg (a : string) : 0 <= len a.
Proof. unfold len. lia. Qed.

Lemma len_empty : len "" = 0.
Proof. reflexivity. Qed.

Lemma len_String (c : ascii) (a : string) : len (String c a) = 1 + len a.
Proof. unfold len. cbn [String.length]. lia. Qed.

Lemma len_LF : len LF = 1.
Proof. reflexivity. Qed.

Lemma split_at_app (n : nat) (p : string) :
  fst (split_at n p) ++ snd (split_at n p) = p.
Proof.
  revert p. induction n as [ | n IH ]; intros p; [ destruct p; reflexivity | ].
  destruct p as [ | c p ]; [ reflexivity | ].
  cbn [split_at]. specialize (IH p). destruct (split_at n p) as [a b].
  cbn in *. rewrite IH. reflexivity.
Qed.

Lemma split_at_0 (p : string) : split_at 0 p = ("", p).
Proof. destruct p; reflexivity. Qed.

(** The loop of [Write], one turn unfolded. *)
Lemma buf_Write_loop_eq (turns : nat) (p : string) (w : Wire) :
  buf_Write_loop turns p w
  = if negb (is_nil (werr w)) then (werr w, w) else
    if (len p <=? Available w)%Z then (None, buf_copy p w) else
    match turns with
    | O => (None, w)
    | S turns' =>
        if is_empty (buffered w) then
          buf_Write_loop turns' "" (conn_Write p w)
        else
          let '(p1, p2) := split_at (Z.to_nat (Available w)) p in
          buf_Write_loop turns' p2 (snd (buf_Flush (buf_copy p1 w)))
    end.
Proof. destruct turns; reflexivity. Qed.

(** Bytes that fit the buffer are copied into it. *)
Lemma buf_Write_loop_fits (turns : nat) (p : string) (w : Wire) :
  werr w = None -> len p <= Available w ->
  buf_Write_loop turns p w = (None, buf_copy p w).
Proof.
  intros He Hl. rewrite buf_Write_loop_eq, He. cbn [is_nil negb].
  destruct (len p <=? Available w)%Z eqn:F; [ reflexivity | ].
  apply Z.leb_gt in F. lia.
Qed.

(** A writer with an error returns it and does nothing. *)
Lemma buf_Write_loop_failed (turns : nat) (p : string) (w : Wire) (e : string) :
  werr w = Some e -> buf_Write_loop turns p w = (Some e, w).
Proof. intros He. rewrite buf_Write_loop_eq, He. reflexivity. Qed.

Lemma Available_empty (se : string) (cl : bool) (we : error) :
  Available (mkWire "" se cl we) = buf_size.
Proof. reflexivity. Qed.

(** Two turns are enough: more turns change nothing, whatever the writer
    and the bytes. *)
Lemma buf_Write_loop_turns (turns : nat) (p : string) (w : Wire) :
  buf_Write_loop (2 + turns) p w = buf_Write p w.
Proof.
  assert (D : forall n m q v, buffered v = "" \/ werr v <> None -> q = "" ->
              buf_Write_loop n q v = buf_Write_loop m q v).
  { intros n m q v Hv ->. rewrite (buf_Write_loop_eq n), (buf_Write_loop_eq m).
    destruct (werr v) as [e | ] eqn:He; [ reflexivity | ]. cbn [is_nil negb].
    destruct Hv as [Hb | Hb]; [ | destruct (Hb eq_refl) ].
    destruct v as [bu se cl we]. cbn in Hb. subst bu.
    rewrite Available_empty. reflexivity. }
  assert (F : forall v, buffered v <> "" -> werr v = None ->
              buffered (snd (buf_Flush v)) = "" \/ werr (snd (buf_Flush v)) <> None).
  { intros [bu se cl we] Hb He. cbn in Hb, He. subst we. unfold buf_Flush.
    cbn [werr is_nil negb buffered closed].
    destruct bu as [ | c bu ]; [ destruct (Hb eq_refl) | ]. cbn [is_empty].
    destruct cl; cbn; [ right; discriminate | left; reflexivity ]. }
  assert (C : forall q v, buffered v = "" ->
              buffered (conn_Write q v) = "" \/ werr (conn_Write q v) <> None).
  { intros q [bu se cl we] Hb. cbn in Hb. subst bu. unfold conn_Write. cbn.
    destruct cl; cbn; [ right; discriminate | left; reflexivity ]. }
  assert (E : forall n q v, buffered v = "" \/ werr v <> None ->
              buf_Write_loop (S n) q v = buf_Write_loop 1 q v).
  { intros n q v Hv. rewrite (buf_Write_loop_eq (S n)), (buf_Write_loop_eq 1).
    destruct (werr v) as [e | ] eqn:He; [ reflexivity | ]. cbn [is_nil negb].
    destruct Hv as [Hb | Hb]; [ | destruct (Hb eq_refl) ].
    destruct (len q <=? Available v)%Z; [ reflexivity | ].
    rewrite Hb. cbn [is_empty]. apply D; [ apply C; exact Hb | reflexivity ]. }
  unfold buf_Write. change (2 + turns)%nat with (S (S turns)).
  rewrite (buf_Write_loop_eq (S (S turns))), (buf_Write_loop_eq 2).
  destruct (werr w) as [e | ] eqn:He; [ reflexivity | ]. cbn [is_nil negb].
  destruct (len p <=? Available w)%Z; [ reflexivity | ].
  destruct (is_empty (buffered w)) eqn:Em.
  - apply D; [ | reflexivity ]. apply C. destruct (buffered w); [ reflexivity | discriminate Em ].
  - destruct (split_at (Z.to_nat (Available w)) p) as [p1 p2].
    apply E. apply F.
    + unfold buf_copy. cbn [buffered]. destruct (buffered w); [ discriminate Em | discriminate ].
    + unfold buf_copy. cbn [werr]. exact He.
Qed.

(** On a stream in working order [Flush] sends what is in the buffer. *)
Lemma buf_Flush_ok (w : Wire) :
  closed w = false -> werr w = None ->
  buf_Flush w = (None, mkWire "" (written w) false None).
Proof.
  destruct w as [bu se cl we]. cbn [closed werr]. intros -> ->.
  unfold buf_Flush, written. cbn [werr is_nil negb buffered closed sent].
  destruct bu as [ | c bu ]; cbn [is_empty]; [ | reflexivity ].
  rewrite append_nil_r. reflexivity.
Qed.

(** On a stream in working order [Write] gives no error, leaves the
    stream in working order, and adds its bytes to those the writer has
    been given, whatever their number. *)
Lemma buf_Write_ok (p : string) (w : Wire) :
  closed w = false -> werr w = None ->
  exists w',
    buf_Write p w = (None, w') /\ closed w' = false /\ werr w' = None /\
    written w' = written w ++ p.
Proof.
  destruct w as [bu se cl we]. cbn [closed werr]. intros -> ->.
  unfold buf_Write. rewrite buf_Write_loop_eq. cbn [werr is_nil negb].
  destruct (len p <=? Available (mkWire bu se false None))%Z eqn:F.
  - eexists. split; [ reflexivity | ]. unfold buf_copy, written. cbn.
    repeat split. rewrite append_assoc. reflexivity.
  - cbn [buffered]. destruct bu as [ | c bu ]; cbn [is_empty].
    + unfold conn_Write. cbn [closed buffered sent werr].
      rewrite buf_Write_loop_fits;
        [ | reflexivity | rewrite Available_empty, len_empty; unfold buf_size; lia ].
      eexists. split; [ reflexivity | ]. unfold buf_copy, written. cbn.
      repeat split. rewrite !append_nil_r. reflexivity.
    + pose proof (split_at_app (Z.to_nat (Available (mkWire (String c bu) se false None))) p)
        as Sp.
      destruct (split_at (Z.to_nat (Available (mkWire (String c bu) se false None))) p)
        as [p1 p2].
      cbn [fst snd] in Sp. subst p.
      unfold buf_copy. cbn [buffered sent closed werr].
      unfold buf_Flush. cbn [werr is_nil negb buffered closed sent String.append is_empty snd].
      rewrite buf_Write_loop_eq. cbn [werr is_nil negb].
      destruct (len p2 <=? Available (mkWire "" (se ++ String c (bu ++ p1)) false None))%Z.
      * eexists. split; [ reflexivity | ]. unfold buf_copy, written.
        cbn [buffered sent closed werr]. repeat split.
        change (String c (bu ++ p1)) with (String c bu ++ p1).
        change ("" ++ p2) with p2. rewrite !append_assoc. reflexivity.
      * cbn [buffered is_empty]. unfold conn_Write. cbn [closed buffered sent werr].
        rewrite buf_Write_loop_fits;
          [ | reflexivity | rewrite Available_empty, len_empty; unfold buf_size; lia ].
        eexists. split; [ reflexivity | ]. unfold buf_copy, written.
        cbn [buffered sent closed werr]. repeat split.
        change (String c (bu ++ p1)) with (String c bu ++ p1).
        change ("" ++ "") with "". rewrite !append_assoc, !append_nil_r. reflexivity.
Qed.

(** [ExClient.Write] and [ExServerClient.Write] give the writer the
    item and a newline. *)
Lemma ExClient_Write_ok (b : string) (w : Wire) :
  closed w = false -> werr w = None ->
  exists w',
    ExClient_Write (Some b) w = ((None, false), w') /\ closed w' = false /\
    werr w' = None /\ written w' = written w ++ b ++ LF.
Proof.
  intros Hc He. unfold ExClient_Write. cbn [bytes_of].
  destruct (buf_Write_ok b w Hc He) as (w1 & E1 & C1 & R1 & W1). rewrite E1.
  cbn [is_nil negb].
  destruct (buf_Write_ok LF w1 C1 R1) as (w2 & E2 & C2 & R2 & W2). rewrite E2.
  cbn [is_nil negb]. exists w2. split; [ reflexivity | ].
  split; [ exact C2 | ]. split; [ exact R2 | ].
  rewrite W2, W1, append_assoc. reflexivity.
Qed.

Lemma ExServerClient_Write_ok (b : string) (w : Wire) :
  closed w = false -> werr w = None ->
  exists w',
    ExServerClient_Write (Some b) w = (false, w') /\ closed w' = false /\
    werr w' = None /\ written w' = written w ++ b ++ LF.
Proof.
  intros Hc He. unfold ExServerClient_Write. cbn [bytes_of].
  destruct (buf_Write_ok b w Hc He) as (w1 & E1 & C1 & R1 & W1). rewrite E1.
  cbn [is_nil negb].
  destruct (buf_Write_ok LF w1 C1 R1) as (w2 & E2 & C2 & R2 & W2). rewrite E2.
  cbn [is_nil negb]. exists w2. split; [ reflexivity | ].
  split; [ exact C2 | ]. split; [ exact R2 | ].
  rewrite W2, W1, append_assoc. reflexivity.
Qed.

(** What [ExClient.Write] leaves in the buffer of a flushed writer, by
    the size of the item. *)
Lemma ExClient_Write_small (a : string) (se : string) :
  len a < buf_size ->
  ExClient_Write (Some a) (mkWire "" se false None)
  = ((None, false), mkWire (a ++ LF) se false None).
Proof.
  intros Hl. unfold ExClient_Write, buf_Write. cbn [bytes_of].
  rewrite buf_Write_loop_fits; [ | reflexivity | rewrite Available_empty; lia ].
  cbn [is_nil negb]. unfold buf_copy. cbn [buffered sent closed werr String.append].
  rewrite buf_Write_loop_fits;
    [ | reflexivity | unfold Available; cbn [buffered]; rewrite len_LF; lia ].
  reflexivity.
Qed.

Lemma ExClient_Write_large (a : string) (se : string) :
  buf_size <= len a ->
  ExClient_Write (Some a) (mkWire "" se false None)
  = ((None, false), mkWire LF (se ++ a) false None).
Proof.
  intros Hl. unfold ExClient_Write, buf_Write. cbn [bytes_of].
  destruct (Z.eq_dec (len a) buf_size) as [Heq | Hne].
  - (* the item fills the buffer; the newline has it flushed *)
    rewrite buf_Write_loop_fits; [ | reflexivity | rewrite Available_empty; lia ].
    cbn [is_nil negb]. unfold buf_copy. cbn [buffered sent closed werr String.append].
    rewrite buf_Write_loop_eq. cbn [werr is_nil negb].
    assert (Av : Available (mkWire a se false None) = 0)
      by (unfold Available; cbn [buffered]; lia).
    rewrite Av, len_LF. cbn [Z.leb Z.compare Z.to_nat buffered].
    destruct a as [ | c a ]; [ rewrite len_empty in Heq; discriminate Heq | ].
    cbn [is_empty]. rewrite split_at_0. cbv beta iota.
    unfold buf_copy, buf_Flush.
    cbn [werr is_nil negb buffered closed sent String.append is_empty snd].
    rewrite buf_Write_loop_fits;
      [ | reflexivity | rewrite Available_empty, len_LF; unfold buf_size; lia ].
    unfold buf_copy. cbn [buffered sent closed werr String.append].
    rewrite append_nil_r. reflexivity.
  - (* the item goes straight to the stream *)
    rewrite buf_Write_loop_eq. cbn [werr is_nil negb].
    rewrite Available_empty.
    destruct (len a <=? buf_size)%Z eqn:F; [ apply Z.leb_le in F; lia | ].
    cbn [buffered is_empty]. unfold conn_Write. cbn [closed buffered sent werr].
    rewrite buf_Write_loop_fits;
      [ | reflexivity | rewrite Available_empty, len_empty; unfold buf_size; lia ].
    cbn [is_nil negb]. unfold buf_copy. cbn [buffered sent closed werr String.append].
    rewrite buf_Write_loop_fits;
      [ | reflexivity | rewrite Available_empty, len_LF; unfold buf_size; lia ].
    reflexivity.
Qed.

Lemma ReadBytes_line (a rest : string) :
  occurs LFc a = false ->
  ReadBytes LFc (a ++ LF ++ rest) = (a ++ LF, None, rest).
Proof.
  induction a as [ | c a IH ]; cbn; intros H.
  - reflexivity.
  - apply orb_false_iff in H. destruct H as (Hc & Ha).
    rewrite Hc. cbn in IH. rewrite (IH Ha). reflexivity.
Qed.

Lemma ReadBytes_eof (a : string) :
  occurs LFc a = false ->
  ReadBytes LFc a = (a, Some io_EOF, "").
Proof.
  induction a as [ | c a IH ]; cbn; intros H.
  - reflexivity.
  - apply orb_false_iff in H. destruct H as (Hc & Ha).
    cbn in IH. rewrite Hc, (IH Ha). reflexivity.
Qed.

Lemma TrimRight_line (a : string) :
  occurs LFc a = false -> TrimRight (a ++ LF) LFc = a.
Proof.
  induction a as [ | c a IH ]; cbn; intros H.
  - reflexivity.
  - apply orb_false_iff in H. destruct H as (Hc & Ha).
    cbn in IH. rewrite (IH Ha). destruct a; [ rewrite Hc | ]; reflexivity.
Qed.

Lemma ExClient_Read_line (a rest : string) :
  occurs LFc a = false ->
  ExClient_Read (a ++ LF ++ rest) = ((Some a, None, false), rest).
Proof.
  intros H. unfold ExClient_Read. rewrite (ReadBytes_line a rest H).
  cbn [negb is_nil]. cbv beta iota. rewrite (TrimRight_line a H). reflexivity.
Qed.

Lemma ExServerClient_Read_line (a rest : string) :
  occurs LFc a = false ->
  ExServerClient_Read (a ++ LF ++ rest) = ((Some a, false), rest).
Proof.
  intros H. unfold ExServerClient_Read. rewrite (ReadBytes_line a rest H).
  cbn [negb is_nil]. cbv beta iota. rewrite (TrimRight_line a H). reflexivity.
Qed.

(** X1.  A line survives the trip, whatever its length.  On a stream in
    working order [ExClient.Write] returns no error for an item without a
    newline and gives the writer the item and a newline, which the next
    [Flush] has on the stream; [ExServerClient.Read] reads those bytes
    back as that item, leaving whatever follows them; and the same from
    [ExServerClient.Write] to [ExClient.Read]. *)
Theorem X1_line_round_trip :
  forall (it rest : string) (w : Wire),
    occurs LFc it = false ->
    closed w = false -> werr w = None ->
    fst (ExClient_Write (Some it) w) = (None, false) /\
    written (snd (ExClient_Write (Some it) w)) = written w ++ it ++ LF /\
    buf_Flush (snd (ExClient_Write (Some it) w))
    = (None, mkWire "" (written w ++ it ++ LF) false None) /\
    ExServerClient_Read ((it ++ LF) ++ rest) = ((Some it, false), rest) /\
    fst (ExServerClient_Write (Some it) w) = false /\
    written (snd (ExServerClient_Write (Some it) w)) = written w ++ it ++ LF /\
    buf_Flush (snd (ExServerClient_Write (Some it) w))
    = (None, mkWire "" (written w ++ it ++ LF) false None) /\
    ExClient_Read ((it ++ LF) ++ rest) = ((Some it, None, false), rest).
Proof.
  intros it rest w H Hc He.
  destruct (ExClient_Write_ok it w Hc He) as (w1 & E1 & C1 & R1 & W1).
  destruct (ExServerClient_Write_ok it w Hc He) as (w2 & E2 & C2 & R2 & W2).
  rewrite E1, E2. cbn [fst snd].
  rewrite (buf_Flush_ok w1 C1 R1), (buf_Flush_ok w2 C2 R2), W1, W2, append_assoc.
  rewrite (ExServerClient_Read_line it rest H), (ExClient_Read_line it rest H).
  repeat split.
Qed.

Lemma X1_line_round_trip_witness :
  occurs LFc "OHAI" = false /\ closed wire0 = false /\ werr wire0 = None /\
  buf_Flush (snd (ExClient_Write (Some "OHAI") wire0))
  = (None, mkWire "" (written wire0 ++ "OHAI" ++ LF) false None) /\
  ExServerClient_Read (("OHAI" ++ LF) ++ "NEXT") = ((Some "OHAI", false), "NEXT").
Proof.
  split; [ reflexivity | ]. split; [ reflexivity | ]. split; [ reflexivity | ].
  destruct (X1_line_round_trip "OHAI" "NEXT" wire0 eq_refl eq_refl eq_refl)
    as (_ & _ & H1 & H2 & _).
  split; [ exact H1 | exact H2 ].
Defined.

(** X2.  An item with a newline inside does not survive the line
    protocol: the bytes [ExClient.Write] gives the writer for [a], a
    newline and [b] are read as the command [a] and then as the command
    [b]. *)
Theorem X2_newline_splits_an_item :
  forall (a b rest : string) (w : Wire),
    occurs LFc a = false -> occurs LFc b = false ->
    closed w = false -> werr w = None ->
    fst (ExClient_Write (Some (a ++ LF ++ b)) w) = (None, false) /\
    written (snd (ExClient_Write (Some (a ++ LF ++ b)) w))
    = written w ++ (a ++ LF ++ b) ++ LF /\
    ExServerClient_Read (((a ++ LF ++ b) ++ LF) ++ rest)
    = ((Some a, false), b ++ LF ++ rest) /\
    ExServerClient_Read (b ++ LF ++ rest) = ((Some b, false), rest).
Proof.
  intros a b rest w Ha Hb Hc He.
  destruct (ExClient_Write_ok (a ++ LF ++ b) w Hc He) as (w1 & E1 & C1 & R1 & W1).
  rewrite E1. cbn [fst snd]. rewrite W1, !append_assoc.
  rewrite (ExServerClient_Read_line a _ Ha), (ExServerClient_Read_line b _ Hb).
  repeat split.
Qed.

Lemma X2_newline_splits_an_item_witness :
  occurs LFc "GET" = false /\ occurs LFc "SET" = false /\
  closed wire0 = false /\ werr wire0 = None /\
  written (snd (ExClient_Write (Some ("GET" ++ LF ++ "SET")) wire0))
  = written wire0 ++ ("GET" ++ LF ++ "SET") ++ LF /\
  ExServerClient_Read ((("GET" ++ LF ++ "SET") ++ LF) ++ "")
  = ((Some "GET", false), "SET" ++ LF ++ "").
Proof.
  split; [ reflexivity | ]. split; [ reflexivity | ].
  split; [ reflexivity | ]. split; [ reflexivity | ].
  destruct (X2_newline_splits_an_item "GET" "SET" "" wire0 eq_refl eq_refl
              eq_refl eq_refl) as (_ & H1 & H2 & _).
  split; [ exact H1 | exact H2 ].
Defined.

(** X3.  At the end of the stream the three [Read]s give up: bytes that
    are not followed by a newline are dropped, the error is [io.EOF], and
    the flag asks for the connection to be closed.  This holds of an empty
    rest as well. *)
Theorem X3_unterminated_rest_is_dropped :
  forall s : string,
    occurs LFc s = false ->
    ExClient_Read s = ((None, Some io_EOF, true), "") /\
    RawTcp_Read s = ((None, Some io_EOF, true), "") /\
    ExServerClient_Read s = ((None, true), "").
Proof.
  intros s H. unfold ExClient_Read, RawTcp_Read, ExServerClient_Read.
  rewrite (ReadBytes_eof s H). repeat split.
Qed.

Lemma X3_unterminated_rest_is_dropped_witness :
  occurs LFc "OHA" = false /\
  ExClient_Read "OHA" = ((None, Some io_EOF, true), "").
Proof.
  split; [ reflexivity | ].
  exact (proj1 (X3_unterminated_rest_is_dropped "OHA" eq_refl)).
Defined.

(** X4.  [RawTcp.Read] hands on the line with its newline, where
    [ExClient.Read] trims it: for a line [a] the first returns [a] and the
    newline, the second [a]. *)
Theorem X4_RawTcp_keeps_the_newline :
  forall a rest : string,
    occurs LFc a = false ->
    RawTcp_Read (a ++ LF ++ rest) = ((Some (a ++ LF), None, false), rest) /\
    ExClient_Read (a ++ LF ++ rest) = ((Some a, None, false), rest).
Proof.
  intros a rest H. split; [ | apply ExClient_Read_line; exact H ].
  unfold RawTcp_Read. rewrite (ReadBytes_line a rest H). reflexivity.
Qed.

Lemma X4_RawTcp_keeps_the_newline_witness :
  occurs LFc "~OHAI" = false /\
  RawTcp_Read ("~OHAI" ++ LF ++ "") = ((Some ("~OHAI" ++ LF), None, false), "").
Proof.
  split; [ reflexivity | ].
  exact (proj1 (X4_RawTcp_keeps_the_newline "~OHAI" "" eq_refl)).
Defined.

(** X5.  An empty line crashes the client of the example: [Read] returns
    it as an empty item without error, so [spin] goes on to call [IsPush],
    whose [l[0]] is out of range.  On every other item that is not [nil]
    [IsPush] answers whether the first byte differs from the tilde. *)
Theorem X5_empty_line_panics_in_IsPush :
  (forall rest : string,
      ExClient_Read (LF ++ rest) = ((Some "", None, false), rest) /\
      IsPush_go (fst (fst (fst (ExClient_Read (LF ++ rest))))) = Panic index_out_of_range) /\
  (forall (c : ascii) (x : string),
      IsPush_go (Some (String c x)) = Ret (negb (Ascii.eqb c "~"%char)) /\
      ExClient_IsPush (Some (String c x)) = negb (Ascii.eqb c "~"%char)).
Proof.
  split.
  - intros rest. split; reflexivity.
  - intros c x. split; reflexivity.
Qed.

End LinesFacts.

(** * Further properties: client and server of the example, end to end *)

Module EndToEnd.
Import Example Lines LinesFacts.
Local Open Scope string_scope.

#[local] Arguments len : simpl never.
#[local] Arguments Available : simpl never.

Lemma written_flushed (se : string) : written (mkWire "" se false None) = se.
Proof. unfold written. cbn. apply append_nil_r. Qed.

(** [Cmd] on the client of the example, the stream in working order:
    item and newline are written and flushed, and the call waits. *)
Lemma Cmd_ExClient (b : string) (w : Wire) :
  closed w = false -> werr w = None ->
  Client.Cmd ExClient tcp (Some b) w
  = (Client.Receiving, mkWire "" (written w ++ b ++ LF) false None).
Proof.
  intros Hc He. unfold Client.Cmd, Client.cmd.
  change (Client.Write ExClient) with ExClient_Write.
  destruct (ExClient_Write_ok b w Hc He) as (w1 & E1 & C1 & R1 & W1). rewrite E1.
  cbn [negb is_nil]. change (Flush tcp) with buf_Flush.
  rewrite (buf_Flush_ok w1 C1 R1), W1. reflexivity.
Qed.

(** [CmdBg] returns after the write. *)
Lemma CmdBg_ExClient (a : string) (w : Wire) :
  Client.CmdBg ExClient tcp (Some a) w
  = (match fst (fst (ExClient_Write (Some a) w)) with
     | Some e => Some (Some e, snd (fst (ExClient_Write (Some a) w)))
     | None => Some (None, false)
     end, snd (ExClient_Write (Some a) w)).
Proof.
  unfold Client.CmdBg, Client.cmd.
  change (Client.Write ExClient) with ExClient_Write.
  destruct (ExClient_Write (Some a) w) as [[e d] w1]. destruct e; reflexivity.
Qed.

(** X6.  On the client of the example a background command is on the
    stream in full only with the next [Cmd].  From a flushed writer,
    [CmdBg] of an item shorter than the 4096 bytes of the buffer leaves
    item and newline in the buffer and nothing on the stream; of a longer
    item, or one of just that size, it has the item on the stream and
    leaves the newline in the buffer.  Either way it returns [nil] and
    [false], and the flush of the following [Cmd] completes the line and
    sends the line of that [Cmd] after it.  The bound on the turns of the
    loop of [bufio.Writer.Write] is no restriction: more turns give the
    same result. *)
Theorem X6_CmdBg_is_sent_with_the_next_Cmd :
  forall (a b : string) (w : Wire),
    flushed w ->
    ((len a < buf_size)%Z ->
     Client.CmdBg ExClient tcp (Some a) w
     = (Some (None, false), mkWire (a ++ LF) (sent w) false None)) /\
    ((buf_size <= len a)%Z ->
     Client.CmdBg ExClient tcp (Some a) w
     = (Some (None, false), mkWire LF (sent w ++ a) false None)) /\
    Client.Cmd ExClient tcp (Some b) (snd (Client.CmdBg ExClient tcp (Some a) w))
    = (Client.Receiving, mkWire "" (sent w ++ a ++ LF ++ b ++ LF) false None) /\
    (forall (turns : nat) (p : string) (v : Wire),
        buf_Write_loop (2 + turns) p v = buf_Write p v).
Proof.
  intros a b [bu se cl we] (Hb & Hc & He). cbn in Hb, Hc, He. subst.
  cbn [sent].
  split; [ intros Hl; rewrite CmdBg_ExClient, (ExClient_Write_small a se Hl); reflexivity | ].
  split; [ intros Hl; rewrite CmdBg_ExClient, (ExClient_Write_large a se Hl); reflexivity | ].
  split; [ | apply buf_Write_loop_turns ].
  rewrite CmdBg_ExClient. cbn [snd].
  destruct (ExClient_Write_ok a (mkWire "" se false None) eq_refl eq_refl)
    as (w1 & E1 & C1 & R1 & W1).
  rewrite E1. cbn [snd]. rewrite (Cmd_ExClient b w1 C1 R1), W1, written_flushed.
  rewrite !append_assoc. reflexivity.
Qed.

Lemma X6_CmdBg_is_sent_with_the_next_Cmd_witness :
  flushed wire0 /\ (len "FIRST" < buf_size)%Z /\
  Client.CmdBg ExClient tcp (Some "FIRST") wire0
  = (Some (None, false), mkWire ("FIRST" ++ LF) (sent wire0) false None) /\
  Client.Cmd ExClient tcp (Some "SECOND")
    (snd (Client.CmdBg ExClient tcp (Some "FIRST") wire0))
  = (Client.Receiving,
     mkWire "" (sent wire0 ++ "FIRST" ++ LF ++ "SECOND" ++ LF) false None).
Proof.
  split; [ repeat split | ]. split; [ reflexivity | ].
  destruct (X6_CmdBg_is_sent_with_the_next_Cmd "FIRST" "SECOND" wire0
              (conj eq_refl (conj eq_refl eq_refl))) as (H1 & _ & H2 & _).
  split; [ apply H1; reflexivity | exact H2 ].
Defined.

(** [ListenerConn.write] of the example on a stream in working order:
    item and newline are written and flushed. *)
Lemma write_line (x : string) (cc scn g : bool) (cch pch : chan) (w : Wire)
      (tr : list (Server.action string)) :
  closed w = false -> werr w = None ->
  Server.write ExServerClient tcp (Some x) (Server.mkLC cc w scn cch pch g tr)
  = (Ret false,
     Server.mkLC cc (mkWire "" (written w ++ x ++ LF) false None) scn cch pch g
       (tr ++ [Server.CallWrite (Some x); Server.CallFlush])).
Proof.
  intros Hc He.
  unfold Server.write, Server.bind, Server.log, Server.call, Server.ret.
  cbn [Server.world Server.connClosed Server.serverClientNil Server.CloseCh
       Server.PushCh Server.grounding Server.trace].
  change (Server.Write ExServerClient) with ExServerClient_Write.
  destruct (ExServerClient_Write_ok x w Hc He) as (w1 & E1 & C1 & R1 & W1).
  rewrite E1.
  cbn [Server.world Server.connClosed Server.serverClientNil Server.CloseCh
       Server.PushCh Server.grounding Server.trace].
  change (Flush tcp) with buf_Flush. rewrite (buf_Flush_ok w1 C1 R1), W1.
  cbn [negb is_nil]. rewrite <- app_assoc. reflexivity.
Qed.

#[local] Arguments Server.write : simpl never.

(** The arbitration loop of the example on a command: the handler's
    answer goes out as one line, and the next read is started. *)
Lemma server_answers (c : string) (er : error) (needsRead cc scn g : bool)
      (cch pch : chan) (w : Wire) (tr : list (Server.action string)) :
  closed w = false -> werr w = None ->
  Server.A.spin_step ExServerClient tcp
    (Server.Selecting needsRead, Server.mkLC cc w scn cch pch g tr)
    (Server.SelectRead (mkReadWrap (Some c) er false))
  = Some (Server.Selecting false,
          Server.mkLC cc (mkWire "" (written w ++ ("~" ++ c) ++ LF) false None)
            scn cch pch g
            (tr ++ [Server.CallHandleCmd (Some c); Server.CallWrite (Some ("~" ++ c));
                    Server.CallFlush; Server.GoRead])).
Proof.
  intros Hc He.
  unfold Server.A.spin_step, Server.step. cbn [Server.enabled].
  unfold Server.turn, Server.select_case, Server.A.on_read. cbn [die item].
  unfold Server.handle.
  unfold Server.bind at 1 2 3 4. unfold Server.log at 1. unfold Server.bind at 1.
  unfold Server.call at 1.
  cbn [Server.world Server.connClosed Server.serverClientNil Server.CloseCh
       Server.PushCh Server.grounding Server.trace
       Server.HandleCmd ExServerClient ExServerClient_HandleCmd bytes_of].
  rewrite (write_line ("~" ++ c) cc scn g cch pch w _ Hc He).
  cbn. unfold Server.bind, Server.log, Server.ret. cbn.
  rewrite <- !app_assoc. reflexivity.
Qed.

(** The arbitration loop of the example on a pushed item: it goes out as
    one line. *)
Lemma server_pushes (x : string) (needsRead cc scn g : bool) (cch : chan)
      (w : Wire) (tr : list (Server.action string)) :
  closed w = false -> werr w = None ->
  Server.A.spin_step ExServerClient tcp
    (Server.Selecting needsRead, Server.mkLC cc w scn cch Open g tr)
    (Server.SelectPush (Some x))
  = Some (Server.Selecting false,
          Server.mkLC cc (mkWire "" (written w ++ x ++ LF) false None) scn cch Open g
            (tr ++ [Server.CallWrite (Some x); Server.CallFlush]
                ++ (if needsRead then [Server.GoRead] else []))).
Proof.
  intros Hc He.
  unfold Server.A.spin_step, Server.step. cbn [Server.enabled Server.PushCh chan_eqb].
  unfold Server.turn, Server.select_case.
  unfold Server.bind at 1 2.
  rewrite (write_line x cc scn g cch Open w _ Hc He).
  destruct needsRead; cbn; unfold Server.bind, Server.log, Server.ret; cbn;
    rewrite <- ?app_assoc, ?app_nil_r; reflexivity.
Qed.

Lemma server_begins (w : Wire) :
  Server.A.spin_step ExServerClient tcp (Server.Spawned, Server.fresh w) Server.Begin
  = Some (Server.Selecting false,
          Server.mkLC false w false Open Open false [Server.GoRead]).
Proof. reflexivity. Qed.

Lemma spin_cons (s : Server.pc * Server.ListenerConn string Wire)
      (e : Server.event string) (es : list (Server.event string)) :
  Server.A.spin ExServerClient tcp s (e :: es)
  = match Server.A.spin_step ExServerClient tcp s e with
    | Some s' => Server.A.spin ExServerClient tcp s' es
    | None => None
    end.
Proof. reflexivity. Qed.

Lemma run_cons (s : Client.Conn string Wire)
      (e : Client.event string) (es : list (Client.event string)) :
  Client.run ExClient tcp s (e :: es)
  = match Client.step ExClient tcp s e with
    | Some s' => Client.run ExClient tcp s' es
    | None => None
    end.
Proof. reflexivity. Qed.

Lemma client_calls_Cmd (b : string) (w : Wire) (t : Z) (lp : Client.spin_pc string)
      (cc : bool) (pch : chan) (n : nat) (h : list (Client.obs string)) :
  closed w = false -> werr w = None ->
  Client.step ExClient tcp (Client.mkConn t lp Client.Idle w cc pch n h)
    (Client.CallCmd (Some b))
  = Some (Client.mkConn t lp (Client.AtRecv t)
            (mkWire "" (written w ++ b ++ LF) false None) cc pch n h).
Proof.
  intros Hc He. unfold Client.step. cbn [Client.caller Client.world].
  rewrite (Cmd_ExClient b w Hc He). reflexivity.
Qed.

Lemma client_calls_CmdBg (a : string) (w : Wire) (t : Z) (lp : Client.spin_pc string)
      (cc : bool) (pch : chan) (n : nat) (h : list (Client.obs string)) :
  closed w = false -> werr w = None ->
  exists w1,
    Client.step ExClient tcp (Client.mkConn t lp Client.Idle w cc pch n h)
      (Client.CallCmdBg (Some a))
    = Some (Client.mkConn t lp Client.Idle w1 cc pch n
              (h ++ [Client.CmdBgReturns None false t])) /\
    closed w1 = false /\ werr w1 = None /\ written w1 = written w ++ a ++ LF.
Proof.
  intros Hc He. unfold Client.step. cbn [Client.caller Client.world].
  rewrite CmdBg_ExClient.
  destruct (ExClient_Write_ok a w Hc He) as (w1 & E1 & C1 & R1 & W1).
  rewrite E1. exists w1. cbn [fst snd Client.now]. auto.
Qed.

Lemma occurs_tilde (c : string) :
  occurs LFc c = false -> occurs LFc ("~" ++ c) = false.
Proof. intros H. cbn. cbn in H. rewrite H. reflexivity. Qed.

Lemma read_line (a rest : string) :
  occurs LFc a = false ->
  read (a ++ LF ++ rest) = (mkReadWrap (Some a) None false, rest).
Proof. intros H. unfold read. rewrite (ExServerClient_Read_line a rest H). reflexivity. Qed.

Lemma client_read_line (a rest : string) :
  occurs LFc a = false ->
  client_read (a ++ LF ++ rest) = (mkReadWrap (Some a) None false, rest).
Proof. intros H. unfold client_read. rewrite (ExClient_Read_line a rest H). reflexivity. Qed.

(** X7.  The exchange of the example, for every command [c] without a
    newline: the client's [Cmd] writes and flushes the line of [c] and
    waits; the server reads [c] off those bytes, its handler answers with
    [c] behind a tilde, and the loop writes the answer and goes on to the
    next read; the client reads the answer off the server's bytes, finds
    that it is no push, and hands it to the waiting [Cmd], which returns
    it with no error and [closed = false]. *)
Theorem X7_Cmd_returns_the_answer_of_the_handler :
  forall c : string,
    occurs LFc c = false ->
    exists s1 lc s3,
      Client.run ExClient tcp (Client.Dial 0 wire0) [Client.CallCmd (Some c)] = Some s1 /\
      read (sent (Client.world s1)) = (mkReadWrap (Some c) None false, "") /\
      Server.A.spin ExServerClient tcp (Server.Spawned, Server.fresh wire0)
        [Server.Begin; Server.SelectRead (mkReadWrap (Some c) None false)]
      = Some (Server.Selecting false, lc) /\
      client_read (sent (Server.world lc))
      = (mkReadWrap (Some ("~" ++ c)) None false, "") /\
      Client.run ExClient tcp s1
        [Client.ReadReturns (mkReadWrap (Some ("~" ++ c)) None false); Client.Handoff]
      = Some s3 /\
      Client.cmd_returns (Client.history s3) = [(Some ("~" ++ c), None, false)] /\
      Client.caller s3 = Client.Idle /\ Client.loop s3 = Client.AtRead.
Proof.
  intros c H.
  eexists. eexists. eexists.
  split.
  { rewrite run_cons. unfold Client.Dial, wire0.
    rewrite client_calls_Cmd by reflexivity. reflexivity. }
  cbn [Client.world sent]. rewrite written_flushed.
  change ("" ++ c ++ LF) with (c ++ LF ++ "").
  split; [ exact (read_line c "" H) | ].
  split.
  { rewrite spin_cons, server_begins. unfold wire0.
    rewrite spin_cons, server_answers by reflexivity. reflexivity. }
  cbn [Server.world sent]. rewrite written_flushed.
  change ("" ++ ("~" ++ c) ++ LF) with (("~" ++ c) ++ LF ++ "").
  split; [ exact (client_read_line ("~" ++ c) "" (occurs_tilde c H)) | ].
  split; [ reflexivity | ].
  repeat split.
Qed.

Lemma X7_Cmd_returns_the_answer_of_the_handler_witness :
  occurs LFc "OHAI" = false /\
  exists s1 s3,
    Client.run ExClient tcp (Client.Dial 0 wire0) [Client.CallCmd (Some "OHAI")] = Some s1 /\
    Client.run ExClient tcp s1
      [Client.ReadReturns (mkReadWrap (Some ("~" ++ "OHAI")) None false); Client.Handoff]
    = Some s3 /\
    Client.cmd_returns (Client.history s3) = [(Some ("~" ++ "OHAI"), None, false)].
Proof.
  split; [ reflexivity | ].
  destruct (X7_Cmd_returns_the_answer_of_the_handler "OHAI" eq_refl)
    as (s1 & lc & s3 & E1 & _ & _ & _ & E3 & E4 & _).
  exists s1, s3. split; [ exact E1 | ]. split; [ exact E3 | exact E4 ].
Defined.

(** X8.  A push of the example server, for every item without a newline
    that begins with the byte [c0]: the loop writes it as one line, the
    client reads the item off those bytes and sends it on [PushCh] - unless
    [c0] is the tilde, in which case the client takes the push for an
    answer and offers it on [readCh]. *)
Theorem X8_push_reaches_PushCh_unless_it_begins_with_a_tilde :
  forall (c0 : ascii) (x : string),
    occurs LFc (String c0 x) = false ->
    exists lc s1,
      Server.A.spin ExServerClient tcp (Server.Spawned, Server.fresh wire0)
        [Server.Begin; Server.SelectPush (Some (String c0 x))]
      = Some (Server.Selecting false, lc) /\
      client_read (sent (Server.world lc))
      = (mkReadWrap (Some (String c0 x)) None false, "") /\
      Client.run ExClient tcp (Client.Dial 0 wire0)
        [Client.ReadReturns (mkReadWrap (Some (String c0 x)) None false)] = Some s1 /\
      Client.loop s1
      = (if Ascii.eqb c0 "~"%char
         then Client.AtSelect (mkReadWrap (Some (String c0 x)) None false)
                              (0 + Client.handoff_wait)
         else Client.AtPush (Some (String c0 x))).
Proof.
  intros c0 x H.
  eexists. eexists.
  split.
  { rewrite spin_cons, server_begins. unfold wire0.
    rewrite spin_cons, server_pushes by reflexivity. reflexivity. }
  cbn [Server.world sent]. rewrite written_flushed.
  change ("" ++ String c0 x ++ LF) with (String c0 x ++ LF ++ "").
  split; [ exact (client_read_line (String c0 x) "" H) | ].
  split; [ reflexivity | ].
  cbn [Client.loop Client.Dial]. unfold Client.spin_after_Read, Client.to_readCh.
  cbn [err item is_nil negb orb Client.IsPush ExClient].
  unfold ExClient_IsPush. cbn [bytes_of].
  destruct (Ascii.eqb c0 "~"%char); reflexivity.
Qed.

Lemma X8_push_reaches_PushCh_unless_it_begins_with_a_tilde_witness :
  occurs LFc "HI" = false /\
  exists lc s1,
    Server.A.spin ExServerClient tcp (Server.Spawned, Server.fresh wire0)
      [Server.Begin; Server.SelectPush (Some "HI")]
    = Some (Server.Selecting false, lc) /\
    Client.run ExClient tcp (Client.Dial 0 wire0)
      [Client.ReadReturns (mkReadWrap (Some "HI") None false)] = Some s1 /\
    Client.loop s1 = Client.AtPush (Some "HI").
Proof.
  split; [ reflexivity | ].
  destruct (X8_push_reaches_PushCh_unless_it_begins_with_a_tilde "H"%char "I" eq_refl)
    as (lc & s1 & E1 & _ & E2 & E3).
  exists lc, s1. split; [ exact E1 | ]. split; [ exact E2 | exact E3 ].
Defined.

(** The client of the example after [CmdBg] of [a] and [Cmd] of [b]:
    both lines are on the stream. *)
Lemma client_bg_then_cmd (a b : string) :
  Client.run ExClient tcp (Client.Dial 0 wire0)
    [Client.CallCmdBg (Some a); Client.CallCmd (Some b)]
  = Some (Client.mkConn 0 Client.AtRead (Client.AtRecv 0)
            (mkWire "" ((a ++ LF) ++ b ++ LF ++ "") false None) false Open 0
            [Client.CmdBgReturns None false 0]).
Proof.
  rewrite run_cons. unfold Client.Dial, wire0.
  destruct (client_calls_CmdBg a (mkWire "" "" false None) 0 Client.AtRead false Open 0 []
              eq_refl eq_refl) as (w1 & E1 & C1 & R1 & W1).
  rewrite E1, run_cons, (client_calls_Cmd b w1 _ _ _ _ _ _ C1 R1), W1.
  rewrite written_flushed, append_nil_r.
  change ("" ++ a ++ LF) with (a ++ LF). reflexivity.
Qed.

(** X9.  A background command takes the answer of the next command.  For
    commands [a] and [b] without newlines: after [CmdBg] of [a] and [Cmd]
    of [b] the bytes on the stream are the two lines; the server reads
    [a], answers it, reads [b] and answers it; the first answer the client
    reads is the one to [a], and that is what the [Cmd] of [b] returns. *)
Theorem X9_Cmd_after_CmdBg_returns_the_answer_to_the_background_command :
  forall a b : string,
    occurs LFc a = false -> occurs LFc b = false ->
    exists s2 rest lc s4,
      Client.run ExClient tcp (Client.Dial 0 wire0)
        [Client.CallCmdBg (Some a); Client.CallCmd (Some b)] = Some s2 /\
      read (sent (Client.world s2)) = (mkReadWrap (Some a) None false, rest) /\
      read rest = (mkReadWrap (Some b) None false, "") /\
      Server.A.spin ExServerClient tcp (Server.Spawned, Server.fresh wire0)
        [Server.Begin; Server.SelectRead (mkReadWrap (Some a) None false);
         Server.SelectRead (mkReadWrap (Some b) None false)]
      = Some (Server.Selecting false, lc) /\
      sent (Server.world lc) = ("~" ++ a) ++ LF ++ ("~" ++ b) ++ LF /\
      fst (client_read (sent (Server.world lc)))
      = mkReadWrap (Some ("~" ++ a)) None false /\
      Client.run ExClient tcp s2
        [Client.ReadReturns (mkReadWrap (Some ("~" ++ a)) None false); Client.Handoff]
      = Some s4 /\
      Client.cmd_returns (Client.history s4) = [(Some ("~" ++ a), None, false)].
Proof.
  intros a b Ha Hb.
  eexists. exists (b ++ LF ++ ""). eexists. eexists.
  split; [ apply client_bg_then_cmd | ].
  cbn [Client.world sent].
  rewrite append_assoc.
  split; [ exact (read_line a (b ++ LF ++ "") Ha) | ].
  split; [ exact (read_line b "" Hb) | ].
  split.
  { rewrite spin_cons, server_begins. unfold wire0.
    rewrite spin_cons, server_answers by reflexivity.
    rewrite spin_cons, server_answers by reflexivity. reflexivity. }
  cbn [Server.world sent]. rewrite !written_flushed.
  change ("" ++ ("~" ++ a) ++ LF) with (("~" ++ a) ++ LF).
  rewrite append_assoc.
  split; [ reflexivity | ].
  split.
  { rewrite (client_read_line ("~" ++ a) (("~" ++ b) ++ LF) (occurs_tilde a Ha)).
    reflexivity. }
  split; [ reflexivity | ].
  reflexivity.
Qed.

Lemma X9_Cmd_after_CmdBg_returns_the_answer_to_the_background_command_witness :
  occurs LFc "PING" = false /\ occurs LFc "OHAI" = false /\
  exists s2 s4,
    Client.run ExClient tcp (Client.Dial 0 wire0)
      [Client.CallCmdBg (Some "PING"); Client.CallCmd (Some "OHAI")] = Some s2 /\
    Client.run ExClient tcp s2
      [Client.ReadReturns (mkReadWrap (Some ("~" ++ "PING")) None false); Client.Handoff]
    = Some s4 /\
    Client.cmd_returns (Client.history s4) = [(Some ("~" ++ "PING"), None, false)].
Proof.
  split; [ reflexivity | ]. split; [ reflexivity | ].
  destruct (X9_Cmd_after_CmdBg_returns_the_answer_to_the_background_command
              "PING" "OHAI" eq_refl eq_refl)
    as (s2 & rest & lc & s4 & E1 & _ & _ & _ & _ & _ & E2 & E3).
  exists s2, s4. split; [ exact E1 | ]. split; [ exact E2 | exact E3 ].
Defined.

(** A step of the example server on a stream in working order, its
    event holding bytes: the stream stays in working order and gains the
    line of the event. *)
Lemma step_wire (s s' : Server.pc * Server.ListenerConn string Wire)
      (e : Server.event string) :
  wire_ok s -> holds_bytes e = true ->
  Server.A.spin_step ExServerClient tcp s e = Some s' ->
  wire_ok s' /\
  sent (Server.world (snd s')) = sent (Server.world (snd s)) ++ line_of e.
Proof.
  destruct s as [p [cc [bu se cl we] scn cch pch g tr]].
  unfold wire_ok. cbn [fst snd Server.world buffered werr closed sent].
  intros (Hb & He & Hc) Hh E. subst bu we.
  destruct p as [ | nr | | | msg | [ | [ | [ | [ | [ | [ | [ | [ | k ] ] ] ] ] ] ] ] ];
    cbn in Hc; try subst cl.
  - (* Spawned *)
    destruct e; destruct cch, pch, g;
      lazy -[app] in E; try discriminate E; injection E as <-;
      cbn [fst snd Server.world buffered werr closed sent line_of];
      rewrite ?append_nil_r; repeat split.
  - (* Selecting *)
    destruct e as [ | [it er d] | it | | | | | it ].
    + discriminate E.
    + destruct d.
      * destruct cch, pch; lazy -[app] in E; injection E as <-;
          cbn [fst snd Server.world buffered werr closed sent line_of die];
          rewrite ?append_nil_r; repeat split.
      * destruct it as [c | ]; [ | discriminate Hh ].
        rewrite server_answers in E by reflexivity. injection E as <-.
        cbn [fst snd Server.world buffered werr closed sent line_of die item bytes_of].
        rewrite written_flushed. repeat split.
    + destruct it as [x | ]; [ | discriminate Hh ].
      destruct pch; [ | destruct cch; lazy in E; discriminate E ].
      rewrite server_pushes in E by reflexivity. injection E as <-.
      cbn [fst snd Server.world buffered werr closed sent line_of bytes_of].
      rewrite written_flushed. repeat split.
    + destruct cch, pch; lazy -[app] in E; try discriminate E; injection E as <-;
        cbn [fst snd Server.world buffered werr closed sent line_of];
        rewrite ?append_nil_r; repeat split.
    + discriminate E.
    + destruct cch, pch; lazy -[app] in E; try discriminate E; injection E as <-;
        cbn [fst snd Server.world buffered werr closed sent line_of];
        rewrite ?append_nil_r; repeat split.
    + discriminate E.
    + destruct cch, pch, g; lazy -[app] in E; try discriminate E; injection E as <-;
        cbn [fst snd Server.world buffered werr closed sent line_of];
        rewrite ?append_nil_r; repeat split.
  - (* Closing_ *)
    destruct e; destruct cch, pch, g;
      vm_compute in E; try discriminate E; injection E as <-;
      cbn [fst snd Server.world buffered werr closed sent line_of];
      rewrite ?append_nil_r; repeat split.
  - (* Closed_ *)
    destruct e; destruct cch, pch, g;
      lazy -[app] in E; try discriminate E; injection E as <-;
      cbn [fst snd Server.world buffered werr closed sent line_of];
      rewrite ?append_nil_r; repeat split.
  - (* Crashed *)
    destruct e; discriminate E.
  - destruct e; destruct cch, pch, g;
      lazy -[app] in E; try discriminate E; injection E as <-;
      cbn [fst snd Server.world buffered werr closed sent line_of];
      rewrite ?append_nil_r; repeat split.
  - destruct e; destruct cch, pch, g;
      lazy -[app] in E; try discriminate E; injection E as <-;
      cbn [fst snd Server.world buffered werr closed sent line_of];
      rewrite ?append_nil_r; repeat split.
  - destruct e; destruct cch, pch, g;
      lazy -[app] in E; try discriminate E; injection E as <-;
      cbn [fst snd Server.world buffered werr closed sent line_of];
      rewrite ?append_nil_r; repeat split.
  - destruct e; destruct cch, pch, g;
      lazy -[app] in E; try discriminate E; injection E as <-;
      cbn [fst snd Server.world buffered werr closed sent line_of];
      rewrite ?append_nil_r; repeat split.
  - destruct e; destruct cch, pch, g;
      lazy -[app] in E; try discriminate E; injection E as <-;
      cbn [fst snd Server.world buffered werr closed sent line_of];
      rewrite ?append_nil_r; repeat split.
  - destruct e; destruct cch, pch, g;
      lazy -[app] in E; try discriminate E; injection E as <-;
      cbn [fst snd Server.world buffered werr closed sent line_of];
      rewrite ?append_nil_r; repeat split.
  - destruct e; destruct cch, pch, g;
      lazy -[app] in E; try discriminate E; injection E as <-;
      cbn [fst snd Server.world buffered werr closed sent line_of];
      rewrite ?append_nil_r; repeat split.
  - destruct e; destruct cch, pch, g;
      lazy -[app] in E; try discriminate E; injection E as <-;
      cbn [fst snd Server.world buffered werr closed sent line_of];
      rewrite ?append_nil_r; repeat split.
  - destruct e; destruct cch, pch, g, k;
      lazy -[app] in E; try discriminate E; injection E as <-;
      cbn [fst snd Server.world buffered werr closed sent line_of];
      rewrite ?append_nil_r; repeat split.
Qed.

Lemma run_wire (es : list (Server.event string)) :
  forall s s' : Server.pc * Server.ListenerConn string Wire,
    wire_ok s -> forallb holds_bytes es = true ->
    Server.A.spin ExServerClient tcp s es = Some s' ->
    wire_ok s' /\
    sent (Server.world (snd s')) = sent (Server.world (snd s)) ++ lines_of es.
Proof.
  induction es as [ | e es IH ]; intros s s' W Hh E.
  - injection E as <-. cbn. rewrite append_nil_r. tauto.
  - rewrite spin_cons in E.
    destruct (Server.A.spin_step ExServerClient tcp s e) as [s1 | ] eqn:E1;
      [ | discriminate E ].
    cbn [forallb] in Hh. apply andb_true_iff in Hh. destruct Hh as (Hh1 & Hh2).
    destruct (step_wire s s1 e W Hh1 E1) as (W1 & S1).
    destruct (IH s1 s' W1 Hh2 E) as (W2 & S2).
    split; [ exact W2 | ].
    rewrite S2, S1. cbn [lines_of]. apply append_assoc.
Qed.

(** X10.  What the example server puts on the stream is what its loop
    received, in that order.  For every schedule of a session on a fresh
    stream whose commands and pushed items hold bytes (on a [nil] item the
    type assertions of [HandleCmd] and [Write] panic), the statements
    after spinloop and the calls of other goroutines included: the bytes
    sent are the lines of the events taken by the select, the answer for a
    command and the item for a push, with nothing left in the buffer. *)
Theorem X10_stream_carries_the_events_in_order :
  forall (es : list (Server.event string))
         (s : Server.pc * Server.ListenerConn string Wire),
    forallb holds_bytes es = true ->
    Server.A.spin ExServerClient tcp (Server.Spawned, Server.fresh wire0) es = Some s ->
    sent (Server.world (snd s)) = lines_of es /\
    buffered (Server.world (snd s)) = "".
Proof.
  intros es s Hh E.
  assert (W : wire_ok (Server.Spawned, Server.fresh (T:=string) wire0))
    by (repeat split).
  destruct (run_wire es _ s W Hh E) as ((B & _) & S).
  split; [ exact S | exact B ].
Qed.

Lemma X10_stream_carries_the_events_in_order_witness :
  exists s,
    Server.A.spin ExServerClient tcp (Server.Spawned, Server.fresh wire0)
      [Server.Begin; Server.SelectPush (Some "HI");
       Server.SelectRead (mkReadWrap (Some "OHAI") None false);
       Server.SelectPush (Some "HO")] = Some s /\
    sent (Server.world (snd s)) = "HI" ++ LF ++ "~OHAI" ++ LF ++ "HO" ++ LF.
Proof.
  destruct (Server.A.spin ExServerClient tcp (Server.Spawned, Server.fresh wire0)
              [Server.Begin; Server.SelectPush (Some "HI");
               Server.SelectRead (mkReadWrap (Some "OHAI") None false);
               Server.SelectPush (Some "HO")])
    as [s | ] eqn:E; [ | vm_compute in E; discriminate E ].
  exists s. split; [ reflexivity | ].
  exact (proj1 (X10_stream_carries_the_events_in_order
                  [Server.Begin; Server.SelectPush (Some "HI");
                   Server.SelectRead (mkReadWrap (Some "OHAI") None false);
                   Server.SelectPush (Some "HO")] s eq_refl E)).
Defined.

End EndToEnd.

(** * Further properties: the arbitration loop *)

Module ServerMore.
Import Server ServerTrace ServerFacts.
Local Open Scope go_scope.

#[local] Arguments write : simpl never.
#[local] Arguments handle : simpl never.
#[local] Arguments teardown : simpl never.
#[local] Arguments turn : simpl never.

Section More.
Context {T U R : Type}.
Variable sc : ServerClient T U R.
Variable io : Stream U.

Lemma handled_app (a b : list (action T)) : handled (a ++ b) = handled a ++ handled b.
Proof. apply flat_map_app. Qed.

Lemma go_reads_app (a b : list (action T)) :
  go_reads (a ++ b) = (go_reads a + go_reads b)%nat.
Proof. unfold go_reads. rewrite filter_app, length_app. reflexivity. Qed.

Lemma write_trace (it : iface T) (lc : ListenerConn T U) :
  exists r lc' tl,
    write sc io it lc = (Ret r, lc') /\ frame lc lc' tl /\ no_teardown tl /\
    handled tl = [] /\ go_reads tl = 0%nat.
Proof.
  destruct lc as [cc w scn cch pch g tr].
  unfold write, bind, log, call, ret, frame, no_teardown. cbn.
  destruct (Write sc it w) as [d u]. destruct d; cbn.
  - exists true. eexists. exists [CallWrite it]. cbn. repeat split. repeat constructor.
  - destruct (Flush io u) as [e u']. destruct e; cbn;
      eexists; eexists; exists [CallWrite it; CallFlush]; cbn;
      (repeat split; [ rewrite <- app_assoc; reflexivity | repeat constructor ]).
Qed.

Section Loop.
Variable on_read : readWrap T -> M T U bool.
Variable nilClient : bool.
Hypothesis on_read_dispatching : dispatching on_read.

Lemma loop_head_trace (b : bool) (lc : ListenerConn T U) :
  exists lc' tl,
    loop_head b lc = (Ret false, lc') /\ frame lc lc' tl /\ no_teardown tl /\
    handled tl = [] /\ go_reads tl = (if b then 1 else 0)%nat.
Proof.
  destruct b; cbn.
  - eexists. exists [GoRead]. unfold frame; cbn. repeat split. repeat constructor.
  - exists lc, []. repeat split; try apply frame_refl. constructor.
Qed.

(** A turn of the loop: the calls it makes, and where it ends. *)
Lemma turn_spec (b : bool) (e : event T) (lc : ListenerConn T U) :
  exists p lc' tl,
    turn sc io on_read b e lc = (Ret p, lc') /\ frame lc lc' tl /\ no_teardown tl /\
    handled tl = commands [e] /\
    ((p = Closing_ /\ go_reads tl = 0%nat) \/
     (p = Selecting false /\
      go_reads tl = (if match e with SelectRead _ => true | _ => b end
                     then 1 else 0)%nat)).
Proof.
  assert (K : forall brk nr lc1 tl1,
             select_case sc io on_read b e lc = (Ret (brk, nr), lc1) ->
             frame lc lc1 tl1 -> no_teardown tl1 ->
             handled tl1 = commands [e] -> go_reads tl1 = 0%nat ->
             nr = match e with SelectRead _ => true | _ => b end ->
             exists p lc' tl,
               turn sc io on_read b e lc = (Ret p, lc') /\ frame lc lc' tl /\
               no_teardown tl /\ handled tl = commands [e] /\
               ((p = Closing_ /\ go_reads tl = 0%nat) \/
                (p = Selecting false /\
                 go_reads tl = (if match e with SelectRead _ => true | _ => b end
                                then 1 else 0)%nat))).
  { intros brk nr lc1 tl1 E F N H G Hnr. unfold turn, bind. rewrite E.
    destruct brk.
    - exists Closing_, lc1, tl1. cbn. auto 10.
    - cbn. destruct (loop_head_trace nr lc1) as (lc2 & tl2 & E2 & F2 & N2 & H2 & G2).
      rewrite E2. exists (Selecting false), lc2, (tl1 ++ tl2).
      split; [ reflexivity | ].
      split; [ eapply frame_trans; eassumption | ].
      split; [ apply no_teardown_app; assumption | ].
      split; [ rewrite handled_app, H, H2; apply app_nil_r | ].
      right. split; [ reflexivity | ].
      rewrite go_reads_app, G, G2, Hnr. reflexivity. }
  destruct e.
  - eapply K with (tl1 := []); try reflexivity; [ apply frame_refl | constructor ].
  - destruct (on_read_dispatching rw lc) as (r & lc1 & tl1 & E & F & N & H & G).
    eapply K; [ | exact F | exact N | | exact G | reflexivity ].
    + cbn. unfold bind. rewrite E. reflexivity.
    + rewrite H. cbn. rewrite app_nil_r. reflexivity.
  - destruct (write_trace it lc) as (r & lc1 & tl1 & E & F & N & H & G).
    eapply K; [ | exact F | exact N | exact H | exact G | reflexivity ].
    cbn. unfold bind. rewrite E. destruct r; reflexivity.
  - eapply K with (tl1 := []); try reflexivity; [ apply frame_refl | constructor ].
  - eapply K with (tl1 := []); try reflexivity; [ apply frame_refl | constructor ].
  - eapply K with (tl1 := []); try reflexivity; [ apply frame_refl | constructor ].
  - eapply K with (tl1 := []); try reflexivity; [ apply frame_refl | constructor ].
  - eapply K with (tl1 := []); try reflexivity; [ apply frame_refl | constructor ].
Qed.

(** The ways of a step. *)
Lemma step_cases (p p' : pc) (lc lc' : ListenerConn T U) (e : event T) :
  step sc io on_read nilClient (p, lc) e = Some (p', lc') ->
  (e = ExtClose /\ (forall m, p <> Crashed m) /\
   ((CloseCh lc = Closed /\ p' = Crashed close_of_closed_channel /\ lc' = lc) \/
    (CloseCh lc = Open /\ p' = p /\ trace lc' = trace lc /\
     PushCh lc' = PushCh lc /\ CloseCh lc' = Closed))) \/
  (p = Spawned /\ e = Begin /\ p' = Selecting false /\ frame lc lc' [GoRead]) \/
  (exists b, p = Selecting b /\ enabled lc e = true /\ is_ExtClose e = false /\
             is_ExtSend e = false /\
             turn sc io on_read b e lc = (Ret p', lc')) \/
  (p = Closing_ /\ e = Teardown /\
   finish (fun _ : unit => Closed_) (teardown sc io nilClient lc) = (p', lc')) \/
  (exists k, (p = Closing_ /\ k = 0%nat \/ p = Tearing k) /\ e = TeardownStmt /\
             teardown_next sc io nilClient k lc = Some (p', lc')) \/
  (exists it, e = ExtSend it /\ (forall m, p <> Crashed m) /\ lc' = lc /\
              ((PushCh lc = Closed /\ p' = Crashed send_on_closed_channel) \/
               (PushCh lc = Open /\ grounding lc = true /\ p' = p))).
Proof.
  intros E.
  assert (XC : forall q, (forall m, q <> Crashed m) ->
               Some (finish (fun _ : unit => q) (Close lc)) = Some (p', lc') ->
               (CloseCh lc = Closed /\ p' = Crashed close_of_closed_channel /\ lc' = lc) \/
               (CloseCh lc = Open /\ p' = q /\ trace lc' = trace lc /\
                PushCh lc' = PushCh lc /\ CloseCh lc' = Closed)).
  { intros q Hq X.
    destruct (Close_cases lc) as [[Hcl Eq] | [Hop (lc1 & Eq & Ht & Hp & _ & _ & Hc1)]];
      rewrite Eq in X; cbn in X; injection X as <- <-; [ left | right ]; auto. }
  assert (XS : forall q (it : iface T), (forall m, q <> Crashed m) ->
               send q lc = Some (p', lc') -> q = p ->
               exists it0, @ExtSend T it = ExtSend it0 /\ (forall m, p <> Crashed m) /\
                 lc' = lc /\
                 ((PushCh lc = Closed /\ p' = Crashed send_on_closed_channel) \/
                  (PushCh lc = Open /\ grounding lc = true /\ p' = p))).
  { intros q it Hq X ->. exists it. split; [ reflexivity | ]. split; [ exact Hq | ].
    unfold send in X. destruct (PushCh lc).
    - destruct (grounding lc); [ | discriminate X ]. injection X as <- <-. auto.
    - injection X as <- <-. auto. }
  unfold step in E.
  destruct p as [ | b | | | m | k ].
  - destruct e; cbv beta iota in E; try discriminate E.
    + right; left. injection E as <- <-.
      unfold frame; cbn. repeat split.
    + left. split; [ reflexivity | ]. split; [ congruence | ].
      apply (XC Spawned); [ congruence | exact E ].
    + do 5 right. eapply (XS Spawned); [ congruence | exact E | reflexivity ].
  - destruct e; cbv beta iota in E; try discriminate E.
    + destruct (enabled lc (SelectRead rw)) eqn:En; [ | discriminate E ].
      right; right; left. exists b.
      destruct (turn_spec b (SelectRead rw) lc) as (q & lc1 & tl & Et & _).
      rewrite Et in E. cbn in E. injection E as <- <-. auto 6.
    + destruct (enabled lc (SelectPush it)) eqn:En; [ | discriminate E ].
      right; right; left. exists b.
      destruct (turn_spec b (SelectPush it) lc) as (q & lc1 & tl & Et & _).
      rewrite Et in E. cbn in E. injection E as <- <-. auto 6.
    + destruct (enabled lc SelectClose) eqn:En; [ | discriminate E ].
      right; right; left. exists b.
      destruct (turn_spec b SelectClose lc) as (q & lc1 & tl & Et & _).
      rewrite Et in E. cbn in E. injection E as <- <-. auto 6.
    + left. split; [ reflexivity | ]. split; [ congruence | ].
      apply (XC (Selecting b)); [ congruence | exact E ].
    + do 5 right. eapply (XS (Selecting b)); [ congruence | exact E | reflexivity ].
  - destruct e; cbv beta iota in E;
      [ discriminate E | discriminate E | discriminate E | discriminate E | | | | ].
    + right; right; right; left. split; [ reflexivity | ]. split; [ reflexivity | ].
      exact (f_equal (fun o => match o with Some x => x | None => (p', lc') end) E).
    + left. split; [ reflexivity | ]. split; [ congruence | ].
      apply (XC Closing_); [ congruence | exact E ].
    + do 4 right; left. exists 0%nat. auto.
    + do 5 right. eapply (XS Closing_); [ congruence | exact E | reflexivity ].
  - destruct e; cbv beta iota in E; try discriminate E.
    + left. split; [ reflexivity | ]. split; [ congruence | ].
      apply (XC Closed_); [ congruence | exact E ].
    + do 5 right. eapply (XS Closed_); [ congruence | exact E | reflexivity ].
  - destruct e; cbv beta iota in E; discriminate E.
  - destruct e; cbv beta iota in E; try discriminate E.
    + left. split; [ reflexivity | ]. split; [ congruence | ].
      apply (XC (Tearing k)); [ congruence | exact E ].
    + do 4 right; left. exists k. auto.
    + do 5 right. eapply (XS (Tearing k)); [ congruence | exact E | reflexivity ].
Qed.

Lemma teardown_trace (lc lc' : ListenerConn T U) (p' : pc) :
  torn 0 lc ->
  finish (fun _ : unit => Closed_) (teardown sc io nilClient lc) = (p', lc') ->
  trace lc' = trace lc ++ teardown_actions /\
  ((p' = Closed_ /\ CloseCh lc = Open /\ PushCh lc' = Closed /\ CloseCh lc' = Closed) \/
   (p' = Crashed close_of_closed_channel /\ CloseCh lc = Closed)).
Proof.
  destruct lc as [cc w scn cch pch g tr].
  intros ((pre & Ht & Hn) & Hg & Hc & Hp & Hcc & Hs) E.
  cbn in Ht, Hg, Hc, Hp, Hs. subst g cc pch scn.
  destruct (teardown sc io nilClient (mkLC false w false cch Open false tr))
    as [o lc1] eqn:E1.
  destruct cch, nilClient; lazy -[app] in E1; injection E1 as <- <-;
    cbn in E; injection E as <- <-; cbn; rewrite <- ?app_assoc;
    (split; [ reflexivity | ]); [ left | left | right | right ]; repeat split.
Qed.

(** A statement after spinloop adds its own label to the trace and
    nothing else. *)
Lemma teardown_next_trace (k : nat) (lc lc' : ListenerConn T U) (p' : pc) :
  teardown_next sc io nilClient k lc = Some (p', lc') ->
  exists tl, trace lc' = trace lc ++ tl /\ handled tl = [] /\ go_reads tl = 0%nat.
Proof.
  destruct lc as [cc w scn cch pch g tr]. unfold teardown_next. intros E.
  destruct k as [ | [ | [ | [ | [ | [ | [ | k ] ] ] ] ] ] ].
  - destruct nilClient; lazy -[app] in E; injection E as <- <-;
      eexists; (split; [ reflexivity | split; reflexivity ]).
  - destruct nilClient; lazy -[app] in E; injection E as <- <-;
      eexists; (split; [ reflexivity | split; reflexivity ]).
  - destruct nilClient; lazy -[app] in E; injection E as <- <-;
      eexists; (split; [ reflexivity | split; reflexivity ]).
  - destruct nilClient; lazy -[app] in E; injection E as <- <-;
      eexists; (split; [ reflexivity | split; reflexivity ]).
  - destruct nilClient, pch; lazy -[app] in E; injection E as <- <-;
      eexists; (split; [ reflexivity | split; reflexivity ]).
  - destruct nilClient, cch; lazy -[app] in E; injection E as <- <-;
      eexists; (split; [ reflexivity | split; reflexivity ]).
  - destruct nilClient; lazy -[app] in E; [ | discriminate E ].
    injection E as <- <-. exists []. cbn. rewrite app_nil_r. repeat split.
  - exfalso. destruct nilClient, k; lazy in E; discriminate E.
Qed.

(** Commands go to the handler in the order they were read. *)
Lemma step_dispatch (s s' : pc * ListenerConn T U) (e : event T) :
  teardown_state nilClient s ->
  step sc io on_read nilClient s e = Some s' ->
  handled (trace (snd s')) = handled (trace (snd s)) ++ commands [e].
Proof.
  destruct s as [p lc], s' as [p' lc']. intros I E. cbn [snd].
  destruct (step_cases p p' lc lc' e E)
    as [(-> & _ & [(_ & _ & ->) | (_ & _ & Ht & _)])
       | [(-> & -> & -> & F)
         | [(b & -> & _ & _ & _ & Et)
           | [(-> & -> & Ef)
             | [(k & Hk & -> & En) | (it & -> & _ & -> & _)]]]]].
  - cbn. rewrite app_nil_r. reflexivity.
  - rewrite Ht. cbn. rewrite app_nil_r. reflexivity.
  - destruct F as (F & _). rewrite F, handled_app. reflexivity.
  - destruct (turn_spec b e lc)
      as (q & lc1 & tl & Et' & F & _ & H & _).
    rewrite Et' in Et. injection Et as <- <-.
    destruct F as (F & _). rewrite F, handled_app, H. reflexivity.
  - destruct I as (k & St & I). cbn in St. subst k. cbn [snd] in I.
    destruct (teardown_trace lc lc' p' I Ef) as (Ht & _).
    rewrite Ht, handled_app. reflexivity.
  - destruct (teardown_next_trace k lc lc' p' En) as (tl & Ht & H & _).
    rewrite Ht, handled_app, H. reflexivity.
  - cbn. rewrite app_nil_r. reflexivity.
Qed.

(** One read under way at every select. *)
Lemma step_one_read (k : nat) (s s' : pc * ListenerConn T U) (e : event T) :
  teardown_state nilClient s -> one_read k s ->
  step sc io on_read nilClient s e = Some s' ->
  one_read (k + reads_received [e]) s'.
Proof.
  destruct s as [p lc], s' as [p' lc']. intros I O E.
  unfold one_read in *. cbn [fst snd] in *.
  destruct (step_cases p p' lc lc' e E)
    as [(-> & Hp & [(_ & -> & ->) | (_ & -> & Ht & _)])
       | [(-> & -> & -> & F)
         | [(b & -> & _ & _ & _ & Et)
           | [(-> & -> & Ef)
             | [(j & Hj & -> & En) | (it & -> & Hp & -> & Hs)]]]]].
  - cbn. rewrite Nat.add_0_r.
    destruct p; lia.
  - rewrite Ht. cbn. rewrite Nat.add_0_r. exact O.
  - destruct F as (F & _). rewrite F, go_reads_app. cbn. destruct O as (O1 & ->).
    rewrite O1. auto.
  - destruct O as (-> & O).
    destruct (turn_spec false e lc)
      as (q & lc1 & tl & Et' & F & _ & _ & G).
    rewrite Et' in Et. injection Et as <- <-.
    destruct F as (F & _). rewrite F, go_reads_app, O.
    destruct G as [(-> & G) | (-> & G)]; rewrite G.
    + destruct e; cbn; lia.
    + destruct e; cbn; split; try reflexivity; lia.
  - destruct I as (j & St & I). cbn in St. subst j. cbn [snd] in I.
    destruct (teardown_trace lc lc' p' I Ef) as (Ht & Hq).
    rewrite Ht, go_reads_app. cbn. rewrite !Nat.add_0_r.
    destruct Hq as [(-> & _) | (-> & _)]; exact O.
  - destruct (teardown_next_trace j lc lc' p' En) as (tl & Ht & _ & G).
    rewrite Ht, go_reads_app, G. cbn. rewrite !Nat.add_0_r.
    assert (O' : (k <= go_reads (trace lc) <= S k)%nat)
      by (destruct Hj as [(-> & _) | ->]; exact O).
    destruct I as (i & St & I). cbn [fst snd] in St, I.
    assert (Hi : i = j).
    { destruct Hj as [(-> & ->) | ->]; cbn in St; [ exact St | tauto ]. }
    subst i.
    destruct (teardown_next_torn sc io nilClient j lc (p', lc') I En)
      as (_ & _ & _ & [(Hq & _) | (Hq & _)]); cbn [fst] in Hq; rewrite Hq;
      [ destruct (S j <? stmts nilClient)%nat | ]; exact O'.
  - cbn. rewrite Nat.add_0_r.
    destruct Hs as [(_ & ->) | (_ & _ & ->)]; [ destruct p; lia | exact O ].
Qed.

(** Without a call of [Close] nothing closes [CloseCh] but the sixth
    statement after spinloop, and nothing panics but a send on the closed
    [PushCh]. *)
Lemma step_calm (sends : bool) (s s' : pc * ListenerConn T U) (e : event T) :
  teardown_state nilClient s -> calm sends s ->
  is_ExtClose e = false -> (sends = false -> is_ExtSend e = false) ->
  step sc io on_read nilClient s e = Some s' ->
  calm sends s' /\ is_SelectClose e = false.
Proof.
  destruct s as [p lc], s' as [p' lc']. intros I C N NS E.
  unfold calm in *. cbn [fst snd] in *.
  destruct (step_cases p p' lc lc' e E)
    as [(-> & _)
       | [(-> & -> & -> & F)
         | [(b & -> & En & _ & _ & Et)
           | [(-> & -> & Ef)
             | [(j & Hj & -> & En) | (it & -> & Hp & -> & Hs)]]]]].
  - discriminate N.
  - destruct F as (_ & F1 & _). rewrite F1. auto.
  - destruct (turn_spec b e lc)
      as (q & lc1 & tl & Et' & F & _ & _ & G).
    rewrite Et' in Et. injection Et as <- <-.
    destruct F as (_ & F1 & _). rewrite F1.
    split.
    + destruct G as [(-> & _) | (-> & _)]; exact C.
    + destruct e; try reflexivity. cbn in En.
      rewrite C in En. discriminate En.
  - destruct I as (k & St & I). cbn in St. subst k. cbn [snd] in I.
    destruct (teardown_trace lc lc' p' I Ef) as (_ & [(-> & _ & H1 & H2) | (_ & H)]).
    + auto.
    + congruence.
  - split; [ | reflexivity ].
    destruct I as (i & St & I). cbn [fst snd] in St, I.
    assert (Hi : i = j).
    { destruct Hj as [(-> & ->) | ->]; cbn in St; [ exact St | tauto ]. }
    subst i.
    assert (Cj : CloseCh lc = (if (6 <=? j)%nat then Closed else Open)).
    { destruct Hj as [(-> & ->) | ->]; exact C. }
    destruct (teardown_next_torn sc io nilClient j lc (p', lc') I En)
      as (Hlt & _ & Hs & [(Hq & H5) | (Hq & -> & Hc)]); cbn [fst snd] in *.
    + rewrite Hq. destruct (Nat.eq_dec j 5) as [-> | Hne].
      * destruct (H5 eq_refl) as (_ & Hc').
        destruct (6 <? stmts nilClient)%nat; exact Hc'.
      * rewrite (Hs Hne), Cj.
        destruct (S j <? stmts nilClient)%nat eqn:Hl.
        -- destruct (6 <=? j)%nat eqn:H6; destruct (6 <=? S j)%nat eqn:H7;
             try reflexivity;
             [ apply Nat.leb_le in H6; apply Nat.leb_gt in H7; lia
             | apply Nat.leb_gt in H6; apply Nat.leb_le in H7; lia ].
        -- apply Nat.ltb_ge in Hl. unfold stmts in Hl, Hlt.
           destruct (6 <=? j)%nat eqn:H6; [ reflexivity | ].
           apply Nat.leb_gt in H6. destruct nilClient; lia.
    + rewrite Cj in Hc. discriminate Hc.
  - split; [ | reflexivity ].
    destruct Hs as [(Hc & ->) | (_ & _ & ->)]; [ | exact C ].
    split; [ | auto ].
    destruct sends; [ reflexivity | ]. discriminate (NS eq_refl).
Qed.

Lemma run_dispatch (es : list (event T)) :
  forall s s' : pc * ListenerConn T U,
    teardown_state nilClient s ->
    run sc io on_read nilClient s es = Some s' ->
    handled (trace (snd s')) = handled (trace (snd s)) ++ commands es.
Proof.
  induction es as [ | e es IH ]; intros s s' I E; cbn [run] in E.
  - injection E as <-. cbn. rewrite app_nil_r. reflexivity.
  - destruct (step sc io on_read nilClient s e) as [s1 | ] eqn:E1; [ | discriminate E ].
    assert (I1 : teardown_state nilClient s1).
    { eapply step_teardown_state; [ | exact I | exact E1 ].
      intros rw lc. destruct (on_read_dispatching rw lc) as (r & lc1 & tl & H1 & H2 & H3 & _).
      exists r, lc1, tl. auto. }
    rewrite (IH s1 s' I1 E), (step_dispatch s s1 e I E1), <- app_assoc.
    f_equal. unfold commands. cbn [flat_map]. rewrite app_nil_r. reflexivity.
Qed.

Lemma reads_received_cons (e : event T) (es : list (event T)) :
  reads_received (e :: es) = (reads_received [e] + reads_received es)%nat.
Proof. unfold reads_received. destruct e; reflexivity. Qed.

Lemma run_one_read (es : list (event T)) :
  forall (k : nat) (s s' : pc * ListenerConn T U),
    teardown_state nilClient s -> one_read k s ->
    run sc io on_read nilClient s es = Some s' ->
    one_read (k + reads_received es) s'.
Proof.
  induction es as [ | e es IH ]; intros k s s' I O E; cbn [run] in E.
  - injection E as <-. cbn. rewrite Nat.add_0_r. exact O.
  - destruct (step sc io on_read nilClient s e) as [s1 | ] eqn:E1; [ | discriminate E ].
    assert (I1 : teardown_state nilClient s1).
    { eapply step_teardown_state; [ | exact I | exact E1 ].
      intros rw lc. destruct (on_read_dispatching rw lc) as (r & lc1 & tl & H1 & H2 & H3 & _).
      exists r, lc1, tl. auto. }
    rewrite reads_received_cons, Nat.add_assoc.
    exact (IH _ s1 s' I1 (step_one_read k s s1 e I O E1) E).
Qed.

Lemma run_calm (sends : bool) (es : list (event T)) :
  forall s s' : pc * ListenerConn T U,
    teardown_state nilClient s -> calm sends s ->
    forallb (fun e => negb (is_ExtClose e)) es = true ->
    (sends = false -> forallb (fun e => negb (is_ExtSend e)) es = true) ->
    run sc io on_read nilClient s es = Some s' ->
    calm sends s' /\ forallb (fun e => negb (is_SelectClose e)) es = true.
Proof.
  induction es as [ | e es IH ]; intros s s' I C N NS E; cbn [run] in E.
  - injection E as <-. auto.
  - destruct (step sc io on_read nilClient s e) as [s1 | ] eqn:E1; [ | discriminate E ].
    cbn [forallb] in N. apply andb_true_iff in N. destruct N as (N1 & N2).
    apply negb_true_iff in N1.
    assert (I1 : teardown_state nilClient s1).
    { eapply step_teardown_state; [ | exact I | exact E1 ].
      intros rw lc. destruct (on_read_dispatching rw lc) as (r & lc1 & tl & H1 & H2 & H3 & _).
      exists r, lc1, tl. auto. }
    assert (NS1 : sends = false -> is_ExtSend e = false).
    { intros Hs. specialize (NS Hs). cbn [forallb] in NS.
      apply andb_true_iff in NS. apply negb_true_iff. tauto. }
    assert (NS2 : sends = false -> forallb (fun e => negb (is_ExtSend e)) es = true).
    { intros Hs. specialize (NS Hs). cbn [forallb] in NS.
      apply andb_true_iff in NS. tauto. }
    destruct (step_calm sends s s1 e I C N1 NS1 E1) as (C1 & S1).
    destruct (IH s1 s' I1 C1 N2 NS2 E) as (C2 & S2).
    split; [ exact C2 | ]. cbn [forallb]. rewrite S1, S2. reflexivity.
Qed.

End Loop.
End More.

Section Revisions.
Context {T U : Type}.
Variable io : Stream U.

Lemma A_dispatching (scA : ServerClient T U (iface T * bool * bool)) :
  dispatching (A.on_read scA io).
Proof.
  intros rw lc. unfold A.on_read. destruct (die rw).
  - exists true, lc, []. repeat split; try apply frame_refl. constructor.
  - unfold bind.
    destruct (handle_returns scA (item rw) lc) as (r & lc1 & E1 & F1). rewrite E1.
    destruct r as [[res sendback] dieCmd]. cbn. destruct sendback.
    + destruct (write_trace scA io res lc1) as (r2 & lc2 & tl & E2 & F2 & N2 & H2 & G2).
      rewrite E2. exists (dieCmd || r2)%bool, lc2, ([CallHandleCmd (item rw)] ++ tl).
      split; [ destruct (dieCmd || r2)%bool; reflexivity | ].
      split; [ eapply frame_trans; eassumption | ].
      split; [ apply no_teardown_app; [ repeat constructor | exact N2 ] | ].
      rewrite handled_app, go_reads_app, H2, G2. split; reflexivity.
    + exists (dieCmd || false)%bool, lc1, [CallHandleCmd (item rw)].
      split; [ cbn; destruct (dieCmd || false)%bool; reflexivity | ].
      split; [ exact F1 | ]. split; [ repeat constructor | split; reflexivity ].
Qed.

Lemma B_dispatching (scB : ServerClient T U (iface T * bool)) :
  dispatching (B.on_read scB io).
Proof.
  intros rw lc. unfold B.on_read. destruct (die rw).
  - exists true, lc, []. repeat split; try apply frame_refl. constructor.
  - unfold bind.
    destruct (handle_returns scB (item rw) lc) as (r & lc1 & E1 & F1). rewrite E1.
    destruct r as [res dieCmd]. cbn.
    destruct (write_trace scB io res lc1) as (r2 & lc2 & tl & E2 & F2 & N2 & H2 & G2).
    destruct dieCmd.
    + destruct res as [x | ]; cbn.
      * unfold bind. rewrite E2. cbn.
        exists true, lc2, ([CallHandleCmd (item rw)] ++ tl).
        split; [ reflexivity | ].
        split; [ eapply frame_trans; eassumption | ].
        split; [ apply no_teardown_app; [ repeat constructor | exact N2 ] | ].
        rewrite handled_app, go_reads_app, H2, G2. split; reflexivity.
      * exists true, lc1, [CallHandleCmd (item rw)].
        split; [ reflexivity | ]. split; [ exact F1 | ].
        split; [ repeat constructor | split; reflexivity ].
    + rewrite E2. exists r2, lc2, ([CallHandleCmd (item rw)] ++ tl).
      split; [ destruct r2; reflexivity | ].
      split; [ eapply frame_trans; eassumption | ].
      split; [ apply no_teardown_app; [ repeat constructor | exact N2 ] | ].
      rewrite handled_app, go_reads_app, H2, G2. split; reflexivity.
Qed.

End Revisions.

(** X11.  In both revisions and for every schedule of a fresh session,
    the handler is called once for each result received from [readCh]
    without [die], with its item and in the order received, and for
    nothing else: not for a result with [die], not for a push, and not
    once the loop is left. *)
Theorem X11_commands_reach_the_handler_in_order :
  forall (T U : Type) (io : Stream U)
         (scA : ServerClient T U (iface T * bool * bool))
         (scB : ServerClient T U (iface T * bool))
         (u : U) (es : list (event T)) (s : pc * ListenerConn T U),
    A.spin scA io (Spawned, fresh u) es = Some s \/
    B.spin scB io (Spawned, fresh u) es = Some s ->
    handled (trace (snd s)) = commands es.
Proof.
  intros T U io scA scB u es s [E | E].
  - exact (run_dispatch scA io _ true (A_dispatching io scA) es _ s
             (fresh_teardown_state true u) E).
  - exact (run_dispatch scB io _ false (B_dispatching io scB) es _ s
             (fresh_teardown_state false u) E).
Qed.

Lemma X11_commands_reach_the_handler_in_order_witness :
  exists s,
    A.spin Example.ExServerClient Example.tcp (Spawned, fresh Example.wire0)
      [Begin; SelectRead (mkReadWrap (Some "A"%string) None false);
       SelectPush (Some "HI"%string);
       SelectRead (mkReadWrap (Some "B"%string) None false);
       SelectRead (mkReadWrap None None true); Teardown] = Some s /\
    handled (trace (snd s)) = [Some "A"%string; Some "B"%string].
Proof.
  destruct (A.spin Example.ExServerClient Example.tcp (Spawned, fresh Example.wire0)
              [Begin; SelectRead (mkReadWrap (Some "A"%string) None false);
               SelectPush (Some "HI"%string);
               SelectRead (mkReadWrap (Some "B"%string) None false);
               SelectRead (mkReadWrap None None true); Teardown])
    as [s | ] eqn:E; [ | vm_compute in E; discriminate E ].
  exists s. split; [ reflexivity | ].
  exact (X11_commands_reach_the_handler_in_order string Example.Wire Example.tcp
           Example.ExServerClient Example.QuietServerClient Example.wire0 _ s
           (or_introl E)).
Defined.

(** X12.  In both revisions and for every schedule of a fresh session:
    whenever the loop waits in its select, [needsRead] is [false] and the
    goroutines of [read] started are one more than the results received
    from [readCh], so exactly one read is under way; and at no time are
    there two. *)
Theorem X12_one_read_under_way :
  forall (T U : Type) (io : Stream U)
         (scA : ServerClient T U (iface T * bool * bool))
         (scB : ServerClient T U (iface T * bool))
         (u : U) (es : list (event T)) (s : pc * ListenerConn T U),
    A.spin scA io (Spawned, fresh u) es = Some s \/
    B.spin scB io (Spawned, fresh u) es = Some s ->
    (forall needsRead, fst s = Selecting needsRead ->
       needsRead = false /\
       go_reads (trace (snd s)) = S (reads_received es)) /\
    (reads_received es <= go_reads (trace (snd s)) <= S (reads_received es))%nat.
Proof.
  intros T U io scA scB u es s H.
  assert (O : one_read (0 + reads_received es) s).
  { destruct H as [E | E].
    - eapply (run_one_read scA io _ true (A_dispatching io scA) es 0%nat);
        [ apply fresh_teardown_state | | exact E ]. split; reflexivity.
    - eapply (run_one_read scB io _ false (B_dispatching io scB) es 0%nat);
        [ apply fresh_teardown_state | | exact E ]. split; reflexivity. }
  unfold one_read in O. cbn [Nat.add] in O. destruct s as [p lc]. cbn [fst snd] in *.
  split.
  - intros b ->. exact O.
  - destruct p; lia.
Qed.

Lemma X12_one_read_under_way_witness :
  exists s,
    B.spin Example.QuietServerClient Example.tcp (Spawned, fresh Example.wire0)
      [Begin; SelectRead (mkReadWrap (Some "PING"%string) None false);
       SelectPush (Some "HI"%string)] = Some s /\
    fst s = Selecting false /\ go_reads (trace (snd s)) = 2%nat.
Proof.
  destruct (B.spin Example.QuietServerClient Example.tcp (Spawned, fresh Example.wire0)
              [Begin; SelectRead (mkReadWrap (Some "PING"%string) None false);
               SelectPush (Some "HI"%string)])
    as [s | ] eqn:E; [ | vm_compute in E; discriminate E ].
  exists s. split; [ reflexivity | ].
  assert (Hs : fst s = Selecting false) by (vm_compute in E; injection E as <-; reflexivity).
  split; [ exact Hs | ].
  exact (proj2 (proj1 (X12_one_read_under_way string Example.Wire Example.tcp
                         Example.ExServerClient Example.QuietServerClient
                         Example.wire0 _ s (or_intror E)) false Hs)).
Defined.

(** X13.  In the revision that never sets [serverClient] to [nil], a
    session on which no goroutine calls [Close] can die of one thing
    only: a send on [PushCh] by another goroutine after the statements
    after spinloop have closed it.  For every schedule without a call of
    [Close], the statements after spinloop run one by one or in one go:
    the loop never takes the case of [CloseCh]; once [spin] has returned
    [CloseCh] and [PushCh] are closed; a program that died, died of a send
    on the closed [PushCh]; and with no send by another goroutine outside
    the select of spinloop it has not died. *)
Theorem X13_without_Close_only_a_late_send_panics :
  forall (T U : Type) (io : Stream U)
         (scB : ServerClient T U (iface T * bool))
         (u : U) (es : list (event T)) (s : pc * ListenerConn T U),
    forallb (fun e => negb (is_ExtClose e)) es = true ->
    B.spin scB io (Spawned, fresh u) es = Some s ->
    forallb (fun e => negb (is_SelectClose e)) es = true /\
    (fst s = Closed_ -> CloseCh (snd s) = Closed /\ PushCh (snd s) = Closed) /\
    (forall msg, fst s = Crashed msg ->
                 msg = send_on_closed_channel /\ PushCh (snd s) = Closed) /\
    (forallb (fun e => negb (is_ExtSend e)) es = true ->
     forall msg, fst s <> Crashed msg).
Proof.
  intros T U io scB u es s N E.
  assert (I0 : teardown_state false (Spawned, @fresh T U u))
    by apply fresh_teardown_state.
  assert (I : teardown_state false s).
  { eapply (run_teardown_state scB io _ false (B_on_read_quiet io scB));
      [ exact I0 | exact E ]. }
  destruct (run_calm scB io _ false (B_dispatching io scB) true es _ s I0 eq_refl N
              (fun H => False_ind _ (Bool.diff_true_false H)) E) as (C & S).
  split; [ exact S | ].
  destruct s as [p lc]. unfold calm in C. cbn [fst snd] in *.
  split; [ | split ].
  - intros ->. split; [ exact C | ].
    destruct I as (k & St & _ & _ & _ & Hp & _). cbn in St. subst k. exact Hp.
  - intros msg ->. tauto.
  - intros NS msg ->.
    destruct (run_calm scB io _ false (B_dispatching io scB) false es _ (Crashed msg, lc)
                I0 eq_refl N (fun _ => NS) E) as (C' & _).
    unfold calm in C'. cbn in C'. destruct C' as (X & _). discriminate X.
Qed.

(** The session of the example of that revision: a command, the end of
    the stream, and the statements after spinloop one by one, with a send
    on [PushCh] taken by [groundPushCh] on the way. *)
Lemma X13_without_Close_only_a_late_send_panics_witness :
  exists s,
    B.spin Example.QuietServerClient Example.tcp (Spawned, fresh Example.wire0)
      [Begin; SelectRead (mkReadWrap (Some "PING"%string) None false);
       SelectRead (mkReadWrap None None true);
       TeardownStmt; ExtSend (Some "HI"%string); TeardownStmt; TeardownStmt;
       TeardownStmt; TeardownStmt; TeardownStmt] = Some s /\
    fst s = Closed_ /\ CloseCh (snd s) = Closed /\ PushCh (snd s) = Closed.
Proof.
  destruct (B.spin Example.QuietServerClient Example.tcp (Spawned, fresh Example.wire0)
              [Begin; SelectRead (mkReadWrap (Some "PING"%string) None false);
               SelectRead (mkReadWrap None None true);
               TeardownStmt; ExtSend (Some "HI"%string); TeardownStmt; TeardownStmt;
               TeardownStmt; TeardownStmt; TeardownStmt])
    as [s | ] eqn:E; [ | vm_compute in E; discriminate E ].
  exists s. split; [ reflexivity | ].
  assert (Hs : fst s = Closed_) by (vm_compute in E; injection E as <-; reflexivity).
  destruct (X13_without_Close_only_a_late_send_panics string Example.Wire Example.tcp
              Example.QuietServerClient Example.wire0
              [Begin; SelectRead (mkReadWrap (Some "PING"%string) None false);
               SelectRead (mkReadWrap None None true);
               TeardownStmt; ExtSend (Some "HI"%string); TeardownStmt; TeardownStmt;
               TeardownStmt; TeardownStmt; TeardownStmt] s
              eq_refl E) as (_ & H1 & _).
  split; [ exact Hs | exact (H1 Hs) ].
Defined.

(** X14.  A goroutine of [read] that comes back from [Read] after [spin]
    has returned: in the revision that sends on [readCh] in a select with
    [CloseCh] it returns, because the teardown has closed [CloseCh]; in
    the revision that sends and does nothing else it can take no step, and
    stays in its send for good. *)
Theorem X14_abandoned_read_returns_only_with_the_CloseCh_case :
  forall (T U : Type) (io : Stream U)
         (scA : ServerClient T U (iface T * bool * bool))
         (scB : ServerClient T U (iface T * bool))
         (u : U) (es : list (event T)) (s : pc * ListenerConn T U)
         (rw : readWrap T),
    fst s = Closed_ ->
    (A.spin scA io (Spawned, fresh u) es = Some s ->
     read_step true s (AtSend rw) SawClose = Some Returned) /\
    (B.spin scB io (Spawned, fresh u) es = Some s ->
     forall e, read_step false s (AtSend rw) e = None).
Proof.
  intros T U io scA scB u es s rw Hs. split; intros E.
  - assert (I : teardown_state true s).
    { eapply (run_teardown_state scA io _ true (A_on_read_quiet io scA));
        [ apply fresh_teardown_state | exact E ]. }
    destruct s as [p lc]. cbn [fst snd] in *. subst p.
    destruct I as (k & St & _ & _ & _ & _ & Hc & _). cbn in St. subst k.
    cbn [snd] in Hc. unfold read_step. cbn [fst snd]. rewrite (Hc eq_refl). reflexivity.
  - destruct s as [p lc]. cbn [fst] in Hs. subst p. intros []; reflexivity.
Qed.

(** On a stream that is already closed a push fails and the loop is left
    with its read under way. *)
Lemma X14_abandoned_read_returns_only_with_the_CloseCh_case_witness :
  exists s,
    A.spin Example.ExServerClient Example.tcp
      (Spawned, fresh (Example.net_Close Example.wire0))
      [Begin; SelectPush (Some "HI"%string); Teardown] = Some s /\
    fst s = Closed_ /\
    read_step true s (AtSend (mkReadWrap (T:=string) None None true)) SawClose
    = Some Returned.
Proof.
  destruct (A.spin Example.ExServerClient Example.tcp
              (Spawned, fresh (Example.net_Close Example.wire0))
              [Begin; SelectPush (Some "HI"%string); Teardown])
    as [s | ] eqn:E; [ | vm_compute in E; discriminate E ].
  exists s. split; [ reflexivity | ].
  assert (Hs : fst s = Closed_) by (vm_compute in E; injection E as <-; reflexivity).
  split; [ exact Hs | ].
  exact (proj1 (X14_abandoned_read_returns_only_with_the_CloseCh_case
                  string Example.Wire Example.tcp Example.ExServerClient
                  Example.QuietServerClient (Example.net_Close Example.wire0)
                  _ s (mkReadWrap None None true) Hs) E).
Defined.

End ServerMore.

(** * Further properties: the accept loop *)

Module ListenerFacts.
Import Server Listener.

Section Accepting.
Context {T U S : Type}.
Variable io : Stream U.
Variable Connected : S -> bool * S.

Lemma spin_length (accepts : list (accepted U)) :
  forall st, List.length (@spin T U S io Connected st accepts) = List.length accepts.
Proof.
  induction accepts as [ | [e r | c] rest IH ]; intros st; cbn.
  - reflexivity.
  - rewrite IH. reflexivity.
  - destruct (Connected st) as [d st']. cbn. rewrite IH. reflexivity.
Qed.

Lemma spin_errors (accepts : list (accepted U)) :
  forall st, sent_errors (@spin T U S io Connected st accepts)
             = map fst (filter snd (errors accepts)).
Proof.
  unfold sent_errors, errors.
  induction accepts as [ | [e r | c] rest IH ]; intros st; cbn.
  - reflexivity.
  - unfold err. destruct r; cbn; rewrite IH; reflexivity.
  - destruct (Connected st) as [d st']. destruct d; cbn; apply IH.
Qed.

Lemma spin_sessions (accepts : list (accepted U)) :
  forall st,
    Forall2 (fun conn x => snd x = if fst x : bool then @fresh T U conn
                                   else refuse io (fresh conn))
            (conns accepts) (sessions (@spin T U S io Connected st accepts)).
Proof.
  unfold sessions, conns.
  induction accepts as [ | [e r | c] rest IH ]; intros st; cbn.
  - constructor.
  - unfold err. destruct r; cbn; apply IH.
  - destruct (Connected st) as [d st']. destruct d; cbn; constructor;
      try reflexivity; apply IH.
Qed.

Lemma spin_refused (accepts : list (accepted U)) :
  forall st lc,
    In (false, lc) (sessions (@spin T U S io Connected st accepts)) ->
    connClosed lc = true /\ trace lc = [] /\ CloseCh lc = Open /\ PushCh lc = Open.
Proof.
  unfold sessions.
  induction accepts as [ | [e r | c] rest IH ]; intros st lc H; cbn in H.
  - contradiction.
  - unfold err in H. destruct r; cbn in H; eapply IH; exact H.
  - destruct (Connected st) as [d st']. destruct d; cbn in H; destruct H as [H | H];
      try (eapply IH; exact H); try discriminate H.
    injection H as <-. repeat split.
Qed.

Lemma spinB_sessions (accepts : list (accepted U)) :
  sessions (@spinB T U accepts) = map (fun c => (true, fresh c)) (conns accepts).
Proof.
  unfold sessions, conns.
  induction accepts as [ | [e r | c] rest IH ]; cbn.
  - reflexivity.
  - unfold err. destruct r; cbn; exact IH.
  - rewrite IH. reflexivity.
Qed.
End Accepting.

(** X15.  The accept loop goes through everything [Accept] returns: an
    error never stops it and reaches [ErrCh] only if a receiver is waiting
    at that moment, else it is dropped; every accepted connection becomes
    one session with fresh, open channels, in the order accepted.  In the
    revision whose [Connected] can refuse, a refused connection has its
    stream closed and nothing else: [Closing] is not called and [PushCh]
    and [CloseCh] stay open.  In the other revision every connection is
    run. *)
Theorem X15_accept_loop_goes_on :
  forall (T U S : Type) (io : Stream U) (Connected : S -> bool * S) (st : S)
         (accepts : list (accepted U)),
    List.length (@spin T U S io Connected st accepts) = List.length accepts /\
    sent_errors (@spin T U S io Connected st accepts)
    = map fst (filter snd (errors accepts)) /\
    Forall2 (fun conn x => snd x = if fst x : bool then @fresh T U conn
                                   else refuse io (fresh conn))
            (conns accepts) (sessions (@spin T U S io Connected st accepts)) /\
    (forall lc,
        In (false, lc) (sessions (@spin T U S io Connected st accepts)) ->
        connClosed lc = true /\ trace lc = [] /\
        CloseCh lc = Open /\ PushCh lc = Open) /\
    sessions (@spinB T U accepts) = map (fun c => (true, fresh c)) (conns accepts).
Proof.
  intros T U S io Connected st accepts.
  split; [ apply spin_length | ].
  split; [ apply spin_errors | ].
  split; [ apply spin_sessions | ].
  split; [ apply spin_refused | apply spinB_sessions ].
Qed.

End ListenerFacts.

(** * Further properties: the course of the read loop *)

Module ClientMore.
Import Client ClientTrace.

Section Course.
Context {T U : Type}.
Variable client : Client T U.
Variable io : Stream U.

(** Membership in a history extended by a step. *)
Ltac in_new H :=
  apply in_app_iff in H; destruct H as [H | H];
  [ | cbn in H;
      repeat (destruct H as [H | H]; [ try discriminate H | ]);
      try contradiction H ].

Lemma answer_ok_app (h d : list (obs T)) it e cl :
  answer_ok h it e cl -> answer_ok (h ++ d) it e cl.
Proof.
  intros [H | (n & rw & t & H & G)]; [ left; exact H | right ].
  exists n, rw, t. split; [ apply in_app_iff; left; exact H | exact G ].
Qed.

(** Before its receive, [Cmd] returns only an error of [Write] or of
    [Flush], with a nil item. *)
Lemma Cmd_returned (c : iface T) (u u' : U) it e cl :
  Cmd client io c u = (Returned it e cl, u') -> it = None /\ e <> None.
Proof.
  unfold Cmd, cmd. destruct (Write client c u) as [[er d] u1].
  destruct er as [m | ]; cbn.
  - intros H. injection H as <- <- _ _. split; [ reflexivity | discriminate ].
  - destruct (Flush io u1) as [[m | ] u2]; cbn; intros H; [ | discriminate H ].
    injection H as <- <- _ _. split; [ reflexivity | discriminate ].
Qed.

Lemma course_Dial (t0 : Z) (u : U) : course client (Dial (T:=T) t0 u).
Proof.
  unfold course, Dial; cbn.
  split; [ split; intros H; discriminate H | ].
  split; [ intros msg H; discriminate H | ].
  split; [ intros H; discriminate H | ].
  split; [ intros n rw t H; destruct H | ].
  split; [ intros _ n rw t H; destruct H | ].
  split; [ intros rw dl H; discriminate H | ].
  split; [ intros [H | H]; discriminate H | ].
  intros it e cl t H. destruct H.
Qed.

(** A step that leaves [spin] where it is and offers nothing. *)
Lemma course_quiet (s s' : Conn T U) (d : list (obs T)) :
  history s' = history s ++ d ->
  (forall n rw t, ~ In (Offered n rw t) d) ->
  (forall it e cl t, In (CmdReturns it e cl t) d -> it = None /\ e <> None) ->
  loop s' = loop s -> PushCh s' = PushCh s -> nread s' = nread s ->
  (connClosed s = true -> connClosed s' = true) ->
  course client s -> course client s'.
Proof.
  intros Hh NO CR Hl Hp Hn Hc (K1 & K2 & K3 & K4 & K5 & K6 & K7 & K8).
  assert (O : forall k rw t, In (Offered k rw t) (history s') ->
                             In (Offered k rw t) (history s)).
  { intros k rw t H. rewrite Hh in H. apply in_app_iff in H.
    destruct H as [H | H]; [ exact H | destruct (NO _ _ _ H) ]. }
  assert (Up : forall o, In o (history s) -> In o (history s')).
  { intros o H. rewrite Hh. apply in_app_iff. left. exact H. }
  unfold course. cbn zeta. rewrite Hl, Hp, Hn.
  split; [ exact K1 | ]. split; [ exact K2 | ].
  split; [ intros H; apply Hc, K3, H | ].
  split; [ intros k rw t H; exact (K4 _ _ _ (O _ _ _ H)) | ].
  split; [ intros L k rw t H; exact (K5 L _ _ _ (O _ _ _ H)) | ].
  split.
  { intros rw dl L. destruct (K6 rw dl L) as (A & (t & B) & C).
    split; [ exact A | ]. split; [ exists t; apply Up; exact B | ].
    intros k rw' t' H. exact (C _ _ _ (O _ _ _ H)). }
  split.
  { intros L. destruct (K7 L) as ((rw & t & A & B) & C).
    split; [ exists rw, t; split; [ apply Up; exact A | exact B ] | ].
    intros k rw' t' H. exact (C _ _ _ (O _ _ _ H)). }
  intros it e cl t H. rewrite Hh in *. apply in_app_iff in H.
  destruct H as [H | H].
  - apply answer_ok_app. exact (K8 _ _ _ _ H).
  - left. exact (CR _ _ _ _ H).
Qed.

Lemma step_course (s s' : Conn T U) (e : event T) :
  course client s -> step client io s e = Some s' -> course client s'.
Proof.
  intros K E. destruct e; unfold step in E.
  - (* Tick *)
    destruct (0 <=? d); [ | discriminate E ].
    injection E as <-.
    eapply (course_quiet s _ []); try reflexivity; try exact K.
    + cbn. rewrite app_nil_r. reflexivity.
    + intros n rw t H. exact H.
    + intros it e cl t H. destruct H.
    + cbn. auto.
  - (* ReadReturns *)
    destruct (loop s) eqn:L; try discriminate E. injection E as <-.
    destruct K as (K1 & K2 & K3 & K4 & K5 & K6 & K7 & K8).
    assert (ND : forall n rw t, In (Offered n rw t) (history s) -> die rw = false).
    { apply K5. left. exact L. }
    assert (NC : PushCh s <> Closed).
    { intros H. apply K1 in H. rewrite L in H. discriminate H. }
    unfold course; cbn [now loop caller world connClosed PushCh nread history].
    unfold spin_after_Read.
    destruct (to_readCh client rw) eqn:Hr.
    + split; [ split; intros H; [ destruct (NC H) | discriminate H ] | ].
      split; [ intros msg H; discriminate H | ].
      split; [ intros H; discriminate H | ].
      split.
      { intros k rw0 t H. in_new H; [ exact (K4 _ _ _ H) | ].
        injection H as _ <- _. exact Hr. }
      split; [ intros [H | (it & H)]; discriminate H | ].
      split.
      { intros rw0 dl H. injection H as <- _. cbn [pred].
        split; [ apply Nat.lt_0_succ | ].
        split; [ exists (now s); apply in_app_iff; right; right; left; reflexivity | ].
        intros k rw' t H G. in_new H.
        - rewrite (ND _ _ _ H) in G. discriminate G.
        - injection H as <- <- _. split; reflexivity. }
      split; [ intros [H | H]; discriminate H | ].
      intros it e cl t H. in_new H. apply answer_ok_app. exact (K8 _ _ _ _ H).
    + split; [ split; intros H; [ destruct (NC H) | discriminate H ] | ].
      split; [ intros msg H; discriminate H | ].
      split; [ intros H; discriminate H | ].
      split; [ intros k rw0 t H; in_new H; exact (K4 _ _ _ H) | ].
      split; [ intros _ k rw0 t H; in_new H; exact (ND _ _ _ H) | ].
      split; [ intros rw0 dl H; discriminate H | ].
      split; [ intros [H | H]; discriminate H | ].
      intros it e cl t H. in_new H. apply answer_ok_app. exact (K8 _ _ _ _ H).
  - (* Handoff *)
    destruct (loop s) eqn:L; try discriminate E.
    destruct (caller s) eqn:C; try discriminate E.
    injection E as <-.
    destruct K as (K1 & K2 & K3 & K4 & K5 & K6 & K7 & K8).
    destruct (K6 _ _ L) as (A6 & (t6 & B6) & C6).
    assert (NC : PushCh s <> Closed).
    { intros H. apply K1 in H. rewrite L in H. discriminate H. }
    unfold course; cbn [now loop caller world connClosed PushCh nread history].
    unfold spin_after_select.
    split; [ split; intros H; [ destruct (NC H) | destruct (die rw); discriminate H ] | ].
    split; [ intros msg H; destruct (die rw); discriminate H | ].
    split; [ intros H; destruct (die rw); discriminate H | ].
    split; [ intros k rw0 t H; in_new H; exact (K4 _ _ _ H) | ].
    split.
    { intros H k rw0 t G. in_new G.
      destruct (die rw0) eqn:D0; [ | reflexivity ].
      destruct (C6 _ _ _ G D0) as (-> & _). rewrite D0 in H.
      destruct H as [H | (it & H)]; discriminate H. }
    split; [ intros rw0 dl H; destruct (die rw); discriminate H | ].
    split.
    { intros H. destruct (die rw) eqn:D.
      - split; [ exists rw, t6; split; [ apply in_app_iff; left; exact B6 | exact D ] | ].
        intros k rw' t G G'. in_new G. exact (proj2 (C6 _ _ _ G G')).
      - destruct H as [H | H]; discriminate H. }
    intros it e cl t H. in_new H.
    + apply answer_ok_app. exact (K8 _ _ _ _ H).
    + injection H as <- <- <- _. right. exists (pred (nread s)), rw, t6.
      split; [ apply in_app_iff; left; exact B6 | repeat split ].
  - (* Timeout *)
    destruct (loop s) eqn:L; try discriminate E.
    destruct (deadline <=? now s); [ | discriminate E ].
    injection E as <-.
    destruct K as (K1 & K2 & K3 & K4 & K5 & K6 & K7 & K8).
    destruct (K6 _ _ L) as (A6 & (t6 & B6) & C6).
    assert (NC : PushCh s <> Closed).
    { intros H. apply K1 in H. rewrite L in H. discriminate H. }
    unfold course; cbn [now loop caller world connClosed PushCh nread history].
    unfold spin_after_select.
    split; [ split; intros H; [ destruct (NC H) | destruct (die rw); discriminate H ] | ].
    split; [ intros msg H; destruct (die rw); discriminate H | ].
    split; [ intros H; destruct (die rw); discriminate H | ].
    split; [ intros k rw0 t H; in_new H; exact (K4 _ _ _ H) | ].
    split.
    { intros H k rw0 t G. in_new G.
      destruct (die rw0) eqn:D0; [ | reflexivity ].
      destruct (C6 _ _ _ G D0) as (-> & _). rewrite D0 in H.
      destruct H as [H | (it & H)]; discriminate H. }
    split; [ intros rw0 dl H; destruct (die rw); discriminate H | ].
    split.
    { intros H. destruct (die rw) eqn:D.
      - split; [ exists rw, t6; split; [ apply in_app_iff; left; exact B6 | exact D ] | ].
        intros k rw' t G G'. in_new G. exact (proj2 (C6 _ _ _ G G')).
      - destruct H as [H | H]; discriminate H. }
    intros it e cl t H. in_new H. apply answer_ok_app. exact (K8 _ _ _ _ H).
  - (* PushReceived *)
    destruct (loop s) eqn:L; try discriminate E. injection E as <-.
    destruct K as (K1 & K2 & K3 & K4 & K5 & K6 & K7 & K8).
    assert (ND : forall n rw t, In (Offered n rw t) (history s) -> die rw = false).
    { apply K5. right. exists it. exact L. }
    assert (NC : PushCh s <> Closed).
    { intros H. apply K1 in H. rewrite L in H. discriminate H. }
    unfold course; cbn [now loop caller world connClosed PushCh nread history].
    split; [ split; intros H; [ destruct (NC H) | discriminate H ] | ].
    split; [ intros msg H; discriminate H | ].
    split; [ intros H; discriminate H | ].
    split; [ intros k rw0 t H; in_new H; exact (K4 _ _ _ H) | ].
    split; [ intros _ k rw0 t H; in_new H; exact (ND _ _ _ H) | ].
    split; [ intros rw0 dl H; discriminate H | ].
    split; [ intros [H | H]; discriminate H | ].
    intros it0 e cl t H. in_new H. apply answer_ok_app. exact (K8 _ _ _ _ H).
  - (* SpinExit *)
    destruct (loop s) eqn:L; try discriminate E.
    destruct K as (K1 & K2 & K3 & K4 & K5 & K6 & K7 & K8).
    assert (PO : PushCh s = Open).
    { destruct (PushCh s); [ reflexivity | ]. rewrite L in K1.
      assert (H : @Leaving T = Exited) by (apply K1; reflexivity). discriminate H. }
    unfold spin_exit in E. rewrite PO in E. cbn in E. injection E as <-.
    destruct (K7 (or_introl L)) as (A7 & B7).
    unfold course; cbn [now loop caller world connClosed PushCh nread history].
    split; [ split; reflexivity | ].
    split; [ intros msg H; discriminate H | ].
    split; [ reflexivity | ].
    split; [ exact K4 | ].
    split; [ intros [H | (it & H)]; discriminate H | ].
    split; [ intros rw0 dl H; discriminate H | ].
    split; [ intros _; split; [ exact A7 | exact B7 ] | exact K8 ].
  - (* CallCmd *)
    destruct (caller s) eqn:C; try discriminate E.
    destruct (Cmd client io cmd0 (world s)) as [[it e cl | ] u] eqn:X; injection E as <-.
    + eapply (course_quiet s _ [CmdReturns it e cl (now s)]); try reflexivity; try exact K.
      * intros n rw t [H | H]; [ discriminate H | exact H ].
      * intros it0 e0 cl0 t [H | H]; [ | destruct H ].
        injection H as <- <- _ _. exact (Cmd_returned _ _ _ _ _ _ X).
      * cbn. auto.
    + eapply (course_quiet s _ []); try reflexivity; try exact K.
      * cbn. rewrite app_nil_r. reflexivity.
      * intros n rw t H. exact H.
      * intros it e cl t H. destruct H.
      * cbn. auto.
  - (* CallCmdBg *)
    destruct (caller s) eqn:C; try discriminate E.
    destruct (CmdBg client io cmd0 (world s)) as [[[e cl] | ] u]; [ | discriminate E ].
    injection E as <-.
    eapply (course_quiet s _ [CmdBgReturns e cl (now s)]); try reflexivity; try exact K.
    + intros n rw t [H | H]; [ discriminate H | exact H ].
    + intros it0 e0 cl0 t [H | H]; [ discriminate H | destruct H ].
    + cbn. auto.
  - (* CallClose *)
    injection E as <-.
    eapply (course_quiet s _ []); try reflexivity; try exact K.
    + cbn. rewrite app_nil_r. reflexivity.
    + intros n rw t H. exact H.
    + intros it e cl t H. destruct H.
Qed.

Lemma run_course (es : list (event T)) :
  forall s s' : Conn T U,
    course client s -> run client io s es = Some s' -> course client s'.
Proof.
  induction es as [ | e es IH ]; intros s s' K E; cbn in E.
  - injection E as <-. exact K.
  - destruct (step client io s e) as [s1 | ] eqn:E1; [ | discriminate ].
    eapply IH; [ eapply step_course; eassumption | exact E ].
Qed.

End Course.

Section Resolving.
Context {T U : Type}.
Variable client : Client T U.
Variable io : Stream U.

Lemma flat_map_untimed {B} (f : obs T -> list B) (d : list (obs T)) :
  Forall untimed d -> (forall o, untimed o -> f o = []) -> flat_map f d = [].
Proof.
  intros F Hf. induction F as [ | o d Ho F IH ]; cbn; [ reflexivity | ].
  rewrite (Hf o Ho), IH. reflexivity.
Qed.

Lemma resolving_untimed (s s' : Conn T U) (d : list (obs T)) :
  Forall untimed d ->
  history s' = history s ++ d -> pending s' = pending s ->
  resolving s -> resolving s'.
Proof.
  intros F Hh Hp R. unfold resolving in *. rewrite Hh, Hp.
  unfold offers, resolved in *. rewrite !flat_map_app.
  rewrite !(flat_map_untimed _ d F), !app_nil_r;
    try (intros [] Ho; cbn in *; tauto).
  exact R.
Qed.

Lemma step_resolving (s s' : Conn T U) (e : event T) :
  resolving s -> step client io s e = Some s' -> resolving s'.
Proof.
  intros R E. destruct e; unfold step in E.
  - destruct (0 <=? d); [ | discriminate E ].
    injection E as <-. exact R.
  - destruct (loop s) eqn:L; try discriminate E. injection E as <-.
    unfold resolving, pending in *. rewrite L in R.
    cbn [now loop caller world connClosed PushCh nread history].
    unfold offers, resolved in *. rewrite app_nil_r in R.
    rewrite !flat_map_app, map_app, R.
    unfold spin_after_Read. destruct (to_readCh client rw); cbn;
      rewrite ?app_nil_r; reflexivity.
  - destruct (loop s) eqn:L; try discriminate E.
    destruct (caller s); try discriminate E.
    injection E as <-.
    unfold resolving, pending in *. rewrite L in R.
    cbn [now loop caller world connClosed PushCh nread history].
    unfold offers, resolved in *. rewrite !flat_map_app, map_app, R.
    unfold spin_after_select. destruct (die rw); cbn; rewrite ?app_nil_r; reflexivity.
  - destruct (loop s) eqn:L; try discriminate E.
    destruct (deadline <=? now s); [ | discriminate E ].
    injection E as <-.
    unfold resolving, pending in *. rewrite L in R.
    cbn [now loop caller world connClosed PushCh nread history].
    unfold offers, resolved in *. rewrite !flat_map_app, map_app, R.
    unfold spin_after_select. destruct (die rw); cbn; rewrite ?app_nil_r; reflexivity.
  - destruct (loop s) eqn:L; try discriminate E. injection E as <-.
    eapply (resolving_untimed s _ [PushTaken it (now s)]);
      [ repeat constructor | reflexivity | | exact R ].
    unfold pending. rewrite L. reflexivity.
  - destruct (loop s) eqn:L; try discriminate E.
    destruct (spin_exit io (world s) (PushCh s)) as [[p u] ch] eqn:X.
    injection E as <-.
    eapply (resolving_untimed s _ []); [ constructor | | | exact R ].
    + cbn. rewrite app_nil_r. reflexivity.
    + unfold pending. rewrite L. cbn. unfold spin_exit in X.
      destruct (close (PushCh s)); injection X as <- _ _; reflexivity.
  - destruct (caller s); try discriminate E.
    destruct (Cmd client io cmd0 (world s)) as [[it e cl | ] u]; injection E as <-.
    + eapply (resolving_untimed s _ [CmdReturns it e cl (now s)]);
        [ repeat constructor | reflexivity | reflexivity | exact R ].
    + exact R.
  - destruct (caller s); try discriminate E.
    destruct (CmdBg client io cmd0 (world s)) as [[[e cl] | ] u]; [ | discriminate E ].
    injection E as <-.
    eapply (resolving_untimed s _ [CmdBgReturns e cl (now s)]);
      [ repeat constructor | reflexivity | reflexivity | exact R ].
  - injection E as <-. exact R.
Qed.

Lemma run_resolving (es : list (event T)) :
  forall s s' : Conn T U,
    resolving s -> run client io s es = Some s' -> resolving s'.
Proof.
  induction es as [ | e es IH ]; intros s s' R E; cbn in E.
  - injection E as <-. exact R.
  - destruct (step client io s e) as [s1 | ] eqn:E1; [ | discriminate ].
    eapply IH; [ eapply step_resolving; eassumption | exact E ].
Qed.

Lemma NoDup_fst_filter {A B} (f : A * B -> bool) (l : list (A * B)) :
  NoDup (map fst l) -> NoDup (map fst (filter f l)).
Proof.
  induction l as [ | x l IH ]; cbn; intros ND; [ constructor | ].
  inversion ND as [ | ? ? Hx ND' ]; subst.
  destruct (f x); cbn; [ constructor | ]; try (apply IH; exact ND').
  intros H. apply Hx. apply in_map_iff in H. destruct H as (y & Hy & H).
  apply filter_In in H. apply in_map_iff. exists y. tauto.
Qed.

Lemma routed_Dial (t0 : Z) (u : U) : routed client (Dial (T:=T) t0 u).
Proof. unfold routed, Dial. cbn. repeat split. Qed.

Lemma offered_was_decoded (h : list (obs T)) (n : nat) (rw : readWrap T) (t : Z) :
  offers h = filter (fun p => to_readCh client (snd p)) (decodes h) ->
  In (Offered n rw t) h -> exists t0, In (Decoded n rw t0) h.
Proof.
  intros R H.
  assert (O : In (n, rw) (offers h)).
  { unfold offers. apply in_flat_map. exists (Offered n rw t).
    split; [ exact H | left; reflexivity ]. }
  rewrite R in O. apply filter_In in O. destruct O as (O & _).
  unfold decodes in O. apply in_flat_map in O. destruct O as (o & Ho & O).
  destruct o as [ k rw0 t0 | | | | | | | ]; cbn in O; try contradiction O.
  destruct O as [O | O]; [ | contradiction O ].
  injection O as -> ->. exists t0. exact Ho.
Qed.
End Resolving.

(** X16.  Whatever the schedule of a session started by [Dial], with
    callbacks that return: [close(conn.PushCh)] at the end of [spin] never
    panics, [PushCh] is closed exactly when [spin] has returned, and by
    then the connection is closed.  [spin] leaves its loop only
    after a result of [Read] with [die] set went to its select on
    [readCh], and that result is the last one read: after it [spin]
    neither calls [Read] again nor sends on [PushCh]. *)
Theorem X16_spin_reads_on_until_a_result_with_die :
  forall (T U : Type) (client : Client T U) (io : Stream U) (t0 : Z) (u : U)
         (es : list (event T)) (s : Conn T U),
    run client io (Dial t0 u) es = Some s ->
    (PushCh s = Closed <-> loop s = Exited) /\
    (forall msg, loop s <> Died msg) /\
    (loop s = Exited -> connClosed s = true) /\
    (loop s = Leaving \/ loop s = Exited ->
     exists rw t, In (Offered (pred (nread s)) rw t) (history s) /\ die rw = true) /\
    (forall n rw t, In (Offered n rw t) (history s) -> die rw = true ->
                    S n = nread s /\ loop s <> AtRead /\
                    forall it, loop s <> AtPush it).
Proof.
  intros T U client io t0 u es s E.
  assert (K : course client s)
    by (eapply run_course; [ apply course_Dial | exact E ]).
  destruct K as (K1 & K2 & K3 & K4 & K5 & K6 & K7 & K8).
  split; [ exact K1 | ]. split; [ exact K2 | ]. split; [ exact K3 | ].
  split; [ intros L; exact (proj1 (K7 L)) | ].
  intros n rw t H D.
  assert (NR : loop s <> AtRead).
  { intros L. rewrite (K5 (or_introl L) _ _ _ H) in D. discriminate D. }
  assert (NP : forall it, loop s <> AtPush it).
  { intros it L.
    rewrite (K5 (or_intror (ex_intro _ it L)) _ _ _ H) in D. discriminate D. }
  split; [ | split; assumption ].
  destruct (loop s) as [ | rw0 dl | it | | | msg ] eqn:L.
  - destruct (NR eq_refl).
  - exact (proj2 (proj2 (proj2 (K6 _ _ eq_refl)) _ _ _ H D)).
  - destruct (NP it eq_refl).
  - exact (proj2 (K7 (or_introl eq_refl)) _ _ _ H D).
  - exact (proj2 (K7 (or_intror eq_refl)) _ _ _ H D).
  - destruct (K2 msg eq_refl).
Qed.

(** The client of the example reads a push, then the end of the stream;
    nobody calls [Cmd], the timer fires and [spin] returns. *)
Lemma X16_spin_reads_on_until_a_result_with_die_witness :
  exists s,
    run Example.ExClient Example.tcp (Dial 0 Example.wire0)
      [ReadReturns (mkReadWrap (Some "HI"%string) None false); PushReceived;
       ReadReturns Example.EOF; Tick (2 * Second); Timeout; SpinExit] = Some s /\
    (PushCh s = Closed <-> loop s = Exited) /\
    (forall msg, loop s <> Died msg) /\
    (loop s = Exited -> connClosed s = true) /\
    (loop s = Leaving \/ loop s = Exited ->
     exists rw t, In (Offered (pred (nread s)) rw t) (history s) /\ die rw = true) /\
    (forall n rw t, In (Offered n rw t) (history s) -> die rw = true ->
                    S n = nread s /\ loop s <> AtRead /\
                    forall it, loop s <> AtPush it).
Proof.
  destruct (run Example.ExClient Example.tcp (Dial 0 Example.wire0)
              [ReadReturns (mkReadWrap (Some "HI"%string) None false); PushReceived;
               ReadReturns Example.EOF; Tick (2 * Second); Timeout; SpinExit])
    as [s | ] eqn:E; [ | vm_compute in E; discriminate E ].
  exists s. split; [ reflexivity | ].
  exact (X16_spin_reads_on_until_a_result_with_die string Example.Wire
           Example.ExClient Example.tcp 0 Example.wire0 _ s E).
Defined.

(** X17.  Whatever the schedule of a session started by [Dial], what a
    call of [Cmd] returned is either a nil item with the error of its own
    [Write] or [Flush], or the three values of one result of [Read]; and
    when the error returned is nil the item is one that [IsPush] rejects:
    [Cmd] never returns a push message as its response. *)
Theorem X17_Cmd_never_returns_a_push :
  forall (T U : Type) (client : Client T U) (io : Stream U) (t0 : Z) (u : U)
         (es : list (event T)) (s : Conn T U)
         (it : iface T) (e : error) (cl : bool) (t : Z),
    run client io (Dial t0 u) es = Some s ->
    In (CmdReturns it e cl t) (history s) ->
    ((it = None /\ e <> None) \/
     (exists n rw t0, In (Decoded n rw t0) (history s) /\
                      it = item rw /\ e = err rw /\ cl = die rw)) /\
    (e = None -> IsPush client it = false).
Proof.
  intros T U client io t0 u es s it e cl t E H.
  assert (K : course client s)
    by (eapply run_course; [ apply course_Dial | exact E ]).
  assert (R : routed client s)
    by (eapply ClientFacts.run_routed; [ apply routed_Dial | exact E ]).
  destruct K as (_ & _ & _ & K4 & _ & _ & _ & K8).
  destruct R as (_ & R2 & _).
  destruct (K8 _ _ _ _ H) as [(A & B) | (n & rw & t1 & A & -> & -> & ->)].
  - split; [ left; split; assumption | ]. intros G. destruct (B G).
  - split.
    + right. destruct (offered_was_decoded client _ _ _ _ R2 A) as (t2 & D).
      exists n, rw, t2. repeat split. exact D.
    + intros G. specialize (K4 _ _ _ A). unfold to_readCh in K4.
      rewrite G in K4. cbn in K4. destruct (IsPush client (item rw));
        [ discriminate K4 | reflexivity ].
Qed.

(** The client of the example calls [Cmd]; a push and then the response
    arrive, and the call returns the response. *)
Lemma X17_Cmd_never_returns_a_push_witness :
  exists s,
    run Example.ExClient Example.tcp (Dial 0 Example.wire0)
      [CallCmd (Some "OHAI"%string);
       ReadReturns (mkReadWrap (Some "HI"%string) None false); PushReceived;
       ReadReturns (mkReadWrap (Some "~OHAI"%string) None false); Handoff] = Some s /\
    In (CmdReturns (Some "~OHAI"%string) None false 0) (history s) /\
    ((Some "~OHAI"%string = None /\ @None string <> None) \/
     (exists n rw t0, In (Decoded n rw t0) (history s) /\
                      Some "~OHAI"%string = item rw /\ None = err rw /\
                      false = die rw)) /\
    (@None string = None ->
     IsPush Example.ExClient (Some "~OHAI"%string) = false).
Proof.
  destruct (run Example.ExClient Example.tcp (Dial 0 Example.wire0)
              [CallCmd (Some "OHAI"%string);
               ReadReturns (mkReadWrap (Some "HI"%string) None false); PushReceived;
               ReadReturns (mkReadWrap (Some "~OHAI"%string) None false); Handoff])
    as [s | ] eqn:E; [ | vm_compute in E; discriminate E ].
  assert (H : In (CmdReturns (Some "~OHAI"%string) None false 0) (history s)).
  { vm_compute in E. injection E as <-. cbn. tauto. }
  exists s. split; [ reflexivity | ]. split; [ exact H | ].
  exact (X17_Cmd_never_returns_a_push string Example.Wire Example.ExClient
           Example.tcp 0 Example.wire0 _ s _ _ _ _ E H).
Defined.

(** X18.  Whatever the schedule of a session started by [Dial], the
    selects of [spin] that have ended, by a handoff to [Cmd] or by the
    timer, followed by the one [spin] is in if any, are exactly the results
    that [Read] returned in the schedule with an error or an item [IsPush]
    rejects, by their numbers in the order read and each once: no result
    is both handed off and discarded, none is skipped, and [spin] holds at
    most one at a time. *)
Theorem X18_each_response_is_handed_off_or_discarded_once :
  forall (T U : Type) (client : Client T U) (io : Stream U) (t0 : Z) (u : U)
         (es : list (event T)) (s : Conn T U),
    run client io (Dial t0 u) es = Some s ->
    resolved (history s) ++ match loop s with
                            | AtSelect _ _ => [pred (List.length (reads es))]
                            | _ => []
                            end
    = map fst (filter (fun p : nat * readWrap T =>
                         (negb (is_nil (err (snd p)))
                          || negb (IsPush client (item (snd p))))%bool)
                      (combine (seq 0 (List.length (reads es))) (reads es))) /\
    NoDup (resolved (history s) ++ match loop s with
                                   | AtSelect _ _ => [pred (List.length (reads es))]
                                   | _ => []
                                   end).
Proof.
  intros T U client io t0 u es s E.
  assert (R : routed client s)
    by (eapply ClientFacts.run_routed; [ apply routed_Dial | exact E ]).
  assert (V : resolving s).
  { eapply run_resolving; [ | exact E ]. reflexivity. }
  destruct (ClientFacts.run_decodes_Dial client io t0 u es s E) as (D & N).
  destruct R as (R1 & R2 & _). unfold resolving, pending in V.
  rewrite <- N.
  assert (Q : resolved (history s) ++
              match loop s with AtSelect _ _ => [pred (nread s)] | _ => [] end
              = map fst (filter (fun p => to_readCh client (snd p)) (decodes (history s)))).
  { rewrite <- V, R2. reflexivity. }
  split; [ rewrite Q, D, N; reflexivity | ].
  rewrite Q. apply NoDup_fst_filter. rewrite R1. apply seq_NoDup.
Qed.

(** The client of the example: a response nobody waits for is discarded,
    a push goes by, a [Cmd] receives the next response, and the end of the
    stream is held in the select. *)
Lemma X18_each_response_is_handed_off_or_discarded_once_witness :
  exists s,
    run Example.ExClient Example.tcp (Dial 0 Example.wire0)
      [ReadReturns (mkReadWrap (Some "~A"%string) None false);
       Tick (2 * Second); Timeout;
       ReadReturns (mkReadWrap (Some "HI"%string) None false); PushReceived;
       CallCmd (Some "OHAI"%string);
       ReadReturns (mkReadWrap (Some "~OHAI"%string) None false); Handoff;
       ReadReturns Example.EOF] = Some s /\
    resolved (history s) = [0%nat; 2%nat] /\
    (exists rw dl, loop s = AtSelect rw dl) /\
    NoDup (resolved (history s)).
Proof.
  destruct (run Example.ExClient Example.tcp (Dial 0 Example.wire0)
              [ReadReturns (mkReadWrap (Some "~A"%string) None false);
               Tick (2 * Second); Timeout;
               ReadReturns (mkReadWrap (Some "HI"%string) None false); PushReceived;
               CallCmd (Some "OHAI"%string);
               ReadReturns (mkReadWrap (Some "~OHAI"%string) None false); Handoff;
               ReadReturns Example.EOF])
    as [s | ] eqn:E; [ | vm_compute in E; discriminate E ].
  exists s. split; [ reflexivity | ].
  pose proof (X18_each_response_is_handed_off_or_discarded_once string Example.Wire
                Example.ExClient Example.tcp 0 Example.wire0 _ s E) as (H1 & H2).
  assert (L : loop s = AtSelect Example.EOF (2 * Second + handoff_wait))
    by (vm_compute in E; injection E as <-; reflexivity).
  rewrite L in H1, H2. apply NoDup_app_remove_r in H2.
  split; [ | split; [ exists Example.EOF, (2 * Second + handoff_wait); exact L | exact H2 ] ].
  change ([0%nat; 2%nat]) with (removelast [0%nat; 2%nat; 3%nat]).
  rewrite <- (removelast_last (resolved (history s)) (pred (List.length
    (reads [ReadReturns (mkReadWrap (Some "~A"%string) None false);
       Tick (2 * Second); Timeout;
       ReadReturns (mkReadWrap (Some "HI"%string) None false); PushReceived;
       CallCmd (Some "OHAI"%string);
       ReadReturns (mkReadWrap (Some "~OHAI"%string) None false); Handoff;
       ReadReturns Example.EOF])))).
  rewrite H1. reflexivity.
Defined.

End ClientMore.
